(** * fix_pdfs_inplace: a shallow embedding and its verified properties

    The program walks a directory tree, recognises PDF files by suffix and
    magic bytes, and repairs each one in place by running the external
    [qpdf] tool into a hidden sibling file that is then renamed over the
    original.  Everything the program does is an effect on the file system,
    on a child process or on the console, so the embedding is a state and
    exception monad over an explicit [World]. *)

From Stdlib Require Import NArith ZArith Ascii String List Bool Lia.
From Stdlib.Strings Require Import Byte.
From stdpp Require Import base tactics option list strings gmap pretty.

(** ** Text *)

(** A Python [str] is held as its UTF-8 encoding.

    [str.lower()] on the ASCII range; bytes outside that range are left
    alone.  The only
    ASCII letter that a non-ASCII code point lower-cases to is [k], which
    occurs neither in [".pdf"] nor in a name of [skip_dirs], so the two
    comparisons the program makes on lower-cased text come out as in
    Python. *)
Definition ascii_lower (c : ascii) : ascii :=
  let n := nat_of_ascii c in
  if (65 <=? n) && (n <=? 90) then ascii_of_nat (n + 32) else c.

Fixpoint lower (s : string) : string :=
  match s with
  | EmptyString => EmptyString
  | String c s' => String (ascii_lower c) (lower s')
  end.

(** The UTF-8 encoding of a code point of the basic multilingual plane. *)
Definition utf8 (cp : N) : string :=
  (if cp <? 128 then String (ascii_of_N cp) ""
   else if cp <? 2048 then
     String (ascii_of_N (192 + cp / 64))
       (String (ascii_of_N (128 + cp mod 64)) "")
   else
     String (ascii_of_N (224 + cp / 4096))
       (String (ascii_of_N (128 + (cp / 64) mod 64))
          (String (ascii_of_N (128 + cp mod 64)) "")))%N.

(** The code points [str.isspace()] is true of, which are the ones
    [str.strip()] removes: U+0009 to U+000D, U+001C to U+0020, U+0085,
    U+00A0, U+1680, U+2000 to U+200A, U+2028, U+2029, U+202F, U+205F and
    U+3000; each in its encoding. *)
Definition whitespace : list string :=
  Eval vm_compute in
    map utf8 [9; 10; 11; 12; 13; 28; 29; 30; 31; 32; 133; 160; 5760;
              8192; 8193; 8194; 8195; 8196; 8197; 8198; 8199; 8200; 8201;
              8202; 8232; 8233; 8239; 8287; 12288]%N.

(** What is left of [s] after [p], if [s] starts with [p]. *)
Fixpoint strip_prefix (p s : string) : option string :=
  match p with
  | EmptyString => Some s
  | String a p' =>
      match s with
      | EmptyString => None
      | String b s' => if Ascii.eqb a b then strip_prefix p' s' else None
      end
  end.

(** What is left of [s] after the white-space code point it starts with. *)
Definition space_prefix (s : string) : option string :=
  fold_right
    (fun ws rest => match strip_prefix ws s with Some r => Some r | None => rest end)
    None whitespace.

Fixpoint lstrip_upto (k : nat) (s : string) : string :=
  match k with
  | 0 => s
  | S k' =>
      match space_prefix s with
      | Some r => lstrip_upto k' r
      | None => s
      end
  end.

(** [str.lstrip()]; every code point removed takes a byte at least, so the
    length of the string bounds the number of rounds. *)
Definition lstrip (s : string) : string := lstrip_upto (String.length s) s.

(** The string is made of white space only (the empty string is). *)
Definition blank (s : string) : bool :=
  match lstrip s with EmptyString => true | _ => false end.

(** [str.rstrip()]: the string up to its longest tail of white space. *)
Fixpoint rstrip (s : string) : string :=
  match s with
  | EmptyString => EmptyString
  | String c s' => if blank s then EmptyString else String c (rstrip s')
  end.

(** [str.strip()] *)
Definition strip (s : string) : string := rstrip (lstrip s).

(** Python truthiness of a [str]. *)
Definition nonempty (s : string) : bool :=
  match s with EmptyString => false | _ => true end.

(** [a or b] on two strings. *)
Definition str_or (a b : string) : string := if nonempty a then a else b.

(** [t in s] for strings, as a proposition. *)
Definition contains (s t : string) : Prop :=
  ∃ pre post : string, s = pre +:+ t +:+ post.

(** [name.rfind(c)] *)
Fixpoint rfind (c : ascii) (s : string) : option nat :=
  match s with
  | EmptyString => None
  | String a s' =>
      match rfind c s' with
      | Some i => Some (S i)
      | None => if Ascii.eqb a c then Some 0 else None
      end
  end.

(** ** Paths *)

(** A [pathlib.Path] that has been resolved: the list of its components below
    the root of the tree.  The empty list is the root itself, whose [name] is
    the empty string (as [Path("/").name] and [Path(".").name] are). *)
Abbreviation Path := (list string).

Definition name (p : Path) : string := List.last p "".

Definition parent (p : Path) : Path := List.removelast p.

(** [PurePath.suffix]: the part of the final component from its last dot on,
    unless that dot is the first or the last character. *)
Definition suffix (p : Path) : string :=
  let nm := name p in
  match rfind "." nm with
  | Some i =>
      if (0 <? i) && (i <? String.length nm - 1)
      then String.substring i (String.length nm - i) nm
      else ""
  | None => ""
  end.

(** [str(path)] *)
Definition str (p : Path) : string :=
  match p with
  | [] => "/"
  | _ => fold_right (fun c acc => "/" +:+ c +:+ acc) "" p
  end.

(** The components of a path given as a string: split at the separator,
    without the empty components and [.] *)
Fixpoint split_sep (cur : string) (s : string) : list string :=
  match s with
  | EmptyString => [cur]
  | String c s' =>
      if Ascii.eqb c "/" then cur :: split_sep "" s'
      else split_sep (cur +:+ String c "") s'
  end.

Definition Path_of (s : string) : Path :=
  List.filter (fun c => nonempty c && negb (String.eqb c ".")) (split_sep "" s).

(** A [pathlib.Path] as it is built from a string, before anything is looked
    up: the anchor (nothing for a relative path, one slash, or two when the
    string starts with exactly two) and the components, among which empty
    ones and [.] are dropped and [..] is kept.  This is the POSIX flavour. *)
Record PurePath := {
  anchor : string;
  parts : list string
}.

Definition anchor_of (s : string) : string :=
  match s with
  | String "/" (String "/" (String "/" _)) => "/"
  | String "/" (String "/" _) => "//"
  | String "/" _ => "/"
  | _ => ""
  end.

(** [Path(s)] *)
Definition PurePath_of (s : string) : PurePath :=
  {| anchor := anchor_of s; parts := Path_of s |}.

(** [sep.join(l)] *)
Fixpoint join (sep : string) (l : list string) : string :=
  match l with
  | [] => ""
  | [c] => c
  | c :: l' => c +:+ sep +:+ join sep l'
  end.

(** [str(path)] for such a path. *)
Definition str_pure (p : PurePath) : string :=
  match anchor p, parts p with
  | EmptyString, [] => "."
  | anc, ps => anc +:+ join "/" ps
  end.

(** ** Exceptions *)

Inductive exn :=
| ValueError (msg : string)
| RuntimeError (msg : string)
| FileNotFoundError (msg : string)
| PermissionError (msg : string)
| IsADirectoryError (msg : string)
| NotADirectoryError (msg : string)
| OSError (msg : string).

(** [str(e)] *)
Definition str_exn (e : exn) : string :=
  match e with
  | ValueError m | RuntimeError m | FileNotFoundError m | PermissionError m
  | IsADirectoryError m | NotADirectoryError m | OSError m => m
  end.

Inductive result (A : Type) :=
| Ok (a : A)
| Raise (e : exn).
Arguments Ok {A} a.
Arguments Raise {A} e.

(** [PurePath.with_name].  It refuses a path whose own name is empty.  Its
    second check, on the new name, cannot fire here: the new name is built
    around a component, which holds no separator, and is never empty or [.] *)
Definition with_name (p : Path) (nm : string) : result Path :=
  if nonempty (name p) then Ok (parent p ++ [nm])
  else Raise (ValueError ("PosixPath('" +:+ str p +:+ "') has an empty name")).

(** ** The file system *)

(** A regular file carries its bytes and two facts the program can run into:
    whether it may be opened for reading, and whether another process holds it
    open so that it can be neither removed nor renamed over (the situation the
    source comments on for Windows).  A directory lists its entries in the
    order the operating system enumerates them. *)
#[warnings="-register-all"]
Inductive node :=
| File (readable locked : bool) (data : list byte)
| Dir (entries : list (string * node)).

Fixpoint assoc (k : string) (es : list (string * node)) : option node :=
  match es with
  | [] => None
  | (k', n) :: es' => if String.eqb k' k then Some n else assoc k es'
  end.

Fixpoint get (n : node) (p : Path) : option node :=
  match p with
  | [] => Some n
  | c :: p' =>
      match n with
      | Dir es => match assoc c es with Some ch => get ch p' | None => None end
      | File _ _ _ => None
      end
  end.

Fixpoint set_child (c : string) (v : node) (es : list (string * node))
  : list (string * node) :=
  match es with
  | [] => [(c, v)]
  | (k, n) :: es' =>
      if String.eqb k c then (k, v) :: es' else (k, n) :: set_child c v es'
  end.

Definition on_child (c : string) (f : node → node) (es : list (string * node))
  : list (string * node) :=
  map (fun e => if String.eqb e.1 c then (e.1, f e.2) else e) es.

Definition drop_child (c : string) (es : list (string * node))
  : list (string * node) :=
  List.filter (fun e => negb (String.eqb e.1 c)) es.

(** Bind [p] to [v]: the entry is replaced where it is, or added to its
    directory. *)
Fixpoint put (p : Path) (v : node) (n : node) : node :=
  match p with
  | [] => v
  | c :: p' =>
      match n with
      | Dir es =>
          match p' with
          | [] => Dir (set_child c v es)
          | _ :: _ => Dir (on_child c (put p' v) es)
          end
      | File _ _ _ => n
      end
  end.

(** Remove the entry [p] from its directory. *)
Fixpoint remove (p : Path) (n : node) : node :=
  match p with
  | [] => n
  | c :: p' =>
      match n with
      | Dir es =>
          match p' with
          | [] => Dir (drop_child c es)
          | _ :: _ => Dir (on_child c (remove p') es)
          end
      | File _ _ _ => n
      end
  end.

Definition is_dir (n : node) : bool :=
  match n with Dir _ => true | File _ _ _ => false end.

(** Where the operating system arrives when it follows the components [ps]
    from the directory [cur]: every component but the last is looked up in
    a directory, and [..] leads to the directory above (the root is above
    itself).  [None] if the walk fails on the way or nothing is there. *)
Fixpoint locate (n : node) (cur : Path) (ps : list string) : option Path :=
  match ps with
  | [] => match get n cur with Some _ => Some cur | None => None end
  | c :: ps' =>
      match get n cur with
      | Some (Dir _) =>
          locate n (if String.eqb c ".." then List.removelast cur else cur ++ [c]) ps'
      | _ => None
      end
  end.

(** ** The world and the monad of effects *)

(** What [subprocess.run(..., capture_output=True, text=True)] returns. *)
Record CompletedProcess := {
  returncode : Z;
  stdout : string;
  stderr : string
}.

(** The state the program acts on: the tree, the command lines it has
    spawned so far, and the two console streams. *)
Record World := {
  fs : node;
  spawned : list (list string);
  console_out : list string;
  console_err : list string
}.

Definition with_fs (w : World) (n : node) : World :=
  {| fs := n; spawned := spawned w;
     console_out := console_out w; console_err := console_err w |}.

(** A computation reads and changes the world and either returns or raises;
    what it did to the world before raising stays done. *)
Definition M (A : Type) : Type := World → result A * World.

Definition ret {A} (a : A) : M A := fun w => (Ok a, w).

Definition raise {A} (e : exn) : M A := fun w => (Raise e, w).

Definition bind {A B} (m : M A) (k : A → M B) : M B :=
  fun w =>
    match m w with
    | (Ok a, w') => k a w'
    | (Raise e, w') => (Raise e, w')
    end.

(** [try: m  except Exception as e: h e] *)
Definition try_except {A} (m : M A) (h : exn → M A) : M A :=
  fun w =>
    match m w with
    | (Ok a, w') => (Ok a, w')
    | (Raise e, w') => h e w'
    end.

Definition lift {A} (r : result A) : M A := fun w => (r, w).

Notation "x <- m ;; k" := (bind m (fun x => k))
  (at level 100, m at next level, right associativity).
Notation "m ;; k" := (bind m (fun _ => k))
  (at level 100, right associativity).

(** What the program does not decide itself: the external tool, which may do
    anything to the tree and answers with a completed process or fails to
    start; the search path, seen through [shutil.which]; the size [stat]
    reports for a directory, which depends on the platform; the working
    directory, from which a relative path is looked up; what
    [Path(text).expanduser().resolve()] makes of a text, which may be an
    exception (an unknown user, a loop of links); and the two console
    streams, each of which may refuse a line, given what it has taken so
    far, with an exception (a closed pipe, a line it cannot encode). *)
Record Env := {
  tool : list string → node → result CompletedProcess * node;
  which : string → option string;
  dir_st_size : nat;
  cwd : Path;
  resolve : string → result Path;
  stdout_error : list string → string → option exn;
  stderr_error : list string → string → option exn
}.

(** The text of an [OSError] about one path, and about a source and a
    target. *)
Definition ENOENT : string := "[Errno 2] No such file or directory".
Definition EACCES : string := "[Errno 13] Permission denied".
Definition ENOTDIR : string := "[Errno 20] Not a directory".
Definition EISDIR : string := "[Errno 21] Is a directory".
Definition ENOTEMPTY : string := "[Errno 39] Directory not empty".

Definition os_msg (errno : string) (p : Path) : string :=
  errno +:+ ": '" +:+ str p +:+ "'".

Definition os_msg2 (errno : string) (src dst : Path) : string :=
  errno +:+ ": '" +:+ str src +:+ "' -> '" +:+ str dst +:+ "'".

#[global] Instance byte_eq_decision : EqDecision byte := byte_eq_dec.

Section Program.
Context (E : Env).

(** *** The console *)

(** [print(line)] *)
Definition print (line : string) : M unit :=
  fun w =>
    match stdout_error E (console_out w) line with
    | Some e => (Raise e, w)
    | None =>
        (Ok tt, {| fs := fs w; spawned := spawned w;
                   console_out := console_out w ++ [line];
                   console_err := console_err w |})
    end.

(** [print(line, file=sys.stderr)] *)
Definition print_err (line : string) : M unit :=
  fun w =>
    match stderr_error E (console_err w) line with
    | Some e => (Raise e, w)
    | None =>
        (Ok tt, {| fs := fs w; spawned := spawned w;
                   console_out := console_out w;
                   console_err := console_err w ++ [line] |})
    end.

(** *** Library calls *)

(** [Path.exists()] *)
Definition exists_ (p : Path) : M bool :=
  fun w => (Ok (match get (fs w) p with Some _ => true | None => false end), w).

(** [Path.is_dir()] *)
Definition is_dir_ (p : Path) : M bool :=
  fun w => (Ok (match get (fs w) p with Some n => is_dir n | None => false end), w).

(** [Path.exists()] for a path that has not been resolved: a relative one
    is looked up from the working directory. *)
Definition exists_pure (p : PurePath) : M bool :=
  fun w =>
    (Ok (match locate (fs w) (if nonempty (anchor p) then [] else cwd E) (parts p) with
         | Some _ => true
         | None => false
         end), w).

(** [Path.unlink()] *)
Definition unlink (p : Path) : M unit :=
  fun w =>
    match get (fs w) p with
    | None => (Raise (FileNotFoundError (os_msg ENOENT p)), w)
    | Some (Dir _) => (Raise (IsADirectoryError (os_msg EISDIR p)), w)
    | Some (File _ locked _) =>
        if locked then (Raise (PermissionError (os_msg EACCES p)), w)
        else (Ok tt, with_fs w (remove p (fs w)))
    end.

Definition st_size (n : node) : nat :=
  match n with
  | File _ _ data => length data
  | Dir _ => dir_st_size E
  end.

(** [Path.stat().st_size] *)
Definition stat_size (p : Path) : M nat :=
  fun w =>
    match get (fs w) p with
    | None => (Raise (FileNotFoundError (os_msg ENOENT p)), w)
    | Some n => (Ok (st_size n), w)
    end.

Definition is_locked (n : node) : bool :=
  match n with File _ l _ => l | Dir _ => false end.

(** [Path.replace(target)], for a source and a target that are entries of
    one directory, which is how the program calls it.  It either raises and
    leaves the tree as it was, or removes the source entry and binds the
    target name to the source's node, in one step. *)
Definition replace (src dst : Path) : M unit :=
  fun w =>
    let moved s := (Ok tt, with_fs w (put dst s (remove src (fs w)))) in
    match get (fs w) src with
    | None => (Raise (FileNotFoundError (os_msg2 ENOENT src dst)), w)
    | Some s =>
        if is_locked s then (Raise (PermissionError (os_msg2 EACCES src dst)), w)
        else
          match get (fs w) dst with
          | None =>
              match get (fs w) (parent dst) with
              | Some (Dir _) => moved s
              | _ => (Raise (FileNotFoundError (os_msg2 ENOENT src dst)), w)
              end
          | Some (File _ l _) =>
              if is_dir s
              then (Raise (NotADirectoryError (os_msg2 ENOTDIR src dst)), w)
              else if l then (Raise (PermissionError (os_msg2 EACCES src dst)), w)
              else moved s
          | Some (Dir es) =>
              if negb (is_dir s)
              then (Raise (IsADirectoryError (os_msg2 EISDIR src dst)), w)
              else match es with
                   | [] => moved s
                   | _ :: _ => (Raise (OSError (os_msg2 ENOTEMPTY src dst)), w)
                   end
          end
    end.

(** [with path.open("rb") as f: head = f.read(k)] *)
Definition read_head (p : Path) (k : nat) : M (list byte) :=
  fun w =>
    match get (fs w) p with
    | None => (Raise (FileNotFoundError (os_msg ENOENT p)), w)
    | Some (Dir _) => (Raise (IsADirectoryError (os_msg EISDIR p)), w)
    | Some (File r _ data) =>
        if r then (Ok (take k data), w)
        else (Raise (PermissionError (os_msg EACCES p)), w)
    end.

(** [subprocess.run(cmd, capture_output=True, text=True)] *)
Definition subprocess_run (cmd : list string) : M CompletedProcess :=
  fun w =>
    let '(r, n') := tool E cmd (fs w) in
    (r, {| fs := n'; spawned := spawned w ++ [cmd];
           console_out := console_out w; console_err := console_err w |}).

(** *** find_qpdf *)

Definition qpdf_missing : string :=
  "qpdf wurde nicht gefunden. Installiere qpdf und stelle sicher, dass es im PATH ist,"
  +:+ String "010" "oder gib den Pfad an: --qpdf "
  +:+ String "034" "C:\\Program Files\\qpdf\\bin\\qpdf.exe" +:+ String "034" "".

(** Python truthiness of a [str | None]. *)
Definition truthy (o : option string) : bool :=
  match o with
  | Some s => nonempty s
  | None => false
  end.

Definition find_qpdf (explicit : option string) : M string :=
  if truthy explicit then
    let given := default "" explicit in
    let p := PurePath_of given in
    ex <- exists_pure p;;
    if ex then ret (str_pure p)
    else raise (FileNotFoundError ("qpdf nicht gefunden unter: " +:+ given))
  else
    let found := which E "qpdf" in
    if truthy found then ret (default "" found)
    else raise (FileNotFoundError qpdf_missing).

(** *** run_qpdf *)

Definition run_qpdf (qpdf : string) (src tmp_out : Path) (mode : string) : M unit :=
  cmd <- (if String.eqb mode "linearize"
          then ret [qpdf; "--linearize"; str src; str tmp_out]
          else if String.eqb mode "disable_object_streams"
          then ret [qpdf; "--object-streams=disable"; str src; str tmp_out]
          else raise (ValueError ("Unbekannter Modus: " +:+ mode)));;
  proc <- subprocess_run cmd;;
  if negb (returncode proc =? 0)%Z then
    let msg := strip (str_or (stderr proc) (str_or (stdout proc) "")) in
    raise (RuntimeError (str_or msg ("qpdf returncode=" +:+ pretty (returncode proc))))
  else ret tt.

(** *** is_pdf_file *)

Definition pdf_magic : list byte := [x25; x50; x44; x46; x2d].

Definition bytes_eqb (a b : list byte) : bool :=
  bool_decide (a = b).

Definition is_pdf_file (path : Path) : M bool :=
  if negb (String.eqb (lower (suffix path)) ".pdf") then ret false
  else
    try_except
      (head <- read_head path 5;;
       ret (bytes_eqb head pdf_magic))
      (fun _ => ret false).

(** *** fix_one_pdf *)

Definition fix_one_pdf (qpdf : string) (pdf_path : Path) (mode : string)
    (dry_run : bool) : M (bool * string) :=
  if dry_run then ret (false, "DRY-RUN")
  else
    let tmp_name := "." +:+ name pdf_path +:+ ".qpdf_tmp" in
    tmp_path <- lift (with_name pdf_path tmp_name);;
    try_except
      (ex <- exists_ tmp_path;;
       if ex then unlink tmp_path else ret tt)
      (fun _ => ret tt);;
    try_except
      (run_qpdf qpdf pdf_path tmp_path mode;;
       ex <- exists_ tmp_path;;
       bad <- (if negb ex then ret true
               else sz <- stat_size tmp_path;; ret (sz <? 10));;
       if bad then raise (RuntimeError "Temp-Ausgabe ist ungültig/leer.")
       else
         replace tmp_path pdf_path;;
         ret (true, "OK"))
      (fun e =>
         try_except
           (ex <- exists_ tmp_path;;
            if ex then unlink tmp_path else ret tt)
           (fun _ => ret tt);;
         ret (false, "FEHLER: " +:+ str_exn e)).

(** *** iter_pdfs *)

Definition skip_dirs : gset string :=
  {[ "$recycle.bin"; "system volume information"; ".git"; ".svn"; "__pycache__" ]}.

(** The list [dirnames] is rebound in place to
    [[d for d in dirnames if d.lower() not in skip_dirs]]. *)
Definition prune_dirnames (dirnames : list string) : list string :=
  List.filter (fun d => bool_decide (lower d ∉ skip_dirs)) dirnames.

Definition dir_names (es : list (string * node)) : list string :=
  map fst (List.filter (fun e => is_dir e.2) es).

Definition file_names (es : list (string * node)) : list string :=
  map fst (List.filter (fun e => negb (is_dir e.2)) es).

(** [os.walk(top)], top-down.  The generator yields the triple
    [(dirpath, dirnames, filenames)] and, when it is resumed, descends into
    whatever the consumer has left in the list object [dirnames]; [edit] is
    what the consumer does to that list between the yield and the
    resumption.  A name that no longer denotes a directory is passed over,
    as [os.walk] ignores the error of scanning it. *)
Fixpoint os_walk (edit : list string → list string) (top : Path) (n : node)
  : list (Path * list string * list string) :=
  match n with
  | File _ _ _ => []
  | Dir es =>
      (top, dir_names es, file_names es) ::
      flat_map
        (fun d =>
           (fix descend (l : list (string * node)) :=
              match l with
              | [] => []
              | (k, ch) :: l' =>
                  if String.eqb k d then
                    match ch with
                    | Dir _ => os_walk edit (top ++ [d]) ch
                    | File _ _ _ => []
                    end
                  else descend l'
              end) es)
        (edit (dir_names es))
  end.

Definition walk (edit : list string → list string) (top : Path)
  : M (list (Path * list string * list string)) :=
  fun w =>
    (Ok (match get (fs w) top with
         | Some n => os_walk edit top n
         | None => []
         end), w).

Fixpoint filterM {A} (f : A → M bool) (l : list A) : M (list A) :=
  match l with
  | [] => ret []
  | x :: l' =>
      b <- f x;;
      rest <- filterM f l';;
      ret (if b then x :: rest else rest)
  end.

(** The list of the paths the generator yields when nothing happens
    between two of its steps, [list(iter_pdfs(root))]: the walk is taken
    over one world.  The loop of [main] does not consume the generator in
    this way; it runs a repair at every yield, and [for_pdfs] below is the
    generator driven by that loop. *)
Definition iter_pdfs (root : Path) : M (list Path) :=
  triples <- walk prune_dirnames root;;
  filterM is_pdf_file
    (flat_map (fun t => map (fun fn => t.1.1 ++ [fn]) t.2) triples).

(** *** main *)

Record Args := {
  arg_root : string;
  arg_qpdf : option string;
  arg_mode : string;
  arg_dry_run : bool;
  arg_quiet : bool
}.

Record Counters := {
  total : nat;
  fixed : nat;
  failed : nat
}.

(** The counter updates of one pass through the loop body. *)
Definition tally (c : Counters) (status : string) : Counters :=
  let c := {| total := total c + 1; fixed := fixed c; failed := failed c |} in
  if String.prefix "OK" status then
    {| total := total c; fixed := fixed c + 1; failed := failed c |}
  else if String.prefix "DRY-RUN" status then c
  else {| total := total c; fixed := fixed c; failed := failed c + 1 |}.

(** The body of the loop of [main] for one candidate. *)
Definition loop_body (qpdf : string) (a : Args) (pdf : Path) (c : Counters)
  : M Counters :=
  r <- fix_one_pdf qpdf pdf (arg_mode a) (arg_dry_run a);;
  let status := r.2 in
  let c := tally c status in
  (if negb (arg_quiet a) then print (str pdf +:+ "  ->  " +:+ status)
   else ret tt);;
  ret c.

(** The loop of [main] over a given sequence of candidates. *)
Fixpoint main_loop (qpdf : string) (a : Args) (pdfs : list Path) (c : Counters)
  : M Counters :=
  match pdfs with
  | [] => ret c
  | pdf :: rest =>
      r <- fix_one_pdf qpdf pdf (arg_mode a) (arg_dry_run a);;
      let status := r.2 in
      let c := tally c status in
      (if negb (arg_quiet a) then print (str pdf +:+ "  ->  " +:+ status)
       else ret tt);;
      main_loop qpdf a rest c
  end.

(** [for pdf in iter_pdfs(root): body], the generator driven by its
    consumer.  The generator is lazy: a directory is scanned when the walk
    arrives at it, a file is tested by [is_pdf_file] when its turn comes,
    and the body runs at every yield, so that each scan and each test sees
    the tree as the bodies run so far have left it.

    The inner loop of the generator, over the file names of one listing. *)
Fixpoint for_files {A} (body : Path → A → M A) (dirpath : Path)
    (filenames : list string) (acc : A) : M A :=
  match filenames with
  | [] => ret acc
  | fn :: rest =>
      let p := dirpath ++ [fn] in
      b <- is_pdf_file p;;
      acc <- (if b then body p acc else ret acc);;
      for_files body dirpath rest acc
  end.

(** [os.walk], top-down, with the directories still to be visited on a
    stack.  The directory on top is scanned; a scan that fails (the path is
    gone, or is no directory any more) is passed over, as [os.walk] ignores
    the error.  The pruned list of directory names is fixed when the
    listing is yielded, so the directories below are put on the stack as
    the scan found them, and each is scanned only when its turn comes.

    Nothing bounds the number of directories a walk visits: the tool may
    add to a directory that is still on the stack.  [fuel] is the number of
    scans allowed, and the result is [None] when that is used up before the
    stack is empty. *)
Fixpoint for_pdfs {A} (fuel : nat) (body : Path → A → M A) (stack : list Path)
    (acc : A) : M (option A) :=
  match stack with
  | [] => ret (Some acc)
  | top :: stack' =>
      match fuel with
      | 0 => ret None
      | S fuel' =>
          fun w =>
            match get (fs w) top with
            | Some (Dir es) =>
                (acc <- for_files body top (file_names es) acc;;
                 for_pdfs fuel' body
                   (map (fun d => top ++ [d]) (prune_dirnames (dir_names es))
                    ++ stack')
                   acc) w
            | _ => for_pdfs fuel' body stack' acc w
            end
      end
  end.

(** The value returned is the status the process exits with ([sys.exit]),
    or [None] if the walk was cut short by [fuel]. *)
Definition main (fuel : nat) (a : Args) : M (option Z) :=
  root <- lift (resolve E (arg_root a));;
  ex <- exists_ root;;
  isd <- (if ex then is_dir_ root else ret false);;
  if negb isd then
    print_err ("Ungültiger Ordner: " +:+ str root);;
    ret (Some 2%Z)
  else
    found <- try_except
               (q <- find_qpdf (arg_qpdf a);; ret (Some q))
               (fun e => print_err (str_exn e);; ret None);;
    match found with
    | None => ret (Some 2%Z)
    | Some qpdf =>
        finished <- for_pdfs fuel (loop_body qpdf a) [root]
                    {| total := 0; fixed := 0; failed := 0 |};;
        match finished with
        | None => ret None
        | Some c =>
            print (String "010" "--- Ergebnis ---");;
            print ("Gefunden: " +:+ pretty (total c));;
            print ("Gefixt:   " +:+ pretty (fixed c)
                   +:+ (if arg_dry_run a then " (dry-run)" else ""));;
            print ("Fehler:   " +:+ pretty (failed c));;
            ret (Some (if Nat.eqb (failed c) 0 then 0%Z else 1%Z))
        end
    end.

(** The status of the process: the value passed to [sys.exit], and 1 when
    an exception that nothing catches ends it. *)
Definition exit_status (r : result (option Z)) : option Z :=
  match r with
  | Ok code => code
  | Raise _ => Some 1%Z
  end.

End Program.

(** ** Notions the statements are phrased with *)

(** The path [fix_one_pdf] stages the tool's output at. *)
Definition tmp_path_of (pdf_path : Path) : Path :=
  parent pdf_path ++ ["." +:+ name pdf_path +:+ ".qpdf_tmp"].

(** The world after a best-effort removal of [p]: an unlocked regular file
    goes away, anything else stays. *)
Definition discard (p : Path) (w : World) : World :=
  match get (fs w) p with
  | Some (File _ false _) => with_fs w (remove p (fs w))
  | _ => w
  end.

(** A node that [unlink] would refuse to remove. *)
Definition undeletable (n : node) : bool := is_dir n || is_locked n.

(** The pairs [fix_one_pdf] returns for the candidates of one run of the
    loop, in order; the world is threaded as the loop threads it. *)
Fixpoint outcomes (E : Env) (qpdf : string) (a : Args) (pdfs : list Path)
    (w : World) : list (bool * string) :=
  match pdfs with
  | [] => []
  | pdf :: rest =>
      match fix_one_pdf E qpdf pdf (arg_mode a) (arg_dry_run a) w with
      | (Ok r, w1) =>
          let w2 := ((if negb (arg_quiet a)
                      then print E (str pdf +:+ "  ->  " +:+ r.2)
                      else ret tt) w1).2 in
          r :: outcomes E qpdf a rest w2
      | (Raise _, _) => []
      end
  end.

Definition is_ok (o : bool * string) : bool := String.eqb o.2 "OK".
Definition is_dry (o : bool * string) : bool := String.eqb o.2 "DRY-RUN".
Definition is_failure (o : bool * string) : bool := String.prefix "FEHLER: " o.2.

Definition count (f : bool * string → bool) (os : list (bool * string)) : nat :=
  length (List.filter f os).

(** What [is_pdf_file] finds out about a path: the suffix and the head of a
    readable regular file. *)
Definition looks_like_pdf (path : Path) (w : World) : bool :=
  String.eqb (lower (suffix path)) ".pdf"
  && match get (fs w) path with
     | Some (File true _ data) => bytes_eqb (take 5 data) pdf_magic
     | _ => false
     end.

(** The triples [os.walk] hands to [iter_pdfs] from [w]. *)
Definition walked (root : Path) (w : World)
  : list (Path * list string * list string) :=
  match get (fs w) root with
  | Some n => os_walk prune_dirnames root n
  | None => []
  end.

(** The paths of the files listed in a run of triples, in order. *)
Definition listed (triples : list (Path * list string * list string))
  : list Path :=
  flat_map (λ t, map (λ fn, t.1.1 ++ [fn]) t.2) triples.

(** The list the generator yields when it is run to its end from [w]. *)
Definition candidates (root : Path) (w : World) : list Path :=
  match (iter_pdfs root w).1 with
  | Ok pdfs => pdfs
  | Raise _ => []
  end.

(** A directory name the walk descends into. *)
Definition allowed (d : string) : Prop := lower d ∉ skip_dirs.

(** [p] lies below [root] through a directory whose lower-cased name is in
    [skip_dirs]. *)
Definition under_skipped (root p : Path) : Prop :=
  ∃ (pre : Path) (d : string) (post : Path),
    p = root ++ pre ++ d :: post ∧ post ≠ [] ∧ lower d ∈ skip_dirs.

(** [dirpath] is, or lies below [root] inside, such a directory. *)
Definition in_skipped (root dirpath : Path) : Prop :=
  ∃ (pre : Path) (d : string) (post : Path),
    dirpath = root ++ pre ++ d :: post ∧ lower d ∈ skip_dirs.

(** ** Sample worlds

    Concrete trees, tools and environments on which the statements below
    are evaluated. *)

Definition pdf_bytes : list byte :=
  Eval cbv in list_byte_of_string "%PDF-1.4 sample".

Definition linearized_bytes : list byte :=
  Eval cbv in list_byte_of_string "%PDF-1.4 linearized sample".

(** A tool that honours its contract: it writes a fresh file to the output
    path named last on the command line and exits 0. *)
Definition writing_tool (cmd : list string) (n : node)
  : result CompletedProcess * node :=
  match cmd with
  | [_; _; _; out] =>
      (Ok {| returncode := 0; stdout := ""; stderr := "" |},
       put (Path_of out) (File true false linearized_bytes) n)
  | _ => (Ok {| returncode := 2; stdout := ""; stderr := "usage" |}, n)
  end.

(** A tool that rejects its input. *)
Definition rejecting_tool (cmd : list string) (n : node)
  : result CompletedProcess * node :=
  (Ok {| returncode := 1; stdout := ""; stderr := "Malformed PDF" |}, n).

(** A tool that claims success and leaves a three-byte output. *)
Definition stub_tool (cmd : list string) (n : node)
  : result CompletedProcess * node :=
  match cmd with
  | [_; _; _; out] =>
      (Ok {| returncode := 0; stdout := ""; stderr := "" |},
       put (Path_of out) (File true false [x25; x50; x44]) n)
  | _ => (Ok {| returncode := 2; stdout := ""; stderr := "usage" |}, n)
  end.

(** An environment around a tool: [qpdf] is on the search path, the working
    directory is the root of the tree, a root argument is read as an
    absolute path, and both console streams take every line. *)
Definition env_of (t : list string → node → result CompletedProcess * node) : Env :=
  {| tool := t; which := fun _ => Some "/usr/bin/qpdf"; dir_st_size := 4096;
     cwd := []; resolve := fun s => Ok (Path_of s);
     stdout_error := fun _ _ => None; stderr_error := fun _ _ => None |}.

Definition no_qpdf_env : Env :=
  {| tool := writing_tool; which := fun _ => None; dir_st_size := 4096;
     cwd := []; resolve := fun s => Ok (Path_of s);
     stdout_error := fun _ _ => None; stderr_error := fun _ _ => None |}.

(** The environment of a run started in [/docs]. *)
Definition docs_env : Env :=
  {| tool := writing_tool; which := fun _ => None; dir_st_size := 4096;
     cwd := ["docs"]; resolve := fun s => Ok (Path_of s);
     stdout_error := fun _ _ => None; stderr_error := fun _ _ => None |}.

(** The same environment with the standard output closed: every [print]
    raises [BrokenPipeError], an [OSError]. *)
Definition closed_stdout_env : Env :=
  {| tool := writing_tool; which := fun _ => Some "/usr/bin/qpdf";
     dir_st_size := 4096; cwd := []; resolve := fun s => Ok (Path_of s);
     stdout_error := fun _ _ => Some (OSError "[Errno 32] Broken pipe");
     stderr_error := fun _ _ => None |}.

(** [/docs] holds a readable PDF, a text file renamed to [.pdf], a PDF that
    another process holds open, and two subdirectories, one of them [.git]. *)
Definition sample_tree : node :=
  Dir [("docs",
        Dir [("a.pdf", File true false pdf_bytes);
             ("b.pdf", File true false [x68; x65; x6c; x6c; x6f]);
             ("c.pdf", File true true pdf_bytes);
             (".git", Dir [("x.pdf", File true false pdf_bytes)]);
             ("sub", Dir [("D.PDF", File true false pdf_bytes);
                          ("e.pdf", File false false pdf_bytes)])])].

Definition world_of (n : node) : World :=
  {| fs := n; spawned := []; console_out := []; console_err := [] |}.

Definition sample_world : World := world_of sample_tree.

(** Five valid PDFs in one directory. *)
Definition five_tree : node :=
  Dir [("scan",
        Dir [("1.pdf", File true false pdf_bytes);
             ("2.pdf", File true false pdf_bytes);
             ("3.pdf", File true false pdf_bytes);
             ("4.pdf", File true false pdf_bytes);
             ("5.pdf", File true false pdf_bytes)])].

Definition sample_args (dry : bool) : Args :=
  {| arg_root := "/docs"; arg_qpdf := None; arg_mode := "linearize";
     arg_dry_run := dry; arg_quiet := false |}.

Definition five_args : Args :=
  {| arg_root := "/scan"; arg_qpdf := None; arg_mode := "linearize";
     arg_dry_run := true; arg_quiet := false |}.

(** ** Further notions *)

(** The option [run_qpdf] passes to the tool for a mode it knows. *)
Definition qpdf_flag (mode : string) : option string :=
  if String.eqb mode "linearize" then Some "--linearize"
  else if String.eqb mode "disable_object_streams"
  then Some "--object-streams=disable"
  else None.

(** The command lines a call of [run_qpdf] starts: one for a known mode,
    none otherwise. *)
Definition qpdf_commands (qpdf : string) (src tmp_out : Path) (mode : string)
  : list (list string) :=
  match qpdf_flag mode with
  | Some flag => [[qpdf; flag; str src; str tmp_out]]
  | None => []
  end.

(** The world with other text on its console. *)
Definition set_console (w : World) (out err : list string) : World :=
  {| fs := fs w; spawned := spawned w; console_out := out; console_err := err |}.

(** A computation that neither reads nor writes the console. *)
Definition console_blind {A} (m : M A) : Prop :=
  ∀ w out err,
    m (set_console w out err) = ((m w).1, set_console (m w).2 out err).

(** Two worlds that differ at most in what is on the console. *)
Definition same_system (w1 w2 : World) : Prop :=
  fs w1 = fs w2 ∧ spawned w1 = spawned w2.

(** Neither path is the other or lies below it. *)
Definition apart (p q : Path) : Prop :=
  ¬ p `prefix_of` q ∧ ¬ q `prefix_of` p.

(** No directory of the tree lists a name twice. *)
#[warnings="-register-all"] Inductive well_formed : node → Prop :=
| wf_file r l data : well_formed (File r l data)
| wf_dir es :
    List.NoDup (map fst es) →
    Forall (λ e, well_formed e.2) es →
    well_formed (Dir es).

(** The line the loop logs for one candidate. *)
Definition log_line (pdf : Path) (status : string) : string :=
  str pdf +:+ "  ->  " +:+ status.

(** The four lines of the summary. *)
Definition summary_lines (dry_run : bool) (c : Counters) : list string :=
  [String "010" "--- Ergebnis ---";
   "Gefunden: " +:+ pretty (total c);
   "Gefixt:   " +:+ pretty (fixed c) +:+ (if dry_run then " (dry-run)" else "");
   "Fehler:   " +:+ pretty (failed c)].

Definition with_quiet (a : Args) (q : bool) : Args :=
  {| arg_root := arg_root a; arg_qpdf := arg_qpdf a; arg_mode := arg_mode a;
     arg_dry_run := arg_dry_run a; arg_quiet := q |}.

(** A tool that fails with a blank line on its standard error and its
    reason on its standard output. *)
Definition stdout_tool (cmd : list string) (n : node)
  : result CompletedProcess * node :=
  (Ok {| returncode := 2; stdout := "cannot open input";
         stderr := String "010" "" |}, n).

(** A tool that fails with white space of three kinds on its standard
    error: a no-break space, a line separator and a line feed. *)
Definition nbsp_tool (cmd : list string) (n : node)
  : result CompletedProcess * node :=
  (Ok {| returncode := 2; stdout := "cannot open input";
         stderr := utf8 160 +:+ utf8 8232 +:+ utf8 10 |}, n).

(** A tool path that cannot be executed: [subprocess.run] itself raises. *)
Definition absent_tool (cmd : list string) (n : node)
  : result CompletedProcess * node :=
  (Raise (FileNotFoundError "[Errno 2] No such file or directory: 'qpdf'"), n).

(** A tool that exits 0 without writing anything. *)
Definition idle_tool (cmd : list string) (n : node)
  : result CompletedProcess * node :=
  (Ok {| returncode := 0; stdout := ""; stderr := "" |}, n).

(** [/docs] holds a PDF and the temp file a killed run left behind. *)
Definition stale_tree : node :=
  Dir [("docs",
        Dir [("a.pdf", File true false pdf_bytes);
             (".a.pdf.qpdf_tmp", File true false linearized_bytes)])].

(** The eight spellings of a suffix that is [.pdf] when case is ignored. *)
Definition pdf_suffixes : list string :=
  [".pdf"; ".pdF"; ".pDf"; ".pDF"; ".Pdf"; ".PdF"; ".PDf"; ".PDF"].

(** A string made of white-space code points only. *)
Inductive Blank : string → Prop :=
| Blank_nil : Blank ""
| Blank_cons ws s : In ws whitespace → Blank s → Blank (ws +:+ s).

Definition starts_with_space (s : string) : Prop :=
  ∃ ws rest, In ws whitespace ∧ s = ws +:+ rest.

Definition ends_with_space (s : string) : Prop :=
  ∃ front ws, In ws whitespace ∧ s = front +:+ ws.

(** [text] is [s] without the white space at its two ends. *)
Definition stripped (s text : string) : Prop :=
  (∃ lead trail, s = lead +:+ text +:+ trail ∧ Blank lead ∧ Blank trail)
  ∧ ¬ starts_with_space text
  ∧ ¬ ends_with_space text.

(** The standard output takes every line; both streams do. *)
Definition stdout_reliable (E : Env) : Prop :=
  ∀ out line, stdout_error E out line = None.

Definition console_reliable (E : Env) : Prop :=
  stdout_reliable E ∧ ∀ err line, stderr_error E err line = None.

(** The directory a path given as text is looked up from. *)
Definition start_dir (E : Env) (s : string) : Path :=
  match s with
  | String "/" _ => []
  | _ => cwd E
  end.

(** The tool the run uses: the explicit path, if one is given and leads
    somewhere, else what the search path holds. *)
Definition tool_found (E : Env) (a : Args) (w : World) (qpdf : string) : Prop :=
  (∃ s, arg_qpdf a = Some s ∧ s ≠ ""
        ∧ locate (fs w) (start_dir E s) (Path_of s) ≠ None
        ∧ qpdf = str_pure (PurePath_of s))
  ∨ ((arg_qpdf a = None ∨ arg_qpdf a = Some "")
     ∧ which E "qpdf" = Some qpdf ∧ qpdf ≠ "").

Definition tool_missing (E : Env) (a : Args) (w : World) : Prop :=
  (∃ s, arg_qpdf a = Some s ∧ s ≠ ""
        ∧ locate (fs w) (start_dir E s) (Path_of s) = None)
  ∨ ((arg_qpdf a = None ∨ arg_qpdf a = Some "")
     ∧ (which E "qpdf" = None ∨ which E "qpdf" = Some "")).

(** A loop over a given sequence of paths. *)
Fixpoint for_each {A} (body : Path → A → M A) (pdfs : list Path) (acc : A)
  : M A :=
  match pdfs with
  | [] => ret acc
  | pdf :: rest => acc <- body pdf acc;; for_each body rest acc
  end.

(** The loop body of [main] with the counters left out and a record kept
    instead: the candidate and the pair its repair returned are added to
    the list. *)
Definition log_body (E : Env) (qpdf : string) (a : Args) (pdf : Path)
    (l : list (Path * (bool * string))) : M (list (Path * (bool * string))) :=
  r <- fix_one_pdf E qpdf pdf (arg_mode a) (arg_dry_run a);;
  (if negb (arg_quiet a) then print E (log_line pdf r.2) else ret tt);;
  ret (l ++ [(pdf, r)]).

(** The candidates the walk of a run yields, each with the outcome of its
    repair, in order; empty if the run does not come to the end of the
    walk. *)
Definition run_log (fuel : nat) (E : Env) (qpdf : string) (a : Args)
    (root : Path) (w : World) : list (Path * (bool * string)) :=
  match for_pdfs fuel (log_body E qpdf a) [root] [] w with
  | (Ok (Some l), _) => l
  | _ => []
  end.

(** The counters after the outcomes of [l]. *)
Definition counters_of (l : list (Path * (bool * string))) : Counters :=
  {| total := length l;
     fixed := count is_ok (map snd l);
     failed := count is_failure (map snd l) |}.

(** The run ends within the given number of scans. *)
Definition finishes {A} (r : result (option A) * World) : Prop :=
  r.1 ≠ Ok None.

(** Both are directories with the same directory names in the same order,
    or neither is a directory, at every path. *)
Definition dirs_at (n : node) (q : Path) : option (list string) :=
  match get n q with
  | Some (Dir es) => Some (dir_names es)
  | _ => None
  end.

Definition same_dirs (n n' : node) : Prop := ∀ q, dirs_at n q = dirs_at n' q.

(** Two outcomes of computations that are compared step by step: the worlds
    are related by [S], and either both returned, with values related by
    [RX], or both raised the same exception. *)
Definition related {X Y} (S : World → World → Prop) (RX : X → Y → Prop)
    (r1 : result X * World) (r2 : result Y * World) : Prop :=
  S r1.2 r2.2
  ∧ match r1.1, r2.1 with
    | Ok x, Ok y => RX x y
    | Raise e1, Raise e2 => e1 = e2
    | _, _ => False
    end.

(** The counters as the loop body updates them, over a record of a run. *)
Definition tally_all (l : list (Path * (bool * string))) : Counters :=
  fold_left (λ c e, tally c e.2.2) l {| total := 0; fixed := 0; failed := 0 |}.

(** The three shapes of the pair [fix_one_pdf] returns. *)
Definition outcome_shape (o : bool * string) : Prop :=
  o = (true, "OK") ∨ o = (false, "DRY-RUN")
  ∨ ∃ m, o = (false, "FEHLER: " +:+ m).

(** What the visit of a directory and of all that lies below it comes to
    when the body leaves the tree alone: for some number of scans, the walk
    from a stack with the directory on top is the loop over the candidates
    [iter_pdfs] lists below it, followed by the walk from the rest of the
    stack. *)
Definition visited {A} (body : Path → A → M A) (n : node) : Prop :=
  ∀ top, ∃ k, ∀ fuel stack a w,
    get (fs w) top = Some n →
    for_pdfs (k + fuel) body (top :: stack) a w
    = match for_each body
              (List.filter (λ p, looks_like_pdf p w)
                 (listed (os_walk prune_dirnames top n))) a w with
      | (Ok a', w') => for_pdfs fuel body stack a' w'
      | (Raise e, w') => (Raise e, w')
      end.

(** What holds of the record [l] of a run started in [w0] and of the world
    [w] it has reached: every entry has one of the three shapes; the
    commands spawned are those of the repairs recorded, in order, and none
    in a dry run; the lines logged are those of the entries, and none with
    [--quiet]; nothing was written to the standard error; and in a dry run
    the tree is as it was and every entry is a [DRY-RUN]. *)
Definition run_inv (E : Env) (qpdf : string) (a : Args) (w0 : World)
    (l : list (Path * (bool * string))) (w : World) : Prop :=
  Forall (λ e, outcome_shape e.2) l
  ∧ spawned w
    = spawned w0
      ++ (if arg_dry_run a then []
          else flat_map
                 (λ e, qpdf_commands qpdf e.1 (tmp_path_of e.1) (arg_mode a)) l)
  ∧ console_out w
    = console_out w0
      ++ (if arg_quiet a then [] else map (λ e, log_line e.1 e.2.2) l)
  ∧ console_err w = console_err w0
  ∧ (arg_dry_run a = true →
     fs w = fs w0 ∧ Forall (λ e, e.2 = (false, "DRY-RUN")) l).


(** What the spec assumes of the tool, as far as the walk depends on it:
    it keeps the tree free of double names and leaves the directories as
    they are (it neither makes nor removes a directory) ... *)
Definition keeps_dirs (E : Env) : Prop :=
  ∀ cmd n, well_formed n →
    well_formed (tool E cmd n).2 ∧ same_dirs (tool E cmd n).2 n.

(** ... and it does not remove the file it is given as input. *)
Definition keeps_input (E : Env) (qpdf mode : string) : Prop :=
  ∀ pdf cmd n r l data,
    well_formed n → get n pdf = Some (File r l data) →
    In cmd (qpdf_commands qpdf pdf (tmp_path_of pdf) mode) →
    get (tool E cmd n).2 pdf ≠ None.

(** A world whose tree lists no name twice and has the directories of
    [n0]. *)
Definition tidy (n0 : node) (w : World) : Prop :=
  well_formed (fs w) ∧ same_dirs (fs w) n0.

(** A tool that writes a fresh file to the output path named last on the
    command line, unless a directory is in the way, and exits 0. *)
Definition careful_tool (cmd : list string) (n : node)
  : result CompletedProcess * node :=
  match cmd with
  | [_; _; _; out] =>
      match get n (Path_of out) with
      | Some (Dir _) =>
          (Ok {| returncode := 2; stdout := "";
                 stderr := "open " +:+ out +:+ ": Is a directory" |}, n)
      | _ =>
          (Ok {| returncode := 0; stdout := ""; stderr := "" |},
           put (Path_of out) (File true false linearized_bytes) n)
      end
  | _ => (Ok {| returncode := 2; stdout := ""; stderr := "usage" |}, n)
  end.

(** The visit of [top] and of all that lies below it takes [k] scans: it
    raises, or it leaves the rest of the stack to be walked from a world
    that is still tidy. *)
Definition visit_ends {A} (body : Path → A → M A) (n0 : node) (k : nat)
    (top : Path) : Prop :=
  ∀ fuel stack a w, tidy n0 w →
    (∃ e w', for_pdfs (k + fuel) body (top :: stack) a w = (Raise e, w'))
    ∨ ∃ a' w', tidy n0 w'
               ∧ for_pdfs (k + fuel) body (top :: stack) a w
                 = for_pdfs fuel body stack a' w'.
(** ** The tree: lookups after updates *)

Lemma assoc_drop_child_eq c es : assoc c (drop_child c es) = None.
Proof.
  induction es as [|[k n] es IH]; simpl; [done|].
  destruct (String.eqb k c) eqn:Hk; simpl; [done|].
  by rewrite Hk.
Qed.

Lemma assoc_drop_child_ne c c' es :
  c ≠ c' → assoc c' (drop_child c es) = assoc c' es.
Proof.
  intros Hne. induction es as [|[k n] es IH]; simpl; [done|].
  destruct (String.eqb k c) eqn:Hk; simpl.
  - apply String.eqb_eq in Hk as ->.
    rewrite IH. by apply String.eqb_neq in Hne as ->.
  - by rewrite IH.
Qed.

Lemma assoc_set_child_eq c v es : assoc c (set_child c v es) = Some v.
Proof.
  induction es as [|[k n] es IH]; simpl.
  - by rewrite String.eqb_refl.
  - destruct (String.eqb k c) eqn:Hk; simpl; by rewrite Hk.
Qed.

Lemma assoc_set_child_ne c c' v es :
  c ≠ c' → assoc c' (set_child c v es) = assoc c' es.
Proof.
  intros Hne. induction es as [|[k n] es IH]; simpl.
  - by apply String.eqb_neq in Hne as ->.
  - destruct (String.eqb k c) eqn:Hk; simpl.
    + apply String.eqb_eq in Hk as ->.
      by apply String.eqb_neq in Hne as ->.
    + by rewrite IH.
Qed.

Lemma assoc_on_child_eq c f es :
  assoc c (on_child c f es) = f <$> assoc c es.
Proof.
  induction es as [|[k n] es IH]; simpl; [done|].
  destruct (String.eqb k c) eqn:Hk; simpl; by rewrite Hk.
Qed.

Lemma assoc_on_child_ne c c' f es :
  c ≠ c' → assoc c' (on_child c f es) = assoc c' es.
Proof.
  intros Hne. induction es as [|[k n] es IH]; simpl; [done|].
  destruct (String.eqb k c) eqn:Hk; simpl.
  - apply String.eqb_eq in Hk as ->.
    by apply String.eqb_neq in Hne as ->.
  - by rewrite IH.
Qed.

(** Looking below [dir] after a removal or a binding inside [dir] is looking
    into the directory at [dir] after the same change made there. *)
Lemma get_remove_under dir a q n :
  get (remove (dir ++ [a]) n) (dir ++ q)
  = match get n dir with
    | Some d => get (remove [a] d) q
    | None => None
    end.
Proof.
  revert n. induction dir as [|c dir IH]; intros n; [done|].
  destruct n as [r l data|es]; [done|].
  change ((c :: dir) ++ [a]) with (c :: (dir ++ [a])).
  change ((c :: dir) ++ q) with (c :: (dir ++ q)).
  assert (remove (c :: (dir ++ [a])) (Dir es)
          = Dir (on_child c (remove (dir ++ [a])) es)) as ->.
  { simpl. by destruct dir. }
  simpl. rewrite assoc_on_child_eq.
  destruct (assoc c es) as [ch|]; simpl; [apply IH|done].
Qed.

Lemma get_put_under dir a v q n :
  get (put (dir ++ [a]) v n) (dir ++ q)
  = match get n dir with
    | Some d => get (put [a] v d) q
    | None => None
    end.
Proof.
  revert n. induction dir as [|c dir IH]; intros n; [done|].
  destruct n as [r l data|es]; [done|].
  change ((c :: dir) ++ [a]) with (c :: (dir ++ [a])).
  change ((c :: dir) ++ q) with (c :: (dir ++ q)).
  assert (put (c :: (dir ++ [a])) v (Dir es)
          = Dir (on_child c (put (dir ++ [a]) v) es)) as ->.
  { simpl. by destruct dir. }
  simpl. rewrite assoc_on_child_eq.
  destruct (assoc c es) as [ch|]; simpl; [apply IH|done].
Qed.

Lemma get_app n p q :
  get n (p ++ q) = match get n p with Some d => get d q | None => None end.
Proof.
  revert n. induction p as [|c p IH]; intros n; [done|].
  destruct n as [r l data|es]; [done|]. simpl.
  destruct (assoc c es); [apply IH|done].
Qed.

(** An entry that exists sits in a directory. *)
Lemma get_entry_parent n dir a x :
  get n (dir ++ [a]) = Some x → ∃ es, get n dir = Some (Dir es) ∧ assoc a es = Some x.
Proof.
  rewrite get_app. destruct (get n dir) as [[r l data|es]|]; [done| |done].
  simpl. destruct (assoc a es) eqn:Ha; [|done]. intros [= ->]. eauto.
Qed.

Lemma get_remove_same dir a n : get (remove (dir ++ [a]) n) (dir ++ [a]) = None.
Proof.
  rewrite get_remove_under. destruct (get n dir) as [[r l data|es]|]; [done| |done].
  simpl. by rewrite assoc_drop_child_eq.
Qed.

Lemma get_remove_sibling dir a b n :
  a ≠ b → get (remove (dir ++ [a]) n) (dir ++ [b]) = get n (dir ++ [b]).
Proof.
  intros Hne. rewrite get_remove_under, get_app.
  destruct (get n dir) as [[r l data|es]|]; [done| |done].
  simpl. by rewrite assoc_drop_child_ne.
Qed.

Lemma get_put_sibling dir a b v n :
  a ≠ b → get (put (dir ++ [a]) v n) (dir ++ [b]) = get n (dir ++ [b]).
Proof.
  intros Hne. rewrite get_put_under, get_app.
  destruct (get n dir) as [[r l data|es]|]; [done| |done].
  simpl. by rewrite assoc_set_child_ne.
Qed.

Lemma get_put_same dir a v n es :
  get n dir = Some (Dir es) → get (put (dir ++ [a]) v n) (dir ++ [a]) = Some v.
Proof.
  intros Hd. rewrite get_put_under, Hd. simpl.
  by rewrite assoc_set_child_eq.
Qed.

(** What [replace] leaves behind when it moves [dir/a] over [dir/b]. *)
Lemma get_moved_target dir a b s n x :
  get n (dir ++ [a]) = Some x →
  get (put (dir ++ [b]) s (remove (dir ++ [a]) n)) (dir ++ [b]) = Some s.
Proof.
  intros Hx. apply get_entry_parent in Hx as (es & Hd & _).
  apply get_put_same with (es := drop_child a es).
  pose proof (get_remove_under dir a [] n) as H.
  rewrite app_nil_r, Hd in H. exact H.
Qed.

Lemma get_moved_source dir a b s n :
  a ≠ b →
  get (put (dir ++ [b]) s (remove (dir ++ [a]) n)) (dir ++ [a]) = None.
Proof.
  intros Hne. rewrite get_put_sibling by done. apply get_remove_same.
Qed.

(** ** Names and paths *)

Lemma string_length_app s t :
  String.length (s +:+ t) = String.length s + String.length t.
Proof. induction s as [|c s IH]; simpl; [done|]. by rewrite IH. Qed.

Lemma tmp_name_ne nm : "." +:+ nm +:+ ".qpdf_tmp" ≠ nm.
Proof.
  intros H. apply (f_equal String.length) in H.
  rewrite !string_length_app in H. simpl in H. lia.
Qed.

Lemma path_split (p : Path) :
  nonempty (name p) = true → p = parent p ++ [name p].
Proof.
  intros H. destruct p as [|c p]; [done|].
  unfold parent, name. by apply app_removelast_last.
Qed.

Lemma suffix_nonempty_name (p : Path) :
  suffix p ≠ "" → nonempty (name p) = true.
Proof.
  unfold suffix. destruct (name p); [done|]. done.
Qed.

(** ** The best-effort removal of the temp file *)

Lemma discard_block tmp w :
  try_except (ex <- exists_ tmp;; if ex then unlink tmp else ret tt)
             (fun _ => ret tt) w
  = (Ok tt, discard tmp w).
Proof.
  unfold try_except, bind, exists_, unlink, discard, ret.
  destruct (get (fs w) tmp) as [[r [] data|es]|] eqn:Hg;
    simpl; rewrite ?Hg; reflexivity.
Qed.

Lemma discard_gone dir a w :
  get (fs (discard (dir ++ [a]) w)) (dir ++ [a]) = None
  ∨ ∃ n, get (fs (discard (dir ++ [a]) w)) (dir ++ [a]) = Some n
         ∧ undeletable n = true.
Proof.
  unfold discard.
  destruct (get (fs w) (dir ++ [a])) as [[r [] data|es]|] eqn:Hg; simpl.
  - right. eexists. split; [exact Hg|]. done.
  - left. apply get_remove_same.
  - right. eexists. split; [exact Hg|]. done.
  - by left.
Qed.

Lemma discard_sibling dir a b w :
  a ≠ b → get (fs (discard (dir ++ [a]) w)) (dir ++ [b]) = get (fs w) (dir ++ [b]).
Proof.
  intros Hne. unfold discard.
  destruct (get (fs w) (dir ++ [a])) as [[r [] data|es]|]; simpl; try done.
  by apply get_remove_sibling.
Qed.

(** ** replace *)

Lemma replace_raises src dst w e w' :
  replace src dst w = (Raise e, w') → w' = w.
Proof.
  unfold replace. intros H.
  repeat (case_match; simplify_eq); done.
Qed.

Lemma replace_moves src dst w w' :
  replace src dst w = (Ok tt, w') →
  ∃ s, get (fs w) src = Some s
       ∧ w' = with_fs w (put dst s (remove src (fs w))).
Proof.
  unfold replace. intros H.
  destruct (get (fs w) src) as [s|]; [|done].
  exists s. split; [done|].
  repeat (case_match; simplify_eq); done.
Qed.

(** ** fix_one_pdf, stage by stage *)

(** With the dry-run flag off and a source path that has a name, the call
    is decided in three stages: the tool run in the world cleared of a stale
    temp file, the check of the temp output, and the replace. *)
Lemma fix_one_pdf_stages E qpdf pdf mode w :
  nonempty (name pdf) = true →
  fix_one_pdf E qpdf pdf mode false w =
  let tmp := tmp_path_of pdf in
  match run_qpdf E qpdf pdf tmp mode (discard tmp w) with
  | (Raise e, w2) => (Ok (false, "FEHLER: " +:+ str_exn e), discard tmp w2)
  | (Ok _, w2) =>
      match get (fs w2) tmp with
      | None => (Ok (false, "FEHLER: Temp-Ausgabe ist ungültig/leer."), discard tmp w2)
      | Some n =>
          if st_size E n <? 10
          then (Ok (false, "FEHLER: Temp-Ausgabe ist ungültig/leer."), discard tmp w2)
          else match replace tmp pdf w2 with
               | (Ok _, w3) => (Ok (true, "OK"), w3)
               | (Raise e, w3) => (Ok (false, "FEHLER: " +:+ str_exn e), discard tmp w3)
               end
      end
  end.
Proof.
  intros Hn. unfold fix_one_pdf, with_name. rewrite Hn.
  fold (tmp_path_of pdf). generalize (tmp_path_of pdf) as tmp. intros tmp.
  unfold bind at 1. unfold lift.
  unfold bind at 1. rewrite discard_block.
  unfold try_except at 1. unfold bind at 1.
  destruct (run_qpdf E qpdf pdf tmp mode (discard tmp w)) as [[[]|e] w2].
  2:{ unfold bind at 1. rewrite discard_block. reflexivity. }
  unfold bind at 1. unfold exists_ at 1.
  destruct (get (fs w2) tmp) as [n|] eqn:Hg; cbn [negb].
  - unfold bind at 1. unfold bind at 1. unfold stat_size. rewrite Hg.
    unfold ret at 1.
    destruct (st_size E n <? 10).
    + unfold raise. unfold bind at 1. rewrite discard_block. reflexivity.
    + unfold bind at 1.
      destruct (replace tmp pdf w2) as [[[]|e] w3].
      * reflexivity.
      * unfold bind at 1. rewrite discard_block. reflexivity.
  - unfold bind at 1. unfold ret at 1. unfold raise.
    unfold bind at 1. rewrite discard_block. reflexivity.
Qed.

(** ** run_qpdf *)

Lemma siblings (pdf : Path) :
  nonempty (name pdf) = true →
  ∃ dir nm tn, pdf = dir ++ [nm] ∧ tmp_path_of pdf = dir ++ [tn] ∧ tn ≠ nm.
Proof.
  intros Hn. exists (parent pdf), (name pdf), ("." +:+ name pdf +:+ ".qpdf_tmp").
  split; [by apply path_split|]. split; [done|]. apply tmp_name_ne.
Qed.

Lemma run_qpdf_inv E qpdf src tmp_out mode w r w2 :
  run_qpdf E qpdf src tmp_out mode w = (r, w2) →
  (mode ≠ "linearize" ∧ mode ≠ "disable_object_streams"
   ∧ r = Raise (ValueError ("Unbekannter Modus: " +:+ mode)) ∧ w2 = w)
  ∨ ∃ flag,
      ((mode = "linearize" ∧ flag = "--linearize")
       ∨ (mode = "disable_object_streams" ∧ flag = "--object-streams=disable"))
      ∧ match subprocess_run E [qpdf; flag; str src; str tmp_out] w with
        | (Raise e, w') => r = Raise e ∧ w2 = w'
        | (Ok proc, w') =>
            w2 = w'
            ∧ r = if (returncode proc =? 0)%Z then Ok tt
                  else Raise (RuntimeError
                         (str_or (strip (str_or (stderr proc) (str_or (stdout proc) "")))
                                 ("qpdf returncode=" +:+ pretty (returncode proc))))
        end.
Proof.
  unfold run_qpdf. intros H.
  destruct (String.eqb mode "linearize") eqn:H1.
  - right. exists "--linearize". split; [left; split; [by apply String.eqb_eq|done]|].
    unfold bind at 1 in H. unfold ret at 1 in H. unfold bind at 1 in H.
    destruct (subprocess_run E _ w) as [[proc|e] w'].
    + destruct (returncode proc =? 0)%Z; cbv [negb raise ret] in H; by simplify_eq.
    + by simplify_eq.
  - destruct (String.eqb mode "disable_object_streams") eqn:H2.
    + right. exists "--object-streams=disable".
      split; [right; split; [by apply String.eqb_eq|done]|].
      unfold bind at 1 in H. unfold ret at 1 in H. unfold bind at 1 in H.
      destruct (subprocess_run E _ w) as [[proc|e] w'].
      * destruct (returncode proc =? 0)%Z; cbv [negb raise ret] in H; by simplify_eq.
      * by simplify_eq.
    + left. apply String.eqb_neq in H1, H2.
      unfold bind, raise in H. by simplify_eq.
Qed.

Lemma run_qpdf_frame E qpdf src tmp_out mode w r w2 (p : Path) :
  (∀ cmd n, get (tool E cmd n).2 p = get n p) →
  run_qpdf E qpdf src tmp_out mode w = (r, w2) →
  get (fs w2) p = get (fs w) p.
Proof.
  intros Htool H. apply run_qpdf_inv in H as [(_ & _ & _ & ->)|(flag & _ & H)]; [done|].
  unfold subprocess_run in H.
  specialize (Htool [qpdf; flag; str src; str tmp_out] (fs w)).
  destruct (tool E _ (fs w)) as [[proc|e] n']; simpl in *.
  - by destruct H as [-> _].
  - by destruct H as [_ ->].
Qed.

(** ** Text lemmas *)

Lemma str_or_empty_r s : str_or s "" = s.
Proof. by destruct s. Qed.

Lemma string_app_empty_r s : s +:+ "" = s.
Proof.
  induction s as [|c s IH]; [done|].
  unfold String.append; fold String.append. by f_equal.
Qed.

Lemma contains_suffix pre t : contains (pre +:+ t) t.
Proof. exists pre, "". by rewrite string_app_empty_r. Qed.

Lemma contains_empty s : contains s "".
Proof. exists s, "". simpl. by rewrite string_app_empty_r. Qed.

Lemma prefix_fehler s : String.prefix "FEHLER: " ("FEHLER: " +:+ s) = true.
Proof. simpl. by destruct s. Qed.

(** *** White space *)

Lemma string_app_assoc (a b c : string) : (a +:+ b) +:+ c = a +:+ (b +:+ c).
Proof.
  induction a as [|x a IH]; [done|].
  unfold String.append; fold String.append. by f_equal.
Qed.

Lemma string_app_cons x (a b : string) : String x a +:+ b = String x (a +:+ b).
Proof. reflexivity. Qed.

Lemma string_app_nil (b : string) : "" +:+ b = b.
Proof. reflexivity. Qed.

Lemma strip_prefix_Some p : ∀ s r, strip_prefix p s = Some r ↔ s = p +:+ r.
Proof.
  induction p as [|a p IH]; intros s r; simpl.
  - rewrite string_app_nil. split; [by intros [= ->]|by intros ->].
  - rewrite string_app_cons. destruct s as [|b s]; [done|].
    destruct (Ascii.eqb a b) eqn:Hab.
    + apply Ascii.eqb_eq in Hab as ->. rewrite IH.
      split; [by intros ->|by intros [= ->]].
    + apply Ascii.eqb_neq in Hab. split; [done|]. intros [= <- _]. done.
Qed.

(** The matcher finds a code point of the table at the start, and what it
    leaves is what comes after it. *)
Lemma space_prefix_Some s r :
  space_prefix s = Some r → ∃ ws, In ws whitespace ∧ s = ws +:+ r.
Proof.
  unfold space_prefix. induction whitespace as [|ws l IH]; simpl; [done|].
  destruct (strip_prefix ws s) as [r'|] eqn:Hp.
  - intros [= ->]. apply strip_prefix_Some in Hp. eauto.
  - intros H. destruct (IH H) as (ws' & Hin & ->). eauto.
Qed.

(** No code point of the table starts with another one, so the matcher
    finds the one the string starts with. *)
Lemma space_prefix_app ws r : In ws whitespace → space_prefix (ws +:+ r) = Some r.
Proof.
  intros H. unfold whitespace in H.
  repeat (destruct H as [<-|H]; [reflexivity|]). done.
Qed.

Lemma space_prefix_None s : space_prefix s = None ↔ ¬ starts_with_space s.
Proof.
  split.
  - intros H (ws & r & Hin & ->). by rewrite space_prefix_app in H.
  - intros H. destruct (space_prefix s) as [r|] eqn:Hs; [|done].
    destruct H. apply space_prefix_Some in Hs as (ws & Hin & ->). by exists ws, r.
Qed.

Lemma whitespace_nonempty ws : In ws whitespace → 0 < String.length ws.
Proof.
  intros H. unfold whitespace in H.
  repeat (destruct H as [<-|H]; [simpl; lia|]). done.
Qed.

Lemma lstrip_upto_spec k : ∀ s,
  String.length s ≤ k →
  ∃ lead, s = lead +:+ lstrip_upto k s ∧ Blank lead
          ∧ space_prefix (lstrip_upto k s) = None.
Proof.
  induction k as [|k IH]; intros s Hlen.
  - destruct s; [|simpl in Hlen; lia]. exists "". split; [done|].
    split; [constructor|reflexivity].
  - simpl. destruct (space_prefix s) as [r|] eqn:Hs.
    + apply space_prefix_Some in Hs as (ws & Hin & ->).
      pose proof (whitespace_nonempty ws Hin).
      rewrite string_length_app in Hlen.
      destruct (IH r) as (lead & Hr & Hb & Hnone); [lia|].
      exists (ws +:+ lead). rewrite string_app_assoc, <- Hr.
      split; [done|]. split; [by constructor|done].
    + exists "". split; [done|]. split; [constructor|done].
Qed.

Lemma lstrip_spec s :
  ∃ lead, s = lead +:+ lstrip s ∧ Blank lead ∧ space_prefix (lstrip s) = None.
Proof. by apply lstrip_upto_spec. Qed.

Lemma Blank_app a b : Blank a → Blank b → Blank (a +:+ b).
Proof.
  induction 1 as [|ws s Hin Hs IH]; intros Hb; [done|].
  rewrite string_app_assoc. constructor; auto.
Qed.

Lemma lstrip_upto_Blank s : Blank s → ∀ k, String.length s ≤ k → lstrip_upto k s = "".
Proof.
  induction 1 as [|ws s Hin Hs IH]; intros k Hk.
  - by destruct k.
  - pose proof (whitespace_nonempty ws Hin).
    rewrite string_length_app in Hk.
    destruct k as [|k]; [lia|]. simpl.
    rewrite space_prefix_app by done. apply IH. lia.
Qed.

Lemma blank_Blank s : blank s = true ↔ Blank s.
Proof.
  unfold blank. split.
  - destruct (lstrip_spec s) as (lead & Hs & Hb & _).
    destruct (lstrip s); [|done]. intros _.
    rewrite Hs, string_app_empty_r. done.
  - intros H. unfold lstrip. by rewrite lstrip_upto_Blank.
Qed.

Lemma rstrip_spec s :
  ∃ trail, s = rstrip s +:+ trail ∧ Blank trail ∧ ¬ ends_with_space (rstrip s).
Proof.
  induction s as [|c s (trail & Hs & Hb & Hend)].
  - exists "". split; [done|]. split; [constructor|].
    intros (front & ws & Hin & H).
    apply whitespace_nonempty in Hin. apply (f_equal String.length) in H.
    rewrite string_length_app in H. simpl in H. lia.
  - cbn [rstrip]. destruct (blank (String c s)) eqn:Hbl.
    + exists (String c s). split; [done|]. split; [by apply blank_Blank|].
      intros (front & ws & Hin & H).
      apply whitespace_nonempty in Hin. apply (f_equal String.length) in H.
      rewrite string_length_app in H. simpl in H. lia.
    + exists trail. split; [by rewrite string_app_cons, <- Hs|]. split; [done|].
      intros (front & ws & Hin & H).
      destruct front as [|x front].
      * rewrite string_app_nil in H.
        assert (Blank (String c s)) as HB.
        { rewrite Hs, <- string_app_cons, H. apply Blank_app; [|done].
          rewrite <- (string_app_empty_r ws). constructor; [done|constructor]. }
        apply blank_Blank in HB. congruence.
      * rewrite string_app_cons in H. injection H as _ H.
        apply Hend. by exists front, ws.
Qed.

(** [strip] removes white space at the two ends and nothing else, and
    leaves none there. *)
Lemma strip_stripped s : stripped s (strip s).
Proof.
  unfold stripped, strip.
  destruct (lstrip_spec s) as (lead & Hs & Hlead & Hnone).
  destruct (rstrip_spec (lstrip s)) as (trail & Ht & Htrail & Hend).
  split; [|split; [|done]].
  - exists lead, trail. split; [|done]. by rewrite <- Ht.
  - intros (ws & rest & Hin & Hr).
    rewrite Ht, Hr, string_app_assoc, space_prefix_app in Hnone; done.
Qed.

Lemma strip_Blank s : strip s = "" ↔ Blank s.
Proof.
  split.
  - intros H. destruct (strip_stripped s) as [(lead & trail & Hs & Hl & Ht) _].
    rewrite H, string_app_nil in Hs. rewrite Hs. by apply Blank_app.
  - intros H. unfold strip.
    assert (lstrip s = "") as ->; [|done].
    unfold lstrip. by apply lstrip_upto_Blank.
Qed.

Lemma rfind_app c s t :
  rfind c (s +:+ t)
  = match rfind c t with
    | Some i => Some (String.length s + i)
    | None => rfind c s
    end.
Proof.
  induction s as [|a s IH].
  { unfold String.append. simpl. by destruct (rfind c t). }
  unfold String.append; fold String.append. simpl. rewrite IH.
  by destruct (rfind c t).
Qed.

Lemma substring_whole t : String.substring 0 (String.length t) t = t.
Proof. induction t as [|c t IH]; [done|]. simpl. by rewrite IH. Qed.

Lemma substring_app_tail s t :
  String.substring (String.length s) (String.length t) (s +:+ t) = t.
Proof.
  induction s as [|a s IH]; [apply substring_whole|].
  unfold String.append; fold String.append. simpl. exact IH.
Qed.
(** ** Case and suffix *)

Lemma ascii_lower_dot c : ascii_lower c = "."%char → c = "."%char.
Proof.
  destruct c as [[] [] [] [] [] [] [] []]; vm_compute; intros H;
    first [discriminate H | reflexivity].
Qed.

Lemma ascii_lower_p c : ascii_lower c = "p"%char → c = "p"%char ∨ c = "P"%char.
Proof.
  destruct c as [[] [] [] [] [] [] [] []]; vm_compute; intros H;
    first [discriminate H | by left | by right].
Qed.

Lemma ascii_lower_d c : ascii_lower c = "d"%char → c = "d"%char ∨ c = "D"%char.
Proof.
  destruct c as [[] [] [] [] [] [] [] []]; vm_compute; intros H;
    first [discriminate H | by left | by right].
Qed.

Lemma ascii_lower_f c : ascii_lower c = "f"%char → c = "f"%char ∨ c = "F"%char.
Proof.
  destruct c as [[] [] [] [] [] [] [] []]; vm_compute; intros H;
    first [discriminate H | by left | by right].
Qed.

(** Lower-casing gives [.pdf] for the eight spellings and for nothing
    else. *)
Lemma lower_pdf s : lower s = ".pdf" ↔ In s pdf_suffixes.
Proof.
  split.
  - destruct s as [|c1 [|c2 [|c3 [|c4 [|c5 s]]]]]; try done.
    simpl. intros [= H1 H2 H3 H4].
    apply ascii_lower_dot in H1 as ->.
    apply ascii_lower_p in H2 as [-> | ->];
      apply ascii_lower_d in H3 as [-> | ->];
      apply ascii_lower_f in H4 as [-> | ->]; simpl; tauto.
  - intros H. unfold pdf_suffixes in H.
    repeat (destruct H as [<-|H]; [reflexivity|]). done.
Qed.

Lemma rfind_bound c s i : rfind c s = Some i → i < String.length s.
Proof.
  revert i. induction s as [|a s IH]; intros i; simpl; [done|].
  destruct (rfind c s) as [j|].
  - intros [= <-]. specialize (IH j eq_refl). lia.
  - destruct (Ascii.eqb a c); [|done]. intros [= <-]. lia.
Qed.

Lemma substring_split i : ∀ s,
  i ≤ String.length s →
  s = String.substring 0 i s +:+ String.substring i (String.length s - i) s.
Proof.
  induction i as [|i IH]; intros s Hi.
  - rewrite Nat.sub_0_r, substring_whole. by destruct s.
  - destruct s as [|c s]; [simpl in Hi; lia|]. simpl in *.
    rewrite string_app_cons. f_equal. apply IH. lia.
Qed.

Lemma substring_length_0 i : ∀ s,
  i ≤ String.length s → String.length (String.substring 0 i s) = i.
Proof.
  induction i as [|i IH]; intros s Hi; [by destruct s|].
  destruct s as [|c s]; [simpl in Hi; lia|]. simpl in *. rewrite IH; lia.
Qed.

Lemma pdf_suffixes_nonempty : ¬ In "" pdf_suffixes.
Proof.
  intros H. unfold pdf_suffixes in H.
  repeat (destruct H as [H|H]; [discriminate H|]). done.
Qed.

(** The suffix of a path is one of the eight spellings exactly when its
    name is a non-empty stem followed by one of them. *)
Lemma suffix_pdf (p : Path) :
  lower (suffix p) = ".pdf"
  ↔ ∃ stem ext, name p = stem +:+ ext ∧ stem ≠ "" ∧ In ext pdf_suffixes.
Proof.
  rewrite lower_pdf. unfold suffix. set (nm := name p). split.
  - destruct (rfind "." nm) as [i|] eqn:Hr;
      [|by intros ?%pdf_suffixes_nonempty].
    destruct ((0 <? i) && (i <? String.length nm - 1)) eqn:Hi;
      [|by intros ?%pdf_suffixes_nonempty].
    apply andb_true_iff in Hi as [Hpos _]. apply Nat.ltb_lt in Hpos.
    apply rfind_bound in Hr. intros Hin.
    exists (String.substring 0 i nm),
           (String.substring i (String.length nm - i) nm).
    split; [apply substring_split; lia|]. split; [|done].
    intros H. apply (f_equal String.length) in H.
    rewrite substring_length_0 in H by lia. simpl in H. lia.
  - intros (stem & ext & -> & Hstem & Hin).
    assert (rfind "." ext = Some 0 ∧ String.length ext = 4) as [Hr Hlen].
    { unfold pdf_suffixes in Hin.
      repeat (destruct Hin as [<-|Hin]; [by split|]). done. }
    rewrite rfind_app, Hr, Nat.add_0_r, string_length_app, Hlen.
    assert (0 < String.length stem) as Hpos.
    { destruct stem; [done|simpl; lia]. }
    assert ((0 <? String.length stem) = true) as -> by by apply Nat.ltb_lt.
    assert ((String.length stem <? String.length stem + 4 - 1) = true) as ->
      by (apply Nat.ltb_lt; lia).
    simpl andb. cbv iota.
    replace (String.length stem + 4 - String.length stem)
      with (String.length ext) by lia.
    by rewrite substring_app_tail.
Qed.

(** ** run_qpdf, evaluated *)

Lemma qpdf_flag_cases mode :
  (mode = "linearize" ∧ qpdf_flag mode = Some "--linearize")
  ∨ (mode = "disable_object_streams"
     ∧ qpdf_flag mode = Some "--object-streams=disable")
  ∨ (mode ≠ "linearize" ∧ mode ≠ "disable_object_streams"
     ∧ qpdf_flag mode = None).
Proof.
  unfold qpdf_flag.
  destruct (String.eqb mode "linearize") eqn:H1.
  { apply String.eqb_eq in H1. by left. }
  destruct (String.eqb mode "disable_object_streams") eqn:H2.
  { apply String.eqb_eq in H2. right. by left. }
  apply String.eqb_neq in H1, H2. right. by right.
Qed.

(** The text [run_qpdf] raises with after a non-zero return code. *)
Lemma run_qpdf_eval E qpdf src tmp_out mode w :
  run_qpdf E qpdf src tmp_out mode w
  = match qpdf_flag mode with
    | None => (Raise (ValueError ("Unbekannter Modus: " +:+ mode)), w)
    | Some flag =>
        match subprocess_run E [qpdf; flag; str src; str tmp_out] w with
        | (Raise e, w') => (Raise e, w')
        | (Ok proc, w') =>
            (if (returncode proc =? 0)%Z then Ok tt
             else Raise (RuntimeError
                    (str_or (strip (str_or (stderr proc) (stdout proc)))
                            ("qpdf returncode=" +:+ pretty (returncode proc)))),
             w')
        end
    end.
Proof.
  unfold run_qpdf, qpdf_flag.
  destruct (String.eqb mode "linearize").
  - unfold bind at 1. unfold ret at 1. unfold bind at 1.
    destruct (subprocess_run E _ w) as [[proc|e] w']; [|done].
    rewrite str_or_empty_r.
    by destruct (returncode proc =? 0)%Z.
  - destruct (String.eqb mode "disable_object_streams").
    + unfold bind at 1. unfold ret at 1. unfold bind at 1.
      destruct (subprocess_run E _ w) as [[proc|e] w']; [|done].
      rewrite str_or_empty_r.
      by destruct (returncode proc =? 0)%Z.
    + reflexivity.
Qed.

Lemma subprocess_run_eval E cmd w :
  subprocess_run E cmd w
  = ((tool E cmd (fs w)).1,
     {| fs := (tool E cmd (fs w)).2; spawned := spawned w ++ [cmd];
        console_out := console_out w; console_err := console_err w |}).
Proof. unfold subprocess_run. by destruct (tool E cmd (fs w)). Qed.

Lemma run_qpdf_world E qpdf src tmp_out mode w :
  spawned (run_qpdf E qpdf src tmp_out mode w).2
  = spawned w ++ qpdf_commands qpdf src tmp_out mode
  ∧ console_out (run_qpdf E qpdf src tmp_out mode w).2 = console_out w
  ∧ console_err (run_qpdf E qpdf src tmp_out mode w).2 = console_err w.
Proof.
  rewrite run_qpdf_eval. unfold qpdf_commands.
  destruct (qpdf_flag mode) as [flag|].
  - rewrite subprocess_run_eval.
    destruct (tool E _ (fs w)) as [[proc|e] n']; simpl; done.
  - simpl. by rewrite app_nil_r.
Qed.

Lemma run_qpdf_frame_on E qpdf src tmp_out mode w (q : Path) :
  (∀ cmd n, In cmd (qpdf_commands qpdf src tmp_out mode) →
            get (tool E cmd n).2 q = get n q) →
  get (fs (run_qpdf E qpdf src tmp_out mode w).2) q = get (fs w) q.
Proof.
  intros Htool. rewrite run_qpdf_eval. unfold qpdf_commands in Htool.
  destruct (qpdf_flag mode) as [flag|]; [|done].
  rewrite subprocess_run_eval.
  specialize (Htool _ (fs w) (or_introl eq_refl)).
  destruct (tool E _ (fs w)) as [[proc|e] n']; simpl in *; done.
Qed.

(** ** The properties of fix_one_pdf *)

(** Claim C3.  With the dry-run flag set, [fix_one_pdf] returns
    [(False, "DRY-RUN")] and hands back the world it was given: the tree, the
    list of spawned commands and the console are all untouched, whatever the
    tool path, the candidate and the mode are. *)
Theorem fix_one_pdf_dry_run E qpdf pdf mode w :
  fix_one_pdf E qpdf pdf mode true w = (Ok (false, "DRY-RUN"), w).
Proof. reflexivity. Qed.

(** Claim C2, as amended.  For a candidate with a name, with the dry-run
    flag off: when the tool run returns normally (the subprocess exited 0),
    the temp output exists with a size of at least 10, and the replace of
    the source by the temp file succeeds, the call returns [(True, "OK")],
    the source path afterwards holds exactly the node the tool left at the
    temp path, and nothing is left at the temp path. *)
Theorem fix_one_pdf_success E qpdf pdf mode w w2 n w3 :
  nonempty (name pdf) = true →
  run_qpdf E qpdf pdf (tmp_path_of pdf) mode (discard (tmp_path_of pdf) w)
    = (Ok tt, w2) →
  get (fs w2) (tmp_path_of pdf) = Some n →
  10 ≤ st_size E n →
  replace (tmp_path_of pdf) pdf w2 = (Ok tt, w3) →
  fix_one_pdf E qpdf pdf mode false w = (Ok (true, "OK"), w3)
  ∧ get (fs w3) pdf = Some n
  ∧ get (fs w3) (tmp_path_of pdf) = None.
Proof.
  intros Hn Hrun Hget Hsz Hrep.
  split.
  - rewrite fix_one_pdf_stages by done. cbn zeta. rewrite Hrun, Hget.
    apply Nat.ltb_ge in Hsz as ->. by rewrite Hrep.
  - apply replace_moves in Hrep as (s & Hs & ->).
    destruct (siblings pdf Hn) as (dir & nm & tn & Hp & Ht & Hne).
    rewrite Ht in *. rewrite Hp. simpl.
    assert (s = n) as -> by congruence.
    split.
    + by eapply get_moved_target.
    + by apply get_moved_source.
Qed.

Lemma fix_one_pdf_success_witness :
  ∃ w3,
    fix_one_pdf (env_of writing_tool) "/usr/bin/qpdf" ["docs"; "a.pdf"]
      "linearize" false sample_world = (Ok (true, "OK"), w3)
    ∧ get (fs w3) ["docs"; "a.pdf"] = Some (File true false linearized_bytes)
    ∧ get (fs w3) (tmp_path_of ["docs"; "a.pdf"]) = None.
Proof.
  eexists.
  eapply (fix_one_pdf_success (env_of writing_tool) "/usr/bin/qpdf"
            ["docs"; "a.pdf"] "linearize" sample_world).
  - reflexivity.
  - vm_compute. reflexivity.
  - vm_compute. reflexivity.
  - vm_compute. lia.
  - vm_compute. reflexivity.
Defined.

(** Claim C2 as stated fails.  The source [/docs/c.pdf] is held open by
    another process; the tool exits 0 and leaves a 26-byte temp output, yet
    the call reports a failure, because the replace is refused: the source
    is as it was and the temp file is gone. *)
Lemma fix_one_pdf_locked_source :
  run_qpdf (env_of writing_tool) "/usr/bin/qpdf" ["docs"; "c.pdf"]
      (tmp_path_of ["docs"; "c.pdf"]) "linearize"
      (discard (tmp_path_of ["docs"; "c.pdf"]) sample_world)
    = (Ok tt,
       {| fs := put ["docs"; ".c.pdf.qpdf_tmp"] (File true false linearized_bytes)
                    sample_tree;
          spawned := [["/usr/bin/qpdf"; "--linearize"; "/docs/c.pdf";
                       "/docs/.c.pdf.qpdf_tmp"]];
          console_out := []; console_err := [] |})
  ∧ get (put ["docs"; ".c.pdf.qpdf_tmp"] (File true false linearized_bytes)
            sample_tree) (tmp_path_of ["docs"; "c.pdf"])
    = Some (File true false linearized_bytes)
  ∧ st_size (env_of writing_tool) (File true false linearized_bytes) = 26
  ∧ fix_one_pdf (env_of writing_tool) "/usr/bin/qpdf" ["docs"; "c.pdf"]
      "linearize" false sample_world
    = (Ok (false, "FEHLER: [Errno 13] Permission denied: '/docs/.c.pdf.qpdf_tmp' -> '/docs/c.pdf'"),
       {| fs := sample_tree;
          spawned := [["/usr/bin/qpdf"; "--linearize"; "/docs/c.pdf";
                       "/docs/.c.pdf.qpdf_tmp"]];
          console_out := []; console_err := [] |}).
Proof. vm_compute. done. Qed.

Lemma substring_app_head t post :
  String.substring 0 (String.length t) (t +:+ post) = t.
Proof.
  induction t as [|c t IH]; [by destruct post|].
  rewrite string_app_cons. simpl. by rewrite IH.
Qed.

Lemma substring_app_mid pre t post :
  String.substring (String.length pre) (String.length t) (pre +:+ t +:+ post) = t.
Proof.
  induction pre as [|a pre IH].
  - rewrite string_app_nil. apply substring_app_head.
  - rewrite string_app_cons. simpl. exact IH.
Qed.

(** Claim C4, as amended.  When the subprocess of a repair exits with a
    non-zero status, [run_qpdf] raises [RuntimeError] and the repair fails
    with the status ["FEHLER: " + msg].  The message is taken from the
    standard error if that is not empty and from the standard output
    otherwise: it is that text without the white space at its two ends, and
    if nothing is left of it, it is the return code in the form
    [qpdf returncode=N].  With the standard error ["Malformed PDF"] the
    message is that text, and the status contains it. *)
Theorem run_qpdf_failure_message E qpdf pdf mode flag w proc n' :
  nonempty (name pdf) = true →
  (mode = "linearize" ∧ flag = "--linearize")
  ∨ (mode = "disable_object_streams" ∧ flag = "--object-streams=disable") →
  tool E [qpdf; flag; str pdf; str (tmp_path_of pdf)]
       (fs (discard (tmp_path_of pdf) w)) = (Ok proc, n') →
  returncode proc ≠ 0%Z →
  ∃ msg,
    (run_qpdf E qpdf pdf (tmp_path_of pdf) mode (discard (tmp_path_of pdf) w)).1
    = Raise (RuntimeError msg)
    ∧ (fix_one_pdf E qpdf pdf mode false w).1
      = Ok (false, "FEHLER: " +:+ msg)
    ∧ (∀ chosen,
         (stderr proc ≠ "" → chosen = stderr proc) →
         (stderr proc = "" → chosen = stdout proc) →
         ∃ text,
           stripped chosen text
           ∧ (text ≠ "" → msg = text)
           ∧ (text = "" →
              msg = "qpdf returncode=" +:+ pretty (returncode proc)))
    ∧ (stderr proc = "Malformed PDF" →
       msg = "Malformed PDF"
       ∧ contains ("FEHLER: " +:+ msg) "Malformed PDF").
Proof.
  intros Hn Hmode Htool Hrc.
  set (chosen := str_or (stderr proc) (stdout proc)).
  set (msg := str_or (strip chosen)
                ("qpdf returncode=" +:+ pretty (returncode proc))).
  assert (run_qpdf E qpdf pdf (tmp_path_of pdf) mode
            (discard (tmp_path_of pdf) w)
          = (Raise (RuntimeError msg),
             {| fs := n';
                spawned := spawned (discard (tmp_path_of pdf) w)
                           ++ [[qpdf; flag; str pdf; str (tmp_path_of pdf)]];
                console_out := console_out (discard (tmp_path_of pdf) w);
                console_err := console_err (discard (tmp_path_of pdf) w) |}))
    as Hrun.
  { rewrite run_qpdf_eval.
    assert (qpdf_flag mode = Some flag) as ->
      by (by destruct Hmode as [[-> ->]|[-> ->]]).
    rewrite subprocess_run_eval, Htool. simpl.
    apply Z.eqb_neq in Hrc. by rewrite Hrc. }
  exists msg. split; [by rewrite Hrun|]. split.
  { rewrite fix_one_pdf_stages by done. cbn zeta. by rewrite Hrun. }
  split.
  - intros chosen' Hne He.
    assert (chosen' = chosen) as ->.
    { unfold chosen, str_or. destruct (stderr proc) as [|c s]; [by apply He|].
      by apply Hne. }
    exists (strip chosen). split; [apply strip_stripped|].
    unfold msg, str_or. by destruct (strip chosen).
  - intros Herr.
    assert (msg = "Malformed PDF") as ->.
    { unfold msg, chosen. rewrite Herr. reflexivity. }
    split; [done|]. apply contains_suffix.
Qed.

Lemma run_qpdf_failure_message_witness :
  (fix_one_pdf (env_of rejecting_tool) "/usr/bin/qpdf" ["docs"; "a.pdf"]
     "linearize" false sample_world).1
  = Ok (false, "FEHLER: Malformed PDF")
  ∧ contains "FEHLER: Malformed PDF" "Malformed PDF".
Proof.
  destruct (run_qpdf_failure_message (env_of rejecting_tool) "/usr/bin/qpdf"
              ["docs"; "a.pdf"] "linearize" "--linearize" sample_world
              {| returncode := 1; stdout := ""; stderr := "Malformed PDF" |}
              sample_tree eq_refl (or_introl (conj eq_refl eq_refl)) eq_refl
              ltac:(discriminate)) as (msg & _ & Hfix & _ & Hmal).
  destruct (Hmal eq_refl) as [-> Hc]. split; [exact Hfix|exact Hc].
Defined.

(** Claim C4 as stated fails.  The tool exits with status 2, writes a
    single line feed to its standard error and the reason to its standard
    output.  The standard error is not empty, so the standard output is not
    consulted; nothing is left of the line feed once it is stripped, so the
    message is the return code.  The status carries neither of the two
    texts. *)
Lemma failure_message_without_text :
  tool (env_of stdout_tool)
    ["/usr/bin/qpdf"; "--linearize"; "/docs/a.pdf"; "/docs/.a.pdf.qpdf_tmp"]
    sample_tree
  = (Ok {| returncode := 2; stdout := "cannot open input";
           stderr := String "010" "" |}, sample_tree)
  ∧ (fix_one_pdf (env_of stdout_tool) "/usr/bin/qpdf" ["docs"; "a.pdf"]
       "linearize" false sample_world).1
    = Ok (false, "FEHLER: qpdf returncode=2")
  ∧ ¬ contains "FEHLER: qpdf returncode=2" "cannot open input"
  ∧ ¬ contains "FEHLER: qpdf returncode=2" (String "010" "").
Proof.
  split; [reflexivity|]. split; [vm_compute; reflexivity|].
  split; intros (pre & post & H).
  - pose proof (substring_app_mid pre "cannot open input" post) as Hsub.
    rewrite <- H in Hsub.
    apply (f_equal String.length) in H.
    rewrite !string_length_app in H. simpl in H.
    set (k := String.length pre) in *. clearbody k.
    do 9 (destruct k as [|k]; [vm_compute in Hsub; discriminate Hsub|]).
    lia.
  - pose proof (substring_app_mid pre (String "010" "") post) as Hsub.
    rewrite <- H in Hsub.
    apply (f_equal String.length) in H.
    rewrite !string_length_app in H. simpl in H.
    set (k := String.length pre) in *. clearbody k.
    do 25 (destruct k as [|k]; [vm_compute in Hsub; discriminate Hsub|]).
    lia.
Qed.

(** Claim C5.  After a tool run that returned normally: if the temp output
    is missing or smaller than 10 bytes, the call fails with the
    invalid/empty-output message, and what it leaves at the source path is
    what the tool left there; if the temp output exists with at least 10
    bytes, the check passes, that is, the outcome is the outcome of the
    replace alone. *)
Theorem fix_one_pdf_validates E qpdf pdf mode w w2 :
  nonempty (name pdf) = true →
  run_qpdf E qpdf pdf (tmp_path_of pdf) mode (discard (tmp_path_of pdf) w)
    = (Ok tt, w2) →
  ((∀ n, get (fs w2) (tmp_path_of pdf) = Some n → st_size E n < 10) →
     fix_one_pdf E qpdf pdf mode false w
       = (Ok (false, "FEHLER: Temp-Ausgabe ist ungültig/leer."),
          discard (tmp_path_of pdf) w2)
     ∧ get (fs (discard (tmp_path_of pdf) w2)) pdf = get (fs w2) pdf)
  ∧ (∀ n, get (fs w2) (tmp_path_of pdf) = Some n → 10 ≤ st_size E n →
     fix_one_pdf E qpdf pdf mode false w
       = match replace (tmp_path_of pdf) pdf w2 with
         | (Ok _, w3) => (Ok (true, "OK"), w3)
         | (Raise e, w3) =>
             (Ok (false, "FEHLER: " +:+ str_exn e), discard (tmp_path_of pdf) w3)
         end).
Proof.
  intros Hn Hrun. split.
  - intros Hsmall. split.
    + rewrite fix_one_pdf_stages by done. cbn zeta. rewrite Hrun.
      destruct (get (fs w2) (tmp_path_of pdf)) as [n|]; [|done].
      specialize (Hsmall n eq_refl). by apply Nat.ltb_lt in Hsmall as ->.
    + destruct (siblings pdf Hn) as (dir & nm & tn & Hp & -> & Hne).
      rewrite Hp. by apply discard_sibling.
  - intros n Hget Hsz.
    rewrite fix_one_pdf_stages by done. cbn zeta. rewrite Hrun, Hget.
    by apply Nat.ltb_ge in Hsz as ->.
Qed.

Lemma fix_one_pdf_validates_witness :
  (fix_one_pdf (env_of stub_tool) "/usr/bin/qpdf" ["docs"; "a.pdf"] "linearize"
     false sample_world).1
  = Ok (false, "FEHLER: Temp-Ausgabe ist ungültig/leer.").
Proof.
  pose proof (fix_one_pdf_validates (env_of stub_tool) "/usr/bin/qpdf"
                ["docs"; "a.pdf"] "linearize" sample_world _
                eq_refl eq_refl) as [H _].
  destruct H as [-> _]; [|reflexivity].
  intros n Hn. vm_compute in Hn. injection Hn as <-. vm_compute. lia.
Defined.

(** Claim C6.  Given a tool that, run with the command line of this repair,
    does not change the source path (it may write to its output path, as
    its contract says): whenever [fix_one_pdf], run with the dry-run flag
    off, returns a status other than ["OK"] (the subprocess failed, the
    output was invalid, the replace failed, the mode was unknown), the flag
    it returns is [False], the status starts with ["FEHLER: "], the source
    path holds what it held before the call, and the temp path is empty
    unless what sits there cannot be unlinked (a directory, or a file
    another process holds open), which is as far as the best effort goes. *)
Theorem fix_one_pdf_failure E qpdf pdf mode w changed status w' :
  (∀ cmd n, In cmd (qpdf_commands qpdf pdf (tmp_path_of pdf) mode) →
            get (tool E cmd n).2 pdf = get n pdf) →
  fix_one_pdf E qpdf pdf mode false w = (Ok (changed, status), w') →
  status ≠ "OK" →
  changed = false
  ∧ String.prefix "FEHLER: " status = true
  ∧ get (fs w') pdf = get (fs w) pdf
  ∧ (get (fs w') (tmp_path_of pdf) = None
     ∨ ∃ n, get (fs w') (tmp_path_of pdf) = Some n ∧ undeletable n = true).
Proof.
  intros Htool Hfix Hst.
  assert (nonempty (name pdf) = true) as Hn.
  { destruct (nonempty (name pdf)) eqn:Hn; [done|].
    unfold fix_one_pdf, with_name in Hfix. by rewrite Hn in Hfix. }
  rewrite fix_one_pdf_stages in Hfix by done. cbn zeta in Hfix.
  destruct (siblings pdf Hn) as (dir & nm & tn & Hp & Ht & Hne).
  rewrite Ht in *. clear Ht.
  assert (∀ e w2,
    run_qpdf E qpdf pdf (dir ++ [tn]) mode (discard (dir ++ [tn]) w) = (e, w2) →
    get (fs (discard (dir ++ [tn]) w2)) pdf = get (fs w) pdf) as Hframe.
  { intros e w2 Hrun.
    pose proof (run_qpdf_frame_on E qpdf pdf (dir ++ [tn]) mode
                  (discard (dir ++ [tn]) w) pdf Htool) as Hf.
    rewrite Hrun in Hf. simpl in Hf.
    rewrite Hp in *. rewrite discard_sibling by done.
    rewrite Hf. by apply discard_sibling. }
  destruct (run_qpdf _ _ _ _ _ _) as [[[]|e] w2] eqn:Hrun.
  - destruct (get (fs w2) (dir ++ [tn])) as [n|].
    + destruct (st_size E n <? 10).
      * simplify_eq. split; [done|]. split; [apply prefix_fehler|].
        split; [by eapply Hframe|]. apply discard_gone.
      * destruct (replace _ _ _) as [[[]|e] w3] eqn:Hrep; simplify_eq.
        apply replace_raises in Hrep as ->.
        split; [done|]. split; [apply prefix_fehler|].
        split; [by eapply Hframe|]. apply discard_gone.
    + simplify_eq. split; [done|]. split; [apply prefix_fehler|].
      split; [by eapply Hframe|]. apply discard_gone.
  - simplify_eq. split; [done|]. split; [apply prefix_fehler|].
    split; [by eapply Hframe|]. apply discard_gone.
Qed.

(** The tool writes its output, and the replace is refused because the
    source is held open: the source is as it was and the temp file has been
    removed. *)
Lemma fix_one_pdf_failure_witness :
  false = false
  ∧ String.prefix "FEHLER: "
      "FEHLER: [Errno 13] Permission denied: '/docs/.c.pdf.qpdf_tmp' -> '/docs/c.pdf'"
    = true
  ∧ get sample_tree ["docs"; "c.pdf"] = get (fs sample_world) ["docs"; "c.pdf"]
  ∧ (get sample_tree (tmp_path_of ["docs"; "c.pdf"]) = None
     ∨ ∃ n, get sample_tree (tmp_path_of ["docs"; "c.pdf"]) = Some n
            ∧ undeletable n = true).
Proof.
  apply (fix_one_pdf_failure (env_of writing_tool) "/usr/bin/qpdf"
           ["docs"; "c.pdf"] "linearize" sample_world false
           "FEHLER: [Errno 13] Permission denied: '/docs/.c.pdf.qpdf_tmp' -> '/docs/c.pdf'"
           {| fs := sample_tree;
              spawned := [["/usr/bin/qpdf"; "--linearize"; "/docs/c.pdf";
                           "/docs/.c.pdf.qpdf_tmp"]];
              console_out := []; console_err := [] |}).
  - intros cmd n [<-|[]].
    change (get (put ["docs"; ".c.pdf.qpdf_tmp"]
                   (File true false linearized_bytes) n) ["docs"; "c.pdf"]
            = get n ["docs"; "c.pdf"]).
    apply (get_put_sibling ["docs"]). discriminate.
  - vm_compute. reflexivity.
  - discriminate.
Defined.

(** ** is_pdf_file *)

Lemma is_pdf_file_eval path w :
  is_pdf_file path w = (Ok (looks_like_pdf path w), w).
Proof.
  unfold is_pdf_file, looks_like_pdf, try_except, bind, read_head, ret.
  destruct (String.eqb (lower (suffix path)) ".pdf"); cbn [negb andb];
    [|reflexivity].
  destruct (get (fs w) path) as [[[] l data|es]|]; reflexivity.
Qed.

Lemma read_head_ok path k w head :
  (read_head path k w).1 = Ok head
  ↔ ∃ l data, get (fs w) path = Some (File true l data) ∧ take k data = head.
Proof.
  unfold read_head.
  destruct (get (fs w) path) as [[[] l data|es]|]; simpl.
  - split; [intros [= H]; eauto|intros (? & ? & [= <- <-] & ->); done].
  - split; [done|intros (? & ? & [=] & _)].
  - split; [done|intros (? & ? & [=] & _)].
  - split; [done|intros (? & ? & [=] & _)].
Qed.

Lemma looks_like_pdf_true path w :
  looks_like_pdf path w = true
  ↔ lower (suffix path) = ".pdf"
    ∧ ∃ l data, get (fs w) path = Some (File true l data)
                ∧ take 5 data = pdf_magic.
Proof.
  unfold looks_like_pdf. rewrite andb_true_iff, String.eqb_eq.
  apply and_iff_compat_l.
  destruct (get (fs w) path) as [[[] l data|es]|].
  - unfold bytes_eqb. rewrite bool_decide_eq_true.
    split; [eauto|intros (? & ? & [= <- <-] & ?); done].
  - split; [done|intros (? & ? & [=] & _)].
  - split; [done|intros (? & ? & [=] & _)].
  - split; [done|intros (? & ? & [=] & _)].
Qed.

(** Claim C1.  For every path and every world, [is_pdf_file] returns a
    Boolean, raises nothing and leaves the world alone.  The Boolean is
    [True] exactly when the name of the path is a non-empty stem followed by
    [.pdf] in one of its eight spellings (upper or lower case, letter by
    letter) and the path holds a regular file that may be read and whose
    first five bytes are [%PDF-]; in the terms of the code, when opening
    the file and reading five bytes succeeds with these bytes.  Another
    suffix, a different or shorter head, and any error of opening or reading
    (no such file, a directory, no permission) all give [False]. *)
Theorem is_pdf_file_spec path w :
  ∃ b, is_pdf_file path w = (Ok b, w)
       ∧ (b = true
          ↔ (∃ stem ext, name path = stem +:+ ext ∧ stem ≠ ""
                         ∧ In ext pdf_suffixes)
            ∧ ∃ l data, get (fs w) path = Some (File true l data)
                        ∧ take 5 data = list_byte_of_string "%PDF-")
       ∧ (b = true
          ↔ (∃ stem ext, name path = stem +:+ ext ∧ stem ≠ ""
                         ∧ In ext pdf_suffixes)
            ∧ (read_head path 5 w).1 = Ok (list_byte_of_string "%PDF-")).
Proof.
  exists (looks_like_pdf path w). split; [apply is_pdf_file_eval|].
  change (list_byte_of_string "%PDF-") with pdf_magic.
  rewrite <- suffix_pdf. split; [apply looks_like_pdf_true|].
  rewrite looks_like_pdf_true. by rewrite read_head_ok.
Qed.


(** ** fix_one_pdf never raises on a candidate *)

(** Claim C10.  Every candidate, that is, every path [is_pdf_file] accepts
    in some world, has a name; and for every path with a name (and for any
    path at all when the dry-run flag is set), every tool path, mode string
    and world, [fix_one_pdf] returns a pair and raises nothing; with a mode
    string outside the two known ones the [ValueError] of [run_qpdf] comes
    back as [(False, "FEHLER: Unbekannter Modus: " + mode)].  The loop of
    [main] passes candidates only, so none of its repairs raises. *)
Theorem fix_one_pdf_total E qpdf pdf mode dry_run w :
  (∀ w0, (is_pdf_file pdf w0).1 = Ok true → nonempty (name pdf) = true)
  ∧ (dry_run = true ∨ nonempty (name pdf) = true →
     ∃ changed status w',
       fix_one_pdf E qpdf pdf mode dry_run w = (Ok (changed, status), w')
       ∧ (dry_run = false → mode ≠ "linearize" →
          mode ≠ "disable_object_streams" →
          changed = false ∧ status = "FEHLER: Unbekannter Modus: " +:+ mode)).
Proof.
  split.
  { intros w0 Hcand. rewrite is_pdf_file_eval in Hcand. injection Hcand as Hcand.
    apply looks_like_pdf_true in Hcand as [Hs _].
    apply suffix_nonempty_name. intros H. by rewrite H in Hs. }
  intros [->|Hn].
  { eexists _, _, _. split; [reflexivity|done]. }
  destruct dry_run.
  { eexists _, _, _. split; [reflexivity|done]. }
  rewrite fix_one_pdf_stages by done. cbn zeta.
  destruct (run_qpdf _ _ _ _ _ _) as [[[]|e] w2] eqn:Hrun.
  - apply run_qpdf_inv in Hrun as Hinv.
    assert (mode ≠ "linearize" → mode ≠ "disable_object_streams" → False) as Hm.
    { intros H1 H2. destruct Hinv as [(_ & _ & ? & _)|(flag & [[? _]|[? _]] & _)]; done. }
    destruct (get (fs w2) (tmp_path_of pdf)) as [n|].
    + destruct (st_size E n <? 10).
      * eexists _, _, _. split; [reflexivity|]. intros _ H1 H2. by destruct Hm.
      * destruct (replace _ _ _) as [[[]|e] w3];
          (eexists _, _, _; split; [reflexivity|]; intros _ H1 H2; by destruct Hm).
    + eexists _, _, _. split; [reflexivity|]. intros _ H1 H2. by destruct Hm.
  - eexists _, _, _. split; [reflexivity|]. intros _ H1 H2.
    apply run_qpdf_inv in Hrun as [(_ & _ & [= ->] & _)|(flag & [[? _]|[? _]] & _)]; done.
Qed.

Lemma fix_one_pdf_total_witness :
  ∃ changed status w',
    fix_one_pdf (env_of writing_tool) "/usr/bin/qpdf" ["docs"; "a.pdf"]
      "shrink" false sample_world = (Ok (changed, status), w')
    ∧ (false = false → "shrink" ≠ "linearize" → "shrink" ≠ "disable_object_streams" →
       changed = false ∧ status = "FEHLER: Unbekannter Modus: " +:+ "shrink").
Proof.
  destruct (fix_one_pdf_total (env_of writing_tool) "/usr/bin/qpdf"
              ["docs"; "a.pdf"] "shrink" false sample_world) as [Hname Hret].
  apply Hret. right. apply (Hname sample_world). reflexivity.
Defined.

(** The root, which is no candidate, has an empty name: [with_name], which
    is called before the [try] block is entered, raises [ValueError]. *)
Lemma fix_one_pdf_raises_on_root :
  fix_one_pdf (env_of writing_tool) "/usr/bin/qpdf" [] "linearize" false
    sample_world
  = (Raise (ValueError "PosixPath('/') has an empty name"), sample_world).
Proof. reflexivity. Qed.

(** ** iter_pdfs *)

Lemma node_ind' (P : node → Prop) :
  (∀ r l data, P (File r l data)) →
  (∀ es, Forall (λ e, P e.2) es → P (Dir es)) →
  ∀ n, P n.
Proof.
  intros HF HD. fix IH 1. intros [r l data|es]; [apply HF|].
  apply HD. revert es. fix IHes 1. intros [|[k ch] es]; constructor.
  - apply IH.
  - apply IHes.
Qed.

Lemma os_walk_dir edit top es :
  os_walk edit top (Dir es)
  = (top, dir_names es, file_names es)
    :: flat_map (λ d, match assoc d es with
                      | Some (Dir x) => os_walk edit (top ++ [d]) (Dir x)
                      | _ => []
                      end) (edit (dir_names es)).
Proof.
  simpl. f_equal. apply flat_map_ext. intros d.
  induction es as [|[k ch] es IH]; [done|].
  simpl. destruct (String.eqb k d); [by destruct ch|apply IH].
Qed.

Lemma prune_dirnames_In d ds : In d (prune_dirnames ds) ↔ In d ds ∧ allowed d.
Proof.
  unfold prune_dirnames. rewrite filter_In, bool_decide_eq_true. done.
Qed.

(** Every triple of the pruned walk is the listing of a directory reached
    from [top] through names that are all allowed. *)
Lemma os_walk_sound n : ∀ top t,
  In t (os_walk prune_dirnames top n) →
  ∃ rel es, t = (top ++ rel, dir_names es, file_names es)
            ∧ Forall allowed rel
            ∧ get n rel = Some (Dir es).
Proof.
  induction n as [r l data|es IH] using node_ind'; intros top t Ht; [done|].
  rewrite os_walk_dir in Ht. destruct Ht as [<-|Ht].
  - exists [], es. rewrite app_nil_r. done.
  - apply in_flat_map in Ht as (d & Hd & Ht).
    apply prune_dirnames_In in Hd as [_ Hd].
    destruct (assoc d es) as [[r l data|x]|] eqn:Ha; [done| |done].
    assert (In (d, Dir x) es) as Hin.
    { clear -Ha. induction es as [|[k ch] es IHes]; [done|]. simpl in Ha.
      destruct (String.eqb k d) eqn:Hk.
      - apply String.eqb_eq in Hk as ->. left. congruence.
      - right. by apply IHes. }
    rewrite List.Forall_forall in IH. specialize (IH _ Hin (top ++ [d]) t Ht).
    destruct IH as (rel & es' & -> & Hrel & Hget).
    exists (d :: rel), es'. split; [by rewrite <- app_assoc|].
    split; [by constructor|]. simpl. by rewrite Ha.
Qed.

Lemma walked_sound root w t :
  In t (walked root w) → ∃ rel, t.1.1 = root ++ rel ∧ Forall allowed rel.
Proof.
  unfold walked. destruct (get (fs w) root) as [n|]; [|done].
  intros Ht. apply os_walk_sound in Ht as (rel & es & -> & Hrel & _). eauto.
Qed.

(** Conversely, every directory reached from [top] through allowed names is
    handed over, with its listing. *)
Lemma os_walk_complete rel : ∀ n top es,
  Forall allowed rel →
  get n rel = Some (Dir es) →
  In (top ++ rel, dir_names es, file_names es) (os_walk prune_dirnames top n).
Proof.
  induction rel as [|d rel IH]; intros n top es Hall Hget.
  - injection Hget as ->. rewrite os_walk_dir, app_nil_r. by left.
  - apply Forall_cons in Hall as [Hd Hall].
    destruct n as [r l data|es0]; [done|]. simpl in Hget.
    destruct (assoc d es0) as [ch|] eqn:Ha; [|done].
    assert (∃ x, ch = Dir x) as [x ->].
    { destruct ch as [r l data|x]; [by destruct rel|eauto]. }
    rewrite os_walk_dir. right. apply in_flat_map. exists d. split.
    + apply prune_dirnames_In. split; [|done].
      unfold dir_names. apply in_map_iff. exists (d, Dir x). split; [done|].
      apply filter_In. split; [|done].
      clear -Ha. induction es0 as [|[k ch] es0 IHes]; [done|]. simpl in Ha.
      destruct (String.eqb k d) eqn:Hk.
      * apply String.eqb_eq in Hk as ->. left. congruence.
      * right. by apply IHes.
    + rewrite Ha. replace (top ++ d :: rel) with ((top ++ [d]) ++ rel)
        by by rewrite <- app_assoc.
      by apply IH.
Qed.

Lemma assoc_file_names fn es r l data :
  assoc fn es = Some (File r l data) → In fn (file_names es).
Proof.
  intros Ha. unfold file_names. apply in_map_iff.
  exists (fn, File r l data). split; [done|]. apply filter_In. split; [|done].
  induction es as [|[k ch] es IHes]; [done|]. simpl in Ha.
  destruct (String.eqb k fn) eqn:Hk.
  - apply String.eqb_eq in Hk as ->. left. congruence.
  - right. by apply IHes.
Qed.

Lemma middle_not_last {A} (rel pre post : list A) (fn d : A) :
  rel ++ [fn] = pre ++ d :: post → post ≠ [] → In d rel.
Proof.
  intros Heq Hpost.
  destruct (exists_last Hpost) as (post' & x & ->).
  change (pre ++ d :: post' ++ [x]) with (pre ++ (d :: post') ++ [x]) in Heq.
  rewrite app_assoc in Heq. apply app_inj_tail in Heq as [-> _].
  apply in_or_app. right. by left.
Qed.

Lemma filterM_is_pdf_file l w :
  filterM is_pdf_file l w = (Ok (List.filter (λ p, looks_like_pdf p w) l), w).
Proof.
  induction l as [|x l IH]; [done|].
  simpl. unfold bind at 1. rewrite is_pdf_file_eval.
  unfold bind at 1. rewrite IH. unfold ret.
  by destruct (looks_like_pdf x w).
Qed.

Lemma iter_pdfs_eval root w :
  iter_pdfs root w
  = (Ok (List.filter (λ p, looks_like_pdf p w) (listed (walked root w))), w).
Proof.
  unfold iter_pdfs. unfold bind at 1. unfold walk. fold (walked root w).
  apply filterM_is_pdf_file.
Qed.

Lemma candidates_eval root w :
  candidates root w
  = List.filter (λ p, looks_like_pdf p w) (listed (walked root w)).
Proof. unfold candidates. by rewrite iter_pdfs_eval. Qed.

Lemma candidates_named root w :
  Forall (λ p, nonempty (name p) = true) (candidates root w).
Proof.
  rewrite candidates_eval. apply List.Forall_forall. intros p Hp.
  apply filter_In in Hp as [_ Hp].
  apply looks_like_pdf_true in Hp as [Hs _].
  apply suffix_nonempty_name. intros H0. by rewrite H0 in Hs.
Qed.

(** Claim C8.  For every root and every tree, [iter_pdfs] returns its list
    without raising, and no path in it lies below the root through a
    directory whose lower-cased name is in [skip_dirs]; moreover no
    directory the walk visits (no [dirpath] of a triple it is handed) is such
    a directory or lies inside one, at any depth. *)
Theorem iter_pdfs_skips root w :
  ∃ pdfs triples,
    iter_pdfs root w = (Ok pdfs, w)
    ∧ walk prune_dirnames root w = (Ok triples, w)
    ∧ (∀ p, In p pdfs → ¬ under_skipped root p)
    ∧ (∀ t, In t triples → ¬ in_skipped root t.1.1).
Proof.
  eexists _, (walked root w).
  split; [apply iter_pdfs_eval|]. split; [reflexivity|]. split.
  - intros p Hp (pre & d & post & Heq & Hpost & Hskip).
    apply filter_In in Hp as [Hp _].
    apply in_flat_map in Hp as (t & Ht & Hp).
    apply in_map_iff in Hp as (fn & <- & _).
    destruct (walked_sound root w t Ht) as (rel & Hrel & Hall).
    rewrite Hrel, <- app_assoc in Heq. apply app_inv_head in Heq.
    apply middle_not_last in Heq; [|done].
    rewrite List.Forall_forall in Hall. by apply (Hall d).
  - intros t Ht (pre & d & post & Heq & Hskip).
    destruct (walked_sound root w t Ht) as (rel & Hrel & Hall).
    rewrite Hrel in Heq. apply app_inv_head in Heq. subst rel.
    rewrite List.Forall_forall in Hall. apply (Hall d); [|done].
    apply in_or_app. right. by left.
Qed.

(** The walk misses nothing it should find: a file that looks like a PDF
    and sits below the root under allowed directory names only is yielded. *)
Lemma iter_pdfs_complete root w rel fn :
  Forall allowed rel →
  looks_like_pdf (root ++ rel ++ [fn]) w = true →
  In (root ++ rel ++ [fn]) (candidates root w).
Proof.
  intros Hall Hpdf. rewrite candidates_eval. apply filter_In. split; [|done].
  apply looks_like_pdf_true in Hpdf as (_ & l & data & Hget).
  destruct Hget as [Hget _].
  rewrite get_app in Hget. unfold walked.
  destruct (get (fs w) root) as [n|]; [|done].
  apply get_entry_parent in Hget as (es & Hd & Ha).
  unfold listed. apply in_flat_map.
  exists (root ++ rel, dir_names es, file_names es). split.
  - by apply os_walk_complete.
  - simpl. apply in_map_iff. exists fn. split; [by rewrite <- app_assoc|].
    by eapply assoc_file_names.
Qed.

(** The sample tree: the text file renamed to [.pdf], the unreadable file
    and the file below [.git] are not candidates. *)
Lemma iter_pdfs_sample :
  iter_pdfs ["docs"] sample_world
  = (Ok [["docs"; "a.pdf"]; ["docs"; "c.pdf"]; ["docs"; "sub"; "D.PDF"]],
     sample_world).
Proof. vm_compute. reflexivity. Qed.

(** ** main *)

Lemma find_qpdf_world E explicit w : (find_qpdf E explicit w).2 = w.
Proof.
  unfold find_qpdf, bind, exists_pure, ret, raise.
  repeat case_match; simplify_eq; done.
Qed.

Lemma print_reliable E line w :
  stdout_reliable E →
  print E line w
  = (Ok tt, {| fs := fs w; spawned := spawned w;
               console_out := console_out w ++ [line];
               console_err := console_err w |}).
Proof. intros H. unfold print. by rewrite H. Qed.

(** What the logging step of the loop body does when the console takes
    the line. *)
Lemma log_step E (a : Args) line w :
  arg_quiet a = true ∨ stdout_reliable E →
  (if negb (arg_quiet a) then print E line else ret ()) w
  = (Ok tt, if arg_quiet a then w
            else {| fs := fs w; spawned := spawned w;
                    console_out := console_out w ++ [line];
                    console_err := console_err w |}).
Proof.
  intros [Hq|Hr].
  - by rewrite Hq.
  - destruct (arg_quiet a); [done|]. by apply print_reliable.
Qed.

Lemma fix_one_pdf_returns E qpdf pdf mode dry_run w :
  dry_run = true ∨ nonempty (name pdf) = true →
  ∃ changed status w',
    fix_one_pdf E qpdf pdf mode dry_run w = (Ok (changed, status), w').
Proof.
  intros [->|Hn]; [by eexists _, _, _|].
  destruct dry_run; [by eexists _, _, _|].
  rewrite fix_one_pdf_stages by done. cbn zeta.
  repeat case_match; by eexists _, _, _.
Qed.

Lemma fix_one_pdf_status E qpdf pdf mode dry w changed status w' :
  fix_one_pdf E qpdf pdf mode dry w = (Ok (changed, status), w') →
  (changed = true ∧ status = "OK" ∧ dry = false)
  ∨ (changed = false ∧ status = "DRY-RUN" ∧ dry = true ∧ w' = w)
  ∨ (changed = false ∧ dry = false ∧ ∃ m, status = "FEHLER: " +:+ m).
Proof.
  destruct dry.
  { intros [= <- <- <-]. right. left. done. }
  destruct (nonempty (name pdf)) eqn:Hn.
  2:{ unfold fix_one_pdf, with_name. rewrite Hn. done. }
  rewrite fix_one_pdf_stages by done. cbn zeta. intros H.
  destruct (run_qpdf E qpdf pdf (tmp_path_of pdf) mode
              (discard (tmp_path_of pdf) w)) as [[[]|e] w2].
  2:{ injection H as <- <- _. eauto 10. }
  destruct (get (fs w2) (tmp_path_of pdf)) as [n|].
  2:{ injection H as <- <- _. eauto 10. }
  destruct (st_size E n <? 10).
  { injection H as <- <- _. eauto 10. }
  destruct (replace (tmp_path_of pdf) pdf w2) as [[[]|e] w3].
  - injection H as <- <- _. left. done.
  - injection H as <- <- _. right. right. eauto.
Qed.

Lemma tally_ok c :
  tally c "OK" = {| total := total c + 1; fixed := fixed c + 1; failed := failed c |}.
Proof. reflexivity. Qed.

Lemma tally_dry c :
  tally c "DRY-RUN" = {| total := total c + 1; fixed := fixed c; failed := failed c |}.
Proof. reflexivity. Qed.

Lemma tally_failure c m :
  tally c ("FEHLER: " +:+ m)
  = {| total := total c + 1; fixed := fixed c; failed := failed c + 1 |}.
Proof. reflexivity. Qed.

Lemma is_failure_fehler b m : is_failure (b, "FEHLER: " +:+ m) = true.
Proof. apply prefix_fehler. Qed.

Lemma main_loop_counters_gen E qpdf a pdfs : ∀ c w,
  Forall (λ p, nonempty (name p) = true) pdfs →
  arg_quiet a = true ∨ stdout_reliable E →
  ∃ w',
    main_loop E qpdf a pdfs c w
    = (Ok {| total := total c + length pdfs;
             fixed := fixed c + count is_ok (outcomes E qpdf a pdfs w);
             failed := failed c + count is_failure (outcomes E qpdf a pdfs w) |},
       w')
    ∧ length (outcomes E qpdf a pdfs w) = length pdfs
    ∧ length pdfs = count is_ok (outcomes E qpdf a pdfs w)
                    + count is_failure (outcomes E qpdf a pdfs w)
                    + count is_dry (outcomes E qpdf a pdfs w)
    ∧ (arg_dry_run a = true →
       Forall (λ o, o = (false, "DRY-RUN")) (outcomes E qpdf a pdfs w)
       ∧ fs w' = fs w ∧ spawned w' = spawned w).
Proof.
  induction pdfs as [|pdf rest IH]; intros c w Hall Hcon.
  - exists w. simpl. unfold ret. rewrite !Nat.add_0_r. by destruct c.
  - apply Forall_cons in Hall as [Hn Hall].
    destruct (fix_one_pdf_returns E qpdf pdf (arg_mode a) (arg_dry_run a) w
                (or_intror Hn)) as (ch & st & w1 & Hfix).
    simpl. unfold bind at 1. rewrite Hfix.
    set (w2 := ((if negb (arg_quiet a)
                 then print E (str pdf +:+ "  ->  " +:+ (ch, st).2)
                 else ret ()) w1).2).
    assert ((if negb (arg_quiet a)
             then print E (str pdf +:+ "  ->  " +:+ (ch, st).2)
             else ret ()) w1 = (Ok tt, w2)) as Hlog.
    { subst w2. by rewrite log_step. }
    assert (fs w2 = fs w1 ∧ spawned w2 = spawned w1) as [Hfs Hsp].
    { subst w2. rewrite log_step by done. by destruct (arg_quiet a). }
    unfold bind at 1. cbn zeta. rewrite Hlog.
    destruct (IH (tally c (ch, st).2) w2 Hall Hcon) as (w' & Hloop & Hlen & Hsum & Hdry).
    exists w'. rewrite Hloop.
    apply fix_one_pdf_status in Hfix as Hst.
    unfold count in *. simpl.
    destruct Hst as [(-> & -> & Hd)|[(-> & -> & Hd & ->)|(-> & Hd & m & ->)]].
    + rewrite tally_ok. cbn [total fixed failed]. 
      change (is_ok (true, "OK")) with true.
      change (is_failure (true, "OK")) with false.
      change (is_dry (true, "OK")) with false. simpl.
      split; [do 3 f_equal; lia|]. split; [lia|]. split; [lia|].
      intros Hd'. congruence.
    + rewrite tally_dry. cbn [total fixed failed].
      change (is_ok (false, "DRY-RUN")) with false.
      change (is_failure (false, "DRY-RUN")) with false.
      change (is_dry (false, "DRY-RUN")) with true. simpl.
      split; [do 3 f_equal; lia|]. split; [lia|]. split; [lia|].
      intros Hd'. destruct (Hdry Hd') as (? & ? & ?).
      split; [by constructor|]. split; congruence.
    + rewrite tally_failure. cbn [total fixed failed].
      change (is_ok (false, "FEHLER: " +:+ m)) with false.
      rewrite !is_failure_fehler.
      change (is_dry (false, "FEHLER: " +:+ m)) with false. simpl.
      split; [do 3 f_equal; lia|]. split; [lia|]. split; [lia|].
      intros Hd'. congruence.
Qed.

Lemma count_failure_dry os :
  Forall (λ o, o = (false, "DRY-RUN")) os → count is_failure os = 0.
Proof.
  unfold count. induction 1 as [|o os -> _ IH]; [done|]. simpl. exact IH.
Qed.



(** ** find_qpdf: further properties *)

Lemma anchor_start E s :
  (if nonempty (anchor_of s) then [] else cwd E) = start_dir E s.
Proof.
  destruct s as [|c s]; [done|].
  destruct c as [[] [] [] [] [] [] [] []]; try reflexivity.
  destruct s as [|c s]; [done|].
  destruct c as [[] [] [] [] [] [] [] []]; try reflexivity.
  destruct s as [|c s]; [done|].
  destruct c as [[] [] [] [] [] [] [] []]; reflexivity.
Qed.

Lemma find_qpdf_given E s w :
  nonempty s = true →
  find_qpdf E (Some s) w
  = (match locate (fs w) (start_dir E s) (Path_of s) with
     | Some _ => Ok (str_pure (PurePath_of s))
     | None => Raise (FileNotFoundError ("qpdf nicht gefunden unter: " +:+ s))
     end, w).
Proof.
  intros Hs. unfold find_qpdf, truthy, bind, exists_pure, ret, raise.
  rewrite Hs. cbn [default PurePath_of anchor parts].
  rewrite anchor_start. by destruct (locate _ _ _).
Qed.

Lemma find_qpdf_searched E explicit w :
  truthy explicit = false →
  find_qpdf E explicit w
  = (if truthy (which E "qpdf") then Ok (default "" (which E "qpdf"))
     else Raise (FileNotFoundError qpdf_missing), w).
Proof.
  intros He. unfold find_qpdf. rewrite He. unfold ret, raise.
  by destruct (truthy (which E "qpdf")).
Qed.

(** X1.  An explicit tool path overrides the search path altogether: the
    outcome is the same under any two environments with the same working
    directory.  The path is looked up as the operating system does it, a
    relative one from the working directory and [..] leading one directory
    up.  If it leads nowhere the call raises [FileNotFoundError] naming the
    path as it was given, even when [shutil.which] would find a tool; if it
    leads to an entry of any kind, also a directory, the call returns the
    path as [pathlib] writes it, a relative path still relative.  The world
    is left as it was. *)
Theorem find_qpdf_explicit_overrides E1 E2 s w :
  s ≠ "" →
  cwd E1 = cwd E2 →
  find_qpdf E1 (Some s) w = find_qpdf E2 (Some s) w
  ∧ (find_qpdf E1 (Some s) w).2 = w
  ∧ (locate (fs w) (start_dir E1 s) (Path_of s) = None →
     (find_qpdf E1 (Some s) w).1
     = Raise (FileNotFoundError ("qpdf nicht gefunden unter: " +:+ s)))
  ∧ (locate (fs w) (start_dir E1 s) (Path_of s) ≠ None →
     (find_qpdf E1 (Some s) w).1 = Ok (str_pure (PurePath_of s))).
Proof.
  intros Hs Hcwd.
  assert (nonempty s = true) as Hne by (by destruct s).
  rewrite !find_qpdf_given by done.
  assert (start_dir E2 s = start_dir E1 s) as ->.
  { unfold start_dir. by rewrite Hcwd. }
  split; [done|]. split; [done|].
  destruct (locate _ _ _); simpl; split; congruence.
Qed.

(** From the working directory [/docs]: a relative path is found and
    returned relative; a path through [..] is followed and returned as
    given; repeated separators and [.] are dropped; a path that leads
    nowhere is reported as given. *)
Lemma find_qpdf_explicit_overrides_witness :
  (find_qpdf docs_env (Some "sub/D.PDF") sample_world).1 = Ok "sub/D.PDF"
  ∧ (find_qpdf docs_env (Some "/docs/sub/../a.pdf") sample_world).1
    = Ok "/docs/sub/../a.pdf"
  ∧ (find_qpdf docs_env (Some ".//sub/./") sample_world).1 = Ok "sub"
  ∧ (find_qpdf docs_env (Some "docs/a.pdf") sample_world).1
    = Raise (FileNotFoundError "qpdf nicht gefunden unter: docs/a.pdf")
  ∧ (find_qpdf docs_env (Some "a.pdf/..") sample_world).1
    = Raise (FileNotFoundError "qpdf nicht gefunden unter: a.pdf/..").
Proof.
  split; [|split; [|split; [|split]]].
  - apply (find_qpdf_explicit_overrides docs_env docs_env "sub/D.PDF"
             sample_world); [discriminate|reflexivity|].
    vm_compute. discriminate.
  - apply (find_qpdf_explicit_overrides docs_env docs_env
             "/docs/sub/../a.pdf" sample_world); [discriminate|reflexivity|].
    vm_compute. discriminate.
  - apply (find_qpdf_explicit_overrides docs_env docs_env ".//sub/./"
             sample_world); [discriminate|reflexivity|].
    vm_compute. discriminate.
  - apply (find_qpdf_explicit_overrides docs_env docs_env "docs/a.pdf"
             sample_world); [discriminate|reflexivity|].
    vm_compute. reflexivity.
  - apply (find_qpdf_explicit_overrides docs_env docs_env "a.pdf/.."
             sample_world); [discriminate|reflexivity|].
    vm_compute. reflexivity.
Defined.

(** X2.  Without an explicit path, and likewise with the empty string given
    for one, the outcome is decided by the search path alone: it is the same
    in any two worlds, it is what [shutil.which("qpdf")] found if that is a
    non-empty string, and otherwise [FileNotFoundError] with the advice to
    install the tool or to pass its path. *)
Theorem find_qpdf_search_path E explicit w1 w2 :
  truthy explicit = false →
  (find_qpdf E explicit w1).1 = (find_qpdf E explicit w2).1
  ∧ (find_qpdf E explicit w1).2 = w1
  ∧ (∀ found, which E "qpdf" = Some found → nonempty found = true →
     (find_qpdf E explicit w1).1 = Ok found)
  ∧ (which E "qpdf" = None →
     (find_qpdf E explicit w1).1 = Raise (FileNotFoundError qpdf_missing)).
Proof.
  intros He. rewrite !find_qpdf_searched by done.
  split; [done|]. split; [done|]. split.
  - intros found -> Hf. simpl. by rewrite Hf.
  - by intros ->.
Qed.

Lemma find_qpdf_search_path_witness :
  (find_qpdf (env_of writing_tool) (Some "") sample_world).1 = Ok "/usr/bin/qpdf"
  ∧ (find_qpdf no_qpdf_env None sample_world).1
    = Raise (FileNotFoundError qpdf_missing).
Proof.
  split.
  - apply (find_qpdf_search_path (env_of writing_tool) (Some "") sample_world
             sample_world eq_refl) with (found := "/usr/bin/qpdf"); reflexivity.
  - apply (find_qpdf_search_path no_qpdf_env None sample_world sample_world
             eq_refl). reflexivity.
Defined.

(** ** run_qpdf: further properties *)

(** X3.  [run_qpdf] starts the tool exactly once for a mode it knows, with
    the arguments [qpdf, option, source, output] in that order, whether the
    tool then succeeds, fails or cannot be started, and it prints nothing.
    For any other mode string (the comparison is exact) it raises
    [ValueError] naming the mode, starts nothing and leaves the world as it
    was. *)
Theorem run_qpdf_spawns E qpdf src tmp_out mode w :
  spawned (run_qpdf E qpdf src tmp_out mode w).2
  = spawned w ++ qpdf_commands qpdf src tmp_out mode
  ∧ console_out (run_qpdf E qpdf src tmp_out mode w).2 = console_out w
  ∧ console_err (run_qpdf E qpdf src tmp_out mode w).2 = console_err w
  ∧ (qpdf_flag mode = None →
     run_qpdf E qpdf src tmp_out mode w
     = (Raise (ValueError ("Unbekannter Modus: " +:+ mode)), w)).
Proof.
  destruct (run_qpdf_world E qpdf src tmp_out mode w) as (H1 & H2 & H3).
  split; [done|]. split; [done|]. split; [done|].
  intros Hm. by rewrite run_qpdf_eval, Hm.
Qed.

(** X4.  [run_qpdf] returns normally exactly when the mode is known, the
    tool could be started and its return code is 0; what the tool wrote to
    its standard output or standard error plays no part.  Any other return
    code, positive or negative, makes it raise. *)
Theorem run_qpdf_ok_iff E qpdf src tmp_out mode w :
  (run_qpdf E qpdf src tmp_out mode w).1 = Ok tt
  ↔ ∃ flag proc n',
      qpdf_flag mode = Some flag
      ∧ tool E [qpdf; flag; str src; str tmp_out] (fs w) = (Ok proc, n')
      ∧ returncode proc = 0%Z.
Proof.
  rewrite run_qpdf_eval.
  destruct (qpdf_flag mode) as [flag|].
  - rewrite subprocess_run_eval.
    destruct (tool E _ (fs w)) as [[proc|e] n'] eqn:Ht; simpl.
    + destruct (returncode proc =? 0)%Z eqn:Hz.
      * apply Z.eqb_eq in Hz. split; [eauto 6|done].
      * apply Z.eqb_neq in Hz. split; [done|].
        intros (f & p & n & Hf & Ht' & Hp).
        injection Hf as <-. rewrite Ht in Ht'. by simplify_eq.
    + split; [done|]. intros (f & p & n & Hf & Ht' & Hp).
      injection Hf as <-. rewrite Ht in Ht'. by simplify_eq.
  - simpl. split; [done|]. intros (? & ? & ? & [=] & _).
Qed.

(** X5.  The reason a failed tool run is reported with is never blank: after
    a non-zero return code the message of the [RuntimeError] is not empty
    and does not begin with white space (of the Unicode kind [str.strip]
    removes), whatever the tool printed, nothing at all included. *)
Theorem run_qpdf_message_not_blank E qpdf src tmp_out mode flag w proc n' :
  qpdf_flag mode = Some flag →
  tool E [qpdf; flag; str src; str tmp_out] (fs w) = (Ok proc, n') →
  returncode proc ≠ 0%Z →
  ∃ msg,
    (run_qpdf E qpdf src tmp_out mode w).1 = Raise (RuntimeError msg)
    ∧ msg ≠ ""
    ∧ ¬ starts_with_space msg.
Proof.
  intros Hflag Htool Hrc. rewrite run_qpdf_eval, Hflag, subprocess_run_eval, Htool.
  apply Z.eqb_neq in Hrc. simpl. rewrite Hrc.
  eexists. split; [reflexivity|].
  destruct (strip_stripped (str_or (stderr proc) (stdout proc)))
    as (_ & Hstart & _).
  unfold str_or at 1.
  destruct (strip (str_or (stderr proc) (stdout proc))) as [|c t]; simpl.
  - split; [done|]. by apply space_prefix_None.
  - split; [done|]. exact Hstart.
Qed.

Lemma run_qpdf_message_not_blank_witness :
  ∃ msg,
    (run_qpdf (env_of rejecting_tool) "qpdf" ["docs"; "a.pdf"]
       ["docs"; ".a.pdf.qpdf_tmp"] "linearize" sample_world).1
    = Raise (RuntimeError msg)
    ∧ msg ≠ ""
    ∧ ¬ starts_with_space msg.
Proof.
  eapply (run_qpdf_message_not_blank (env_of rejecting_tool) "qpdf"
            ["docs"; "a.pdf"] ["docs"; ".a.pdf.qpdf_tmp"] "linearize"
            "--linearize" sample_world).
  - reflexivity.
  - reflexivity.
  - simpl. discriminate.
Defined.

(** X6.  White space on the standard error hides the standard output: when
    the tool fails with a standard error that is not empty but consists of
    white space only (of the Unicode kind [str.strip] removes), the message
    is the return-code fallback, and whatever the tool wrote to its standard
    output is not reported. *)
Theorem run_qpdf_blank_stderr E qpdf src tmp_out mode flag w proc n' :
  qpdf_flag mode = Some flag →
  tool E [qpdf; flag; str src; str tmp_out] (fs w) = (Ok proc, n') →
  returncode proc ≠ 0%Z →
  stderr proc ≠ "" →
  Blank (stderr proc) →
  (run_qpdf E qpdf src tmp_out mode w).1
  = Raise (RuntimeError ("qpdf returncode=" +:+ pretty (returncode proc))).
Proof.
  intros Hflag Htool Hrc Hne Hblank.
  rewrite run_qpdf_eval, Hflag, subprocess_run_eval, Htool.
  apply Z.eqb_neq in Hrc. simpl. rewrite Hrc.
  unfold str_or at 2.
  assert (nonempty (stderr proc) = true) as -> by (by destruct (stderr proc)).
  apply strip_Blank in Hblank as ->. reflexivity.
Qed.

(** The standard error holds a no-break space, a line separator and a line
    feed. *)
Lemma run_qpdf_blank_stderr_witness :
  (run_qpdf (env_of nbsp_tool) "qpdf" ["docs"; "a.pdf"]
     ["docs"; ".a.pdf.qpdf_tmp"] "linearize" sample_world).1
  = Raise (RuntimeError "qpdf returncode=2").
Proof.
  apply (run_qpdf_blank_stderr (env_of nbsp_tool) "qpdf" ["docs"; "a.pdf"]
           ["docs"; ".a.pdf.qpdf_tmp"] "linearize" "--linearize" sample_world
           {| returncode := 2; stdout := "cannot open input";
              stderr := utf8 160 +:+ utf8 8232 +:+ utf8 10 |} sample_tree).
  - reflexivity.
  - reflexivity.
  - simpl. discriminate.
  - discriminate.
  - apply (Blank_cons (utf8 160)); [vm_compute; tauto|].
    apply (Blank_cons (utf8 8232)); [vm_compute; tauto|].
    rewrite <- (string_app_empty_r (utf8 10)).
    apply (Blank_cons (utf8 10)); [vm_compute; tauto|]. constructor.
Defined.

(** ** The temp path *)

Lemma string_app_inj_r s1 s2 t : s1 +:+ t = s2 +:+ t → s1 = s2.
Proof.
  revert s2. induction s1 as [|a s1 IH]; intros [|c s2] H.
  - done.
  - apply (f_equal String.length) in H.
    rewrite !string_length_app in H. simpl in H. lia.
  - apply (f_equal String.length) in H.
    rewrite !string_length_app in H. simpl in H. lia.
  - unfold String.append in H; fold String.append in H.
    injection H as -> H. f_equal. by apply IH.
Qed.

Lemma name_tmp_path_of pdf :
  name (tmp_path_of pdf) = String "." (name pdf) +:+ ".qpdf_tmp".
Proof. unfold tmp_path_of, name at 1. by rewrite last_last. Qed.

Lemma suffix_tmp_path_of pdf : suffix (tmp_path_of pdf) = ".qpdf_tmp".
Proof.
  unfold suffix. rewrite name_tmp_path_of.
  set (s := String "." (name pdf)).
  rewrite rfind_app. change (rfind "." ".qpdf_tmp") with (Some 0).
  cbv beta iota. rewrite Nat.add_0_r, string_length_app.
  change (String.length ".qpdf_tmp") with 9.
  assert (0 < String.length s) as Hpos by (subst s; simpl; lia).
  assert ((0 <? String.length s) = true) as -> by by apply Nat.ltb_lt.
  assert ((String.length s <? String.length s + 9 - 1) = true) as ->
    by (apply Nat.ltb_lt; lia).
  simpl andb. cbv iota.
  replace (String.length s + 9 - String.length s) with 9 by lia.
  apply (substring_app_tail s ".qpdf_tmp").
Qed.

Lemma looks_like_pdf_tmp pdf w : looks_like_pdf (tmp_path_of pdf) w = false.
Proof. unfold looks_like_pdf. by rewrite suffix_tmp_path_of. Qed.

(** X7.  The file a repair stages its output in is never taken for a PDF:
    [is_pdf_file] answers [False] for the temp path of any path, whatever the
    file holds, so no walk ever yields a temp file as a candidate, also not
    one left behind by a run that was killed. *)
Theorem tmp_path_never_candidate pdf root w :
  is_pdf_file (tmp_path_of pdf) w = (Ok false, w)
  ∧ ¬ In (tmp_path_of pdf) (candidates root w).
Proof.
  split.
  - by rewrite is_pdf_file_eval, looks_like_pdf_tmp.
  - rewrite candidates_eval. intros [_ H]%filter_In.
    by rewrite looks_like_pdf_tmp in H.
Qed.

(** X8.  Different candidates never share a temp path: on paths that have a
    name, the temp path determines the source path.  The temp path is also
    never the source path itself. *)
Theorem tmp_path_of_injective (p1 p2 : Path) :
  nonempty (name p1) = true →
  nonempty (name p2) = true →
  tmp_path_of p1 = tmp_path_of p2 →
  p1 = p2 ∧ tmp_path_of p1 ≠ p1.
Proof.
  intros H1 H2 Heq. split.
  - unfold tmp_path_of in Heq. apply app_inj_tail in Heq as [Hpar Hname].
    change ("." +:+ name p1 +:+ ".qpdf_tmp")
      with (String "." (name p1) +:+ ".qpdf_tmp") in Hname.
    change ("." +:+ name p2 +:+ ".qpdf_tmp")
      with (String "." (name p2) +:+ ".qpdf_tmp") in Hname.
    apply string_app_inj_r in Hname. injection Hname as Hname.
    rewrite (path_split p1 H1), (path_split p2 H2). congruence.
  - destruct (siblings p1 H1) as (dir & nm & tn & Hp & Ht & Hne).
    rewrite Ht, Hp. intros [_ ?]%app_inj_tail. done.
Qed.

Lemma tmp_path_of_injective_witness :
  ["docs"; "a.pdf"] = ["docs"; "a.pdf"]
  ∧ tmp_path_of ["docs"; "a.pdf"] ≠ ["docs"; "a.pdf"].
Proof.
  apply (tmp_path_of_injective ["docs"; "a.pdf"] ["docs"; "a.pdf"]);
    reflexivity.
Defined.

(** ** fix_one_pdf: further properties *)

Lemma discard_world p w :
  spawned (discard p w) = spawned w
  ∧ console_out (discard p w) = console_out w
  ∧ console_err (discard p w) = console_err w.
Proof. unfold discard. by repeat case_match. Qed.

Lemma replace_world src dst w :
  spawned (replace src dst w).2 = spawned w
  ∧ console_out (replace src dst w).2 = console_out w
  ∧ console_err (replace src dst w).2 = console_err w.
Proof. unfold replace. by repeat case_match. Qed.

Lemma fix_one_pdf_world E qpdf pdf mode w :
  nonempty (name pdf) = true →
  spawned (fix_one_pdf E qpdf pdf mode false w).2
  = spawned w ++ qpdf_commands qpdf pdf (tmp_path_of pdf) mode
  ∧ console_out (fix_one_pdf E qpdf pdf mode false w).2 = console_out w
  ∧ console_err (fix_one_pdf E qpdf pdf mode false w).2 = console_err w.
Proof.
  intros Hn. rewrite fix_one_pdf_stages by done. cbn zeta.
  set (tmp := tmp_path_of pdf).
  destruct (discard_world tmp w) as (Hs1 & Ho1 & He1).
  destruct (run_qpdf_world E qpdf pdf tmp mode (discard tmp w)) as (Hs2 & Ho2 & He2).
  rewrite Hs1, Ho1, He1 in *.
  destruct (run_qpdf E qpdf pdf tmp mode (discard tmp w)) as [[[]|e] w2];
    simpl in Hs2, Ho2, He2.
  - destruct (get (fs w2) tmp) as [n|].
    + destruct (st_size E n <? 10).
      * cbn [snd]. destruct (discard_world tmp w2) as (-> & -> & ->). done.
      * destruct (replace_world tmp pdf w2) as (Hs3 & Ho3 & He3).
        destruct (replace tmp pdf w2) as [[[]|e] w3]; cbn [snd] in *.
        -- by rewrite Hs3, Ho3, He3.
        -- destruct (discard_world tmp w3) as (-> & -> & ->).
           by rewrite Hs3, Ho3, He3.
    + cbn [snd]. destruct (discard_world tmp w2) as (-> & -> & ->). done.
  - cbn [snd]. destruct (discard_world tmp w2) as (-> & -> & ->). done.
Qed.

(** X9.  A real repair of a named candidate starts the tool exactly once
    when the mode is known, with the candidate as its input and the hidden
    sibling as its output (never the candidate itself), and not at all when
    the mode is unknown; it never prints.  This holds on every path through
    the function, failures included. *)
Theorem fix_one_pdf_spawns_once E qpdf pdf mode w :
  nonempty (name pdf) = true →
  spawned (fix_one_pdf E qpdf pdf mode false w).2
  = spawned w ++ match qpdf_flag mode with
                 | Some flag => [[qpdf; flag; str pdf; str (tmp_path_of pdf)]]
                 | None => []
                 end
  ∧ console_out (fix_one_pdf E qpdf pdf mode false w).2 = console_out w
  ∧ console_err (fix_one_pdf E qpdf pdf mode false w).2 = console_err w.
Proof. apply fix_one_pdf_world. Qed.

Lemma fix_one_pdf_spawns_once_witness :
  spawned (fix_one_pdf (env_of writing_tool) "/usr/bin/qpdf" ["docs"; "c.pdf"]
             "linearize" false sample_world).2
  = [["/usr/bin/qpdf"; "--linearize"; "/docs/c.pdf"; "/docs/.c.pdf.qpdf_tmp"]].
Proof.
  apply (fix_one_pdf_spawns_once (env_of writing_tool) "/usr/bin/qpdf"
           ["docs"; "c.pdf"] "linearize" sample_world eq_refl).
Defined.

Lemma get_remove_apart p : ∀ q n, apart p q → get (remove p n) q = get n q.
Proof.
  induction p as [|c p IH]; intros q n [Hpq Hqp].
  { destruct Hpq. apply prefix_nil. }
  destruct q as [|d q]; [destruct Hqp; apply prefix_nil|].
  destruct n as [r l data|es]; [done|].
  destruct p as [|c' p].
  - assert (c ≠ d) as Hne.
    { intros ->. apply Hpq. exists q. done. }
    simpl. by rewrite assoc_drop_child_ne.
  - change (remove (c :: c' :: p) (Dir es))
      with (Dir (on_child c (remove (c' :: p)) es)).
    simpl. destruct (decide (c = d)) as [->|Hne].
    + rewrite assoc_on_child_eq. destruct (assoc d es) as [ch|]; [|done].
      simpl. apply IH. split.
      * intros H. apply Hpq. by apply prefix_cons.
      * intros H. apply Hqp. by apply prefix_cons.
    + by rewrite assoc_on_child_ne.
Qed.

Lemma get_put_apart p v : ∀ q n, apart p q → get (put p v n) q = get n q.
Proof.
  induction p as [|c p IH]; intros q n [Hpq Hqp].
  { destruct Hpq. apply prefix_nil. }
  destruct q as [|d q]; [destruct Hqp; apply prefix_nil|].
  destruct n as [r l data|es]; [done|].
  destruct p as [|c' p].
  - assert (c ≠ d) as Hne.
    { intros ->. apply Hpq. exists q. done. }
    simpl. by rewrite assoc_set_child_ne.
  - change (put (c :: c' :: p) v (Dir es))
      with (Dir (on_child c (put (c' :: p) v) es)).
    simpl. destruct (decide (c = d)) as [->|Hne].
    + rewrite assoc_on_child_eq. destruct (assoc d es) as [ch|]; [|done].
      simpl. apply IH. split.
      * intros H. apply Hpq. by apply prefix_cons.
      * intros H. apply Hqp. by apply prefix_cons.
    + by rewrite assoc_on_child_ne.
Qed.

Lemma discard_apart p q w :
  apart p q → get (fs (discard p w)) q = get (fs w) q.
Proof.
  intros H. unfold discard.
  destruct (get (fs w) p) as [[r [] data|es]|]; simpl; try done.
  by apply get_remove_apart.
Qed.

Lemma replace_apart src dst q w :
  apart src q → apart dst q →
  get (fs (replace src dst w).2) q = get (fs w) q.
Proof.
  intros Hs Hd.
  destruct (replace src dst w) as [[[]|e] w'] eqn:Hrep; simpl.
  - apply replace_moves in Hrep as (s & _ & ->). simpl.
    rewrite get_put_apart by done. by apply get_remove_apart.
  - by apply replace_raises in Hrep as ->.
Qed.

Lemma fix_one_pdf_apart E qpdf pdf mode w (q : Path) :
  nonempty (name pdf) = true →
  apart pdf q →
  apart (tmp_path_of pdf) q →
  (∀ cmd n, In cmd (qpdf_commands qpdf pdf (tmp_path_of pdf) mode) →
            get (tool E cmd n).2 q = get n q) →
  get (fs (fix_one_pdf E qpdf pdf mode false w).2) q = get (fs w) q.
Proof.
  intros Hn Hpdf Htmp Htool.
  rewrite fix_one_pdf_stages by done. cbn zeta.
  set (tmp := tmp_path_of pdf) in *.
  pose proof (run_qpdf_frame_on E qpdf pdf tmp mode (discard tmp w) q Htool) as Hrun.
  rewrite discard_apart in Hrun by done.
  destruct (run_qpdf E qpdf pdf tmp mode (discard tmp w)) as [[[]|e] w2];
    simpl in Hrun.
  - destruct (get (fs w2) tmp) as [n|].
    + destruct (st_size E n <? 10).
      * simpl. by rewrite discard_apart.
      * pose proof (replace_apart tmp pdf q w2 Htmp Hpdf) as Hrep.
        destruct (replace tmp pdf w2) as [[[]|e] w3]; simpl in *.
        -- congruence.
        -- rewrite discard_apart by done. congruence.
    + simpl. by rewrite discard_apart.
  - simpl. by rewrite discard_apart.
Qed.

(** X10.  A repair leaves every other file alone.  For a path that is
    neither the candidate nor its temp path, nor above or below either of
    them, and that the tool does not change when it is run with the command
    line of this repair, what the path holds after [fix_one_pdf] is what it
    held before, on every path through the function. *)
Theorem fix_one_pdf_frame E qpdf pdf mode w (q : Path) :
  nonempty (name pdf) = true →
  apart pdf q →
  apart (tmp_path_of pdf) q →
  (∀ cmd n, In cmd (qpdf_commands qpdf pdf (tmp_path_of pdf) mode) →
            get (tool E cmd n).2 q = get n q) →
  get (fs (fix_one_pdf E qpdf pdf mode false w).2) q = get (fs w) q.
Proof. apply fix_one_pdf_apart. Qed.

Lemma fix_one_pdf_frame_witness :
  get (fs (fix_one_pdf (env_of writing_tool) "/usr/bin/qpdf" ["docs"; "a.pdf"]
             "linearize" false sample_world).2) ["docs"; "b.pdf"]
  = get (fs sample_world) ["docs"; "b.pdf"].
Proof.
  apply (fix_one_pdf_frame (env_of writing_tool) "/usr/bin/qpdf"
           ["docs"; "a.pdf"] "linearize" sample_world ["docs"; "b.pdf"]).
  - reflexivity.
  - split; intros [k Hk]; simplify_eq.
  - split; intros [k Hk]; simplify_eq.
  - intros cmd n [<-|[]].
    change (get (put ["docs"; ".a.pdf.qpdf_tmp"]
                   (File true false linearized_bytes) n) ["docs"; "b.pdf"]
            = get n ["docs"; "b.pdf"]).
    apply get_put_apart.
    split; intros [k Hk]; simplify_eq.
Defined.

(** X11.  A temp file left behind by an earlier run is never promoted.  If
    the candidate is a regular file and the tool exits without touching
    either the candidate or the temp path, then whatever lay at the temp
    path before the call, the call reports a failure and the candidate holds
    what it held. *)
Theorem stale_temp_never_promoted E qpdf pdf mode w r l data :
  nonempty (name pdf) = true →
  get (fs w) pdf = Some (File r l data) →
  (∀ cmd n, get (tool E cmd n).2 pdf = get n pdf
            ∧ get (tool E cmd n).2 (tmp_path_of pdf) = get n (tmp_path_of pdf)) →
  ∃ msg,
    (fix_one_pdf E qpdf pdf mode false w).1 = Ok (false, "FEHLER: " +:+ msg)
    ∧ get (fs (fix_one_pdf E qpdf pdf mode false w).2) pdf
      = Some (File r l data).
Proof.
  intros Hn Hpdf Htool.
  rewrite fix_one_pdf_stages by done. cbn zeta.
  destruct (siblings pdf Hn) as (dir & nm & tn & Hp & Ht & Hne).
  rewrite Ht in *. set (tmp := dir ++ [tn]) in *.
  assert (get (fs (discard tmp w)) pdf = Some (File r l data)) as Hpdf1.
  { rewrite Hp in *. subst tmp. by rewrite discard_sibling. }
  pose proof (run_qpdf_frame_on E qpdf pdf tmp mode (discard tmp w) pdf
                (λ cmd n _, proj1 (Htool cmd n))) as Hrun_pdf.
  pose proof (run_qpdf_frame_on E qpdf pdf tmp mode (discard tmp w) tmp
                (λ cmd n _, proj2 (Htool cmd n))) as Hrun_tmp.
  assert (∀ w', get (fs w') pdf = Some (File r l data) →
                get (fs (discard tmp w')) pdf = Some (File r l data)) as Hkeep.
  { intros w' H. rewrite Hp in *. subst tmp. by rewrite discard_sibling. }
  destruct (run_qpdf E qpdf pdf tmp mode (discard tmp w)) as [[[]|e] w2];
    simpl in Hrun_pdf, Hrun_tmp; rewrite Hpdf1 in Hrun_pdf.
  2:{ eexists. split; [reflexivity|]. by apply Hkeep. }
  destruct (get (fs w2) tmp) as [n|] eqn:Htmp2.
  2:{ eexists. split; [reflexivity|]. by apply Hkeep. }
  destruct (st_size E n <? 10).
  { eexists. split; [reflexivity|]. by apply Hkeep. }
  assert (undeletable n = true) as Hund.
  { subst tmp. destruct (discard_gone dir tn w) as [H|(n' & H & Hu)];
      rewrite H in Hrun_tmp; by simplify_eq. }
  assert (∃ e, replace tmp pdf w2 = (Raise e, w2)) as [e ->].
  { unfold replace. rewrite Htmp2, Hrun_pdf.
    destruct n as [r' [] data'|es]; simpl in *; try done; eauto. }
  eexists. split; [reflexivity|]. by apply Hkeep.
Qed.

Lemma stale_temp_never_promoted_witness :
  ∃ msg,
    (fix_one_pdf (env_of idle_tool) "/usr/bin/qpdf" ["docs"; "a.pdf"]
       "linearize" false (world_of stale_tree)).1
    = Ok (false, "FEHLER: " +:+ msg)
    ∧ get (fs (fix_one_pdf (env_of idle_tool) "/usr/bin/qpdf" ["docs"; "a.pdf"]
                 "linearize" false (world_of stale_tree)).2) ["docs"; "a.pdf"]
      = Some (File true false pdf_bytes).
Proof.
  apply (stale_temp_never_promoted (env_of idle_tool) "/usr/bin/qpdf"
           ["docs"; "a.pdf"] "linearize" (world_of stale_tree)
           true false pdf_bytes).
  - reflexivity.
  - reflexivity.
  - intros cmd n. split; reflexivity.
Defined.

(** X12.  When the tool cannot be started at all, the exception of
    [subprocess.run] is not lost: [run_qpdf] lets it through and the repair
    reports it, as [(False, "FEHLER: " + str(e))]. *)
Theorem fix_one_pdf_tool_not_startable E qpdf pdf mode flag w e n' :
  nonempty (name pdf) = true →
  qpdf_flag mode = Some flag →
  tool E [qpdf; flag; str pdf; str (tmp_path_of pdf)]
       (fs (discard (tmp_path_of pdf) w)) = (Raise e, n') →
  (run_qpdf E qpdf pdf (tmp_path_of pdf) mode (discard (tmp_path_of pdf) w)).1
  = Raise e
  ∧ (fix_one_pdf E qpdf pdf mode false w).1
    = Ok (false, "FEHLER: " +:+ str_exn e).
Proof.
  intros Hn Hflag Htool.
  rewrite fix_one_pdf_stages by done. cbn zeta.
  rewrite run_qpdf_eval, Hflag, subprocess_run_eval, Htool. done.
Qed.

Lemma fix_one_pdf_tool_not_startable_witness :
  (fix_one_pdf (env_of absent_tool) "qpdf" ["docs"; "a.pdf"] "linearize" false
     sample_world).1
  = Ok (false, "FEHLER: [Errno 2] No such file or directory: 'qpdf'").
Proof.
  apply (fix_one_pdf_tool_not_startable (env_of absent_tool) "qpdf"
           ["docs"; "a.pdf"] "linearize" "--linearize" sample_world
           (FileNotFoundError "[Errno 2] No such file or directory: 'qpdf'")
           sample_tree eq_refl eq_refl eq_refl).
Defined.

(** X13.  The pair [fix_one_pdf] returns is always of one of three shapes,
    which is what the counting in [main] relies on: the flag is [True]
    exactly when the status is ["OK"], the status is ["DRY-RUN"] exactly in a
    dry run, and every other status starts with ["FEHLER: "]. *)
Theorem fix_one_pdf_outcome_shape E qpdf pdf mode dry w changed status w' :
  fix_one_pdf E qpdf pdf mode dry w = (Ok (changed, status), w') →
  (changed = true ↔ status = "OK")
  ∧ (status = "DRY-RUN" ↔ dry = true)
  ∧ (status = "OK" ∨ status = "DRY-RUN"
     ∨ String.prefix "FEHLER: " status = true).
Proof.
  intros H. apply fix_one_pdf_status in H
    as [(-> & -> & ->)|[(-> & -> & -> & _)|(-> & -> & m & ->)]].
  - split; [done|]. split; [done|]. by left.
  - split; [done|]. split; [done|]. right. by left.
  - split; [done|]. split; [done|]. right. right. apply prefix_fehler.
Qed.

Lemma fix_one_pdf_outcome_shape_witness :
  (false = true ↔ "FEHLER: Malformed PDF" = "OK")
  ∧ ("FEHLER: Malformed PDF" = "DRY-RUN" ↔ false = true)
  ∧ ("FEHLER: Malformed PDF" = "OK" ∨ "FEHLER: Malformed PDF" = "DRY-RUN"
     ∨ String.prefix "FEHLER: " "FEHLER: Malformed PDF" = true).
Proof.
  apply (fix_one_pdf_outcome_shape (env_of rejecting_tool) "/usr/bin/qpdf"
           ["docs"; "a.pdf"] "linearize" false sample_world false
           "FEHLER: Malformed PDF"
           {| fs := sample_tree;
              spawned := [["/usr/bin/qpdf"; "--linearize"; "/docs/a.pdf";
                           "/docs/.a.pdf.qpdf_tmp"]];
              console_out := []; console_err := [] |}).
  vm_compute. reflexivity.
Defined.

(** ** iter_pdfs: further properties *)

Lemma candidates_exact root w p :
  In p (candidates root w)
  ↔ ∃ rel fn,
      p = root ++ rel ++ [fn]
      ∧ Forall allowed rel
      ∧ lower (suffix p) = ".pdf"
      ∧ ∃ l data, get (fs w) p = Some (File true l data)
                  ∧ take 5 data = pdf_magic.
Proof.
  split.
  - rewrite candidates_eval. intros [Hp Hpdf]%filter_In.
    apply in_flat_map in Hp as (t & Ht & Hp).
    apply in_map_iff in Hp as (fn & <- & _).
    destruct (walked_sound root w t Ht) as (rel & Hrel & Hall).
    exists rel, fn. rewrite Hrel, <- app_assoc. split; [done|]. split; [done|].
    rewrite Hrel, <- app_assoc in Hpdf. by apply looks_like_pdf_true.
  - intros (rel & fn & -> & Hall & Hpdf).
    apply iter_pdfs_complete; [done|]. by apply looks_like_pdf_true.
Qed.

(** X14.  [iter_pdfs] yields exactly the PDFs that the pruning leaves in
    reach: a path is yielded if and only if it is the root followed by
    directory names none of which is excluded and by a file name, its
    lower-cased suffix is [".pdf"], and it holds a readable regular file
    starting with [%PDF-].  The pruning does not apply to the root itself,
    and a root that is missing or is a regular file yields nothing. *)
Theorem iter_pdfs_exact root w :
  ∃ pdfs,
    iter_pdfs root w = (Ok pdfs, w)
    ∧ ∀ p, In p pdfs
           ↔ ∃ rel fn,
               p = root ++ rel ++ [fn]
               ∧ Forall allowed rel
               ∧ lower (suffix p) = ".pdf"
               ∧ ∃ l data, get (fs w) p = Some (File true l data)
                           ∧ take 5 data = pdf_magic.
Proof.
  eexists. split; [apply iter_pdfs_eval|]. intros p.
  rewrite <- candidates_eval. apply candidates_exact.
Qed.

Lemma assoc_In d es ch : assoc d es = Some ch → In (d, ch) es.
Proof.
  induction es as [|[k n] es IH]; [done|]. simpl.
  destruct (String.eqb k d) eqn:Hk.
  - apply String.eqb_eq in Hk as ->. intros [= ->]. by left.
  - intros H. right. by apply IH.
Qed.

Lemma NoDup_map_fst_filter (f : string * node → bool) es :
  List.NoDup (map fst es) → List.NoDup (map fst (List.filter f es)).
Proof.
  induction es as [|[k n] es IH]; [done|]. simpl.
  intros [Hk Hes]%List.NoDup_cons_iff.
  destruct (f (k, n)); [|by apply IH].
  simpl. apply List.NoDup_cons_iff. split; [|by apply IH].
  intros Hin. apply Hk.
  apply in_map_iff in Hin as (e & He & Hin).
  apply filter_In in Hin as [Hin _].
  apply in_map_iff. eauto.
Qed.

Lemma NoDup_flat_map {A B} (f : A → list B) l :
  List.NoDup l →
  (∀ x, In x l → List.NoDup (f x)) →
  (∀ x y b, In x l → In y l → In b (f x) → In b (f y) → x = y) →
  List.NoDup (flat_map f l).
Proof.
  induction l as [|a l IH]; intros Hl Hf Hdisj; [constructor|].
  apply List.NoDup_cons_iff in Hl as [Ha Hl]. simpl.
  apply List.NoDup_app.
  - apply Hf. by left.
  - apply IH; [done| |].
    + intros x Hx. apply Hf. by right.
    + intros x y b Hx Hy. apply Hdisj; by right.
  - intros b Hb Hb'. apply in_flat_map in Hb' as (y & Hy & Hb').
    assert (a = y) as Hay.
    { apply (Hdisj a y b); [by left|by right|done|done]. }
    by subst.
Qed.

Lemma NoDup_map_snoc (top : Path) (fns : list string) :
  List.NoDup fns → List.NoDup (map (λ fn, top ++ [fn]) fns).
Proof.
  induction fns as [|fn fns IH]; [constructor|].
  intros [Hfn Hfns]%List.NoDup_cons_iff. simpl.
  apply List.NoDup_cons_iff. split; [|by apply IH].
  intros Hin. apply in_map_iff in Hin as (fn' & Heq & Hin).
  apply app_inj_tail in Heq as [_ ->]. done.
Qed.

Lemma listed_cons t ts :
  listed (t :: ts) = map (λ fn, t.1.1 ++ [fn]) t.2 ++ listed ts.
Proof. reflexivity. Qed.

Lemma listed_flat_map {A} (f : A → list (Path * list string * list string)) l :
  listed (flat_map f l) = flat_map (λ x, listed (f x)) l.
Proof.
  induction l as [|a l IH]; [done|]. simpl.
  unfold listed in *. by rewrite flat_map_app, IH.
Qed.

Lemma listed_below top n p :
  In p (listed (os_walk prune_dirnames top n)) →
  ∃ rel fn, p = top ++ rel ++ [fn].
Proof.
  intros (t & Ht & Hp)%in_flat_map.
  apply in_map_iff in Hp as (fn & <- & _).
  apply os_walk_sound in Ht as (rel & es & -> & _ & _).
  exists rel, fn. simpl. by rewrite <- app_assoc.
Qed.

Lemma os_walk_listed_NoDup n : ∀ top,
  well_formed n → List.NoDup (listed (os_walk prune_dirnames top n)).
Proof.
  induction n as [r l data|es IH] using node_ind'; intros top Hwf;
    [constructor|].
  inversion Hwf as [|es' Hnames Hchildren]; subst.
  rewrite os_walk_dir, listed_cons, listed_flat_map. cbn [fst snd].
  apply List.NoDup_app.
  - apply NoDup_map_snoc. by apply NoDup_map_fst_filter.
  - apply NoDup_flat_map.
    + apply List.NoDup_filter. by apply NoDup_map_fst_filter.
    + intros d _. destruct (assoc d es) as [[r l data|x]|] eqn:Ha;
        try constructor.
      apply assoc_In in Ha.
      rewrite List.Forall_forall in IH, Hchildren.
      apply (IH _ Ha). apply (Hchildren _ Ha).
    + intros x y b _ _ Hx Hy.
      destruct (assoc x es) as [[? ? ?|ex]|]; try done.
      destruct (assoc y es) as [[? ? ?|ey]|]; try done.
      apply listed_below in Hx as (rx & fx & ->).
      apply listed_below in Hy as (ry & fy & Heq).
      rewrite <- !app_assoc in Heq. apply app_inv_head in Heq.
      by injection Heq.
  - intros p Hp Hp'.
    apply in_map_iff in Hp as (fn & <- & _).
    apply in_flat_map in Hp' as (d & _ & Hp').
    destruct (assoc d es) as [[? ? ?|x]|]; try done.
    apply listed_below in Hp' as (rel & fn' & Heq).
    rewrite <- !app_assoc in Heq. apply app_inv_head in Heq.
    simpl in Heq. injection Heq as _ Heq. by destruct rel.
Qed.

Lemma well_formed_get p : ∀ n m,
  well_formed n → get n p = Some m → well_formed m.
Proof.
  induction p as [|c p IH]; intros n m Hwf Hget.
  - by injection Hget as <-.
  - destruct n as [r l data|es]; [done|]. simpl in Hget.
    destruct (assoc c es) as [ch|] eqn:Ha; [|done].
    inversion Hwf as [|es' _ Hchildren]; subst.
    rewrite List.Forall_forall in Hchildren.
    apply (IH ch m); [|done]. apply (Hchildren _ (assoc_In _ _ _ Ha)).
Qed.

(** X15.  In a tree in which no directory lists a name twice, [iter_pdfs]
    yields no path twice. *)
Theorem iter_pdfs_no_duplicates root w :
  well_formed (fs w) →
  ∃ pdfs, iter_pdfs root w = (Ok pdfs, w) ∧ List.NoDup pdfs.
Proof.
  intros Hwf. eexists. split; [apply iter_pdfs_eval|].
  apply List.NoDup_filter. unfold walked.
  destruct (get (fs w) root) as [n|] eqn:Hroot; [|constructor].
  apply os_walk_listed_NoDup. by eapply well_formed_get.
Qed.

Lemma sample_tree_well_formed : well_formed sample_tree.
Proof.
  repeat first
    [ apply wf_file
    | apply wf_dir
    | apply List.NoDup_nil
    | apply List.NoDup_cons
    | apply Forall_nil_2
    | apply Forall_cons_2
    | progress simpl
    | (intros H; repeat destruct H as [H|H]; discriminate || done) ].
Qed.

Lemma iter_pdfs_no_duplicates_witness :
  ∃ pdfs, iter_pdfs ["docs"] sample_world = (Ok pdfs, sample_world)
          ∧ List.NoDup pdfs.
Proof.
  apply (iter_pdfs_no_duplicates ["docs"] sample_world).
  exact sample_tree_well_formed.
Defined.

Lemma filter_flat_map {A B} (f : B → bool) (g : A → list B) l :
  List.filter f (flat_map g l) = flat_map (λ x, List.filter f (g x)) l.
Proof.
  induction l as [|a l IH]; [done|]. simpl. by rewrite List.filter_app, IH.
Qed.

(** X16.  The order of the walk: for a root that is a directory, the paths
    yielded are first the PDFs among the directory's own files, in the order
    of its listing, and then, for each of its subdirectories whose
    lower-cased name is not excluded, in the order of the listing, what a
    walk from that subdirectory yields. *)
Theorem iter_pdfs_top_down root w es :
  get (fs w) root = Some (Dir es) →
  candidates root w
  = List.filter (λ p, looks_like_pdf p w)
      (map (λ fn, root ++ [fn]) (file_names es))
    ++ flat_map (λ d, candidates (root ++ [d]) w)
         (prune_dirnames (dir_names es)).
Proof.
  intros Hroot. rewrite candidates_eval. unfold walked at 1. rewrite Hroot.
  rewrite os_walk_dir, listed_cons, listed_flat_map, List.filter_app,
    filter_flat_map.
  cbn [fst snd]. f_equal. apply flat_map_ext. intros d.
  rewrite candidates_eval. unfold walked. rewrite get_app, Hroot. simpl.
  destruct (assoc d es) as [[r l data|x]|]; done.
Qed.

Lemma iter_pdfs_top_down_witness :
  candidates ["docs"] sample_world
  = [["docs"; "a.pdf"]; ["docs"; "c.pdf"]] ++ [["docs"; "sub"; "D.PDF"]].
Proof.
  erewrite (iter_pdfs_top_down ["docs"] sample_world) by reflexivity.
  vm_compute. reflexivity.
Defined.

(** X21.  A repair neither adds nor removes another candidate.  For a path
    that is neither the candidate nor its temp path, nor above or below
    either of them, and that the tool does not change when it is run with
    the command line of this repair, a walk after the repair yields the
    path if and only if a walk before it does. *)
Theorem fix_one_pdf_keeps_candidates E qpdf pdf mode w root (p : Path) :
  nonempty (name pdf) = true →
  apart pdf p →
  apart (tmp_path_of pdf) p →
  (∀ cmd n, In cmd (qpdf_commands qpdf pdf (tmp_path_of pdf) mode) →
            get (tool E cmd n).2 p = get n p) →
  In p (candidates root (fix_one_pdf E qpdf pdf mode false w).2)
  ↔ In p (candidates root w).
Proof.
  intros Hn Hpdf Htmp Htool. rewrite !candidates_exact.
  by rewrite (fix_one_pdf_apart E qpdf pdf mode w p Hn Hpdf Htmp Htool).
Qed.

Lemma fix_one_pdf_keeps_candidates_witness :
  In ["docs"; "sub"; "D.PDF"]
    (candidates ["docs"]
       (fix_one_pdf (env_of writing_tool) "/usr/bin/qpdf" ["docs"; "a.pdf"]
          "linearize" false sample_world).2)
  ↔ In ["docs"; "sub"; "D.PDF"] (candidates ["docs"] sample_world).
Proof.
  apply (fix_one_pdf_keeps_candidates (env_of writing_tool) "/usr/bin/qpdf"
           ["docs"; "a.pdf"] "linearize" sample_world ["docs"]
           ["docs"; "sub"; "D.PDF"]).
  - reflexivity.
  - split; intros [k Hk]; simplify_eq.
  - split; intros [k Hk]; simplify_eq.
  - intros cmd n [<-|[]].
    change (get (put ["docs"; ".a.pdf.qpdf_tmp"]
                   (File true false linearized_bytes) n) ["docs"; "sub"; "D.PDF"]
            = get n ["docs"; "sub"; "D.PDF"]).
    apply get_put_apart.
    split; intros [k Hk]; simplify_eq.
Defined.

(** ** The console *)

Lemma set_console_same w : set_console w (console_out w) (console_err w) = w.
Proof. by destruct w. Qed.

Lemma blind_ret {A} (a : A) : console_blind (ret a).
Proof. done. Qed.

Lemma blind_raise {A} e : console_blind (@raise A e).
Proof. done. Qed.

Lemma blind_lift {A} (r : result A) : console_blind (lift r).
Proof. done. Qed.

Lemma blind_bind {A B} (m : M A) (k : A → M B) :
  console_blind m → (∀ a, console_blind (k a)) → console_blind (bind m k).
Proof.
  intros Hm Hk w out err. unfold bind. rewrite Hm.
  destruct (m w) as [[a|e] w1]; simpl; [apply Hk|done].
Qed.

Lemma blind_try_except {A} (m : M A) (h : exn → M A) :
  console_blind m → (∀ e, console_blind (h e)) →
  console_blind (try_except m h).
Proof.
  intros Hm Hh w out err. unfold try_except. rewrite Hm.
  destruct (m w) as [[a|e] w1]; simpl; [done|apply Hh].
Qed.

Lemma blind_if {A} (b : bool) (m1 m2 : M A) :
  console_blind m1 → console_blind m2 →
  console_blind (if b then m1 else m2).
Proof. by destruct b. Qed.

Lemma blind_exists_ p : console_blind (exists_ p).
Proof. done. Qed.

Lemma blind_is_dir_ p : console_blind (is_dir_ p).
Proof. done. Qed.

Lemma blind_exists_pure E p : console_blind (exists_pure E p).
Proof. done. Qed.

Lemma blind_unlink p : console_blind (unlink p).
Proof. intros w out err. unfold unlink. simpl. by repeat case_match. Qed.

Lemma blind_stat_size E p : console_blind (stat_size E p).
Proof. intros w out err. unfold stat_size. simpl. by repeat case_match. Qed.

Lemma blind_replace src dst : console_blind (replace src dst).
Proof. intros w out err. unfold replace. simpl. by repeat case_match. Qed.

Lemma blind_read_head p k : console_blind (read_head p k).
Proof. intros w out err. unfold read_head. simpl. by repeat case_match. Qed.

Lemma blind_subprocess_run E cmd : console_blind (subprocess_run E cmd).
Proof.
  intros w out err. unfold subprocess_run. simpl.
  by destruct (tool E cmd (fs w)).
Qed.

Create HintDb blind.
#[local] Hint Resolve blind_ret blind_raise blind_lift blind_exists_
  blind_is_dir_ blind_exists_pure blind_unlink blind_stat_size blind_replace blind_read_head
  blind_subprocess_run : blind.

Ltac blind :=
  repeat (intros; cbn beta zeta;
          first [ apply blind_bind | apply blind_try_except | apply blind_if
                | solve [eauto with blind] ]).

Lemma blind_find_qpdf E explicit : console_blind (find_qpdf E explicit).
Proof. unfold find_qpdf. blind. Qed.

Lemma blind_run_qpdf E qpdf src tmp_out mode :
  console_blind (run_qpdf E qpdf src tmp_out mode).
Proof. unfold run_qpdf. blind. Qed.

Lemma blind_is_pdf_file path : console_blind (is_pdf_file path).
Proof. unfold is_pdf_file. blind. Qed.

Lemma blind_fix_one_pdf E qpdf pdf mode dry :
  console_blind (fix_one_pdf E qpdf pdf mode dry).
Proof.
  unfold fix_one_pdf. pose proof (blind_run_qpdf E) as Hrun. blind.
Qed.

Lemma blind_console {A} (m : M A) w :
  console_blind m →
  console_out (m w).2 = console_out w ∧ console_err (m w).2 = console_err w.
Proof.
  intros Hm. pose proof (Hm w (console_out w) (console_err w)) as H.
  rewrite set_console_same in H. apply (f_equal snd) in H. simpl in H.
  rewrite H. done.
Qed.

Lemma blind_respects {A} (m : M A) w1 w2 :
  console_blind m → same_system w1 w2 →
  (m w2).1 = (m w1).1
  ∧ same_system (m w1).2 (m w2).2
  ∧ console_out (m w2).2 = console_out w2
  ∧ console_err (m w2).2 = console_err w2.
Proof.
  intros Hm [Hfs Hsp].
  assert (w2 = set_console w1 (console_out w2) (console_err w2)) as Hw.
  { destruct w1, w2. simpl in *. by subst. }
  destruct (blind_console m w2 Hm) as [Ho He].
  split; [|split; [|done]].
  - rewrite Hw, Hm. done.
  - rewrite Hw, Hm. done.
Qed.

(** ** The walk driven by the loop *)

Lemma looks_like_pdf_fs p w1 w2 :
  fs w1 = fs w2 → looks_like_pdf p w1 = looks_like_pdf p w2.
Proof. unfold looks_like_pdf. by intros ->. Qed.

Lemma for_files_cons {A} (body : Path → A → M A) top fn rest acc w :
  for_files body top (fn :: rest) acc w
  = if looks_like_pdf (top ++ [fn]) w
    then match body (top ++ [fn]) acc w with
         | (Ok acc', w') => for_files body top rest acc' w'
         | (Raise e, w') => (Raise e, w')
         end
    else for_files body top rest acc w.
Proof.
  cbn [for_files]. unfold bind at 1. rewrite is_pdf_file_eval.
  unfold bind at 1. destruct (looks_like_pdf (top ++ [fn]) w); [|done].
  by destruct (body (top ++ [fn]) acc w) as [[acc'|e] w'].
Qed.

Lemma for_pdfs_nil {A} fuel (body : Path → A → M A) acc w :
  for_pdfs fuel body [] acc w = (Ok (Some acc), w).
Proof. by destruct fuel. Qed.

Lemma for_pdfs_step {A} fuel (body : Path → A → M A) top stack acc w :
  for_pdfs (S fuel) body (top :: stack) acc w
  = match get (fs w) top with
    | Some (Dir es) =>
        match for_files body top (file_names es) acc w with
        | (Ok acc', w') =>
            for_pdfs fuel body
              (map (λ d, top ++ [d]) (prune_dirnames (dir_names es)) ++ stack)
              acc' w'
        | (Raise e, w') => (Raise e, w')
        end
    | _ => for_pdfs fuel body stack acc w
    end.
Proof.
  cbn [for_pdfs]. by destruct (get (fs w) top) as [[r l data|es]|].
Qed.

(** More fuel does not change a walk that came to its end. *)
Lemma for_pdfs_more_fuel {A} (body : Path → A → M A) k : ∀ fuel stack acc w,
  finishes (for_pdfs fuel body stack acc w) →
  for_pdfs (fuel + k) body stack acc w = for_pdfs fuel body stack acc w.
Proof.
  induction fuel as [|fuel IH]; intros [|top stack] acc w Hfin.
  - by rewrite !for_pdfs_nil.
  - by destruct Hfin.
  - by rewrite !for_pdfs_nil.
  - change (S fuel + k) with (S (fuel + k)). rewrite !for_pdfs_step in *.
    destruct (get (fs w) top) as [[r l data|es]|]; try by apply IH.
    destruct (for_files body top (file_names es) acc w) as [[acc'|e] w'];
      [by apply IH|done].
Qed.

Section simulation.
Context {A B : Type} (R : A → B → Prop) (S : World → World → Prop).
Context (body1 : Path → A → M A) (body2 : Path → B → M B).
Hypothesis S_fs : ∀ w1 w2, S w1 w2 → fs w1 = fs w2.
Hypothesis body_related : ∀ p a b w1 w2,
  R a b → S w1 w2 → looks_like_pdf p w1 = true →
  related S R (body1 p a w1) (body2 p b w2).

Lemma for_files_related top : ∀ fns a b w1 w2,
  R a b → S w1 w2 →
  related S R (for_files body1 top fns a w1) (for_files body2 top fns b w2).
Proof.
  induction fns as [|fn fns IH]; intros a b w1 w2 HR HS; [done|].
  rewrite !for_files_cons.
  rewrite <- (looks_like_pdf_fs _ w1 w2) by by apply S_fs.
  destruct (looks_like_pdf (top ++ [fn]) w1) eqn:Hp; [|by apply IH].
  destruct (body_related (top ++ [fn]) a b w1 w2 HR HS Hp) as [HS' HR'].
  destruct (body1 (top ++ [fn]) a w1) as [[a'|e1] w1'],
           (body2 (top ++ [fn]) b w2) as [[b'|e2] w2']; simpl in *; try done.
  by apply IH.
Qed.

Lemma for_pdfs_related : ∀ fuel stack a b w1 w2,
  R a b → S w1 w2 →
  related S (option_Forall2 R)
    (for_pdfs fuel body1 stack a w1) (for_pdfs fuel body2 stack b w2).
Proof.
  induction fuel as [|fuel IH]; intros [|top stack] a b w1 w2 HR HS.
  - rewrite !for_pdfs_nil. split; [done|]. by constructor.
  - split; [done|]. constructor.
  - rewrite !for_pdfs_nil. split; [done|]. by constructor.
  - rewrite !for_pdfs_step. rewrite <- (S_fs w1 w2 HS).
    destruct (get (fs w1) top) as [[r l data|es]|]; try by apply IH.
    destruct (for_files_related top (file_names es) a b w1 w2 HR HS)
      as [HS' HR'].
    destruct (for_files body1 top (file_names es) a w1) as [[a'|e1] w1'],
             (for_files body2 top (file_names es) b w2) as [[b'|e2] w2'];
      simpl in *; try done.
    by apply IH.
Qed.
End simulation.

Section invariant.
Context {A : Type} (P : A → World → Prop) (body : Path → A → M A).
Hypothesis body_keeps : ∀ p a w,
  P a w → looks_like_pdf p w = true →
  match body p a w with
  | (Ok a', w') => P a' w'
  | (Raise _, _) => True
  end.

Lemma for_files_keeps top : ∀ fns a w,
  P a w →
  match for_files body top fns a w with
  | (Ok a', w') => P a' w'
  | (Raise _, _) => True
  end.
Proof.
  induction fns as [|fn fns IH]; intros a w HP; [done|].
  rewrite for_files_cons.
  destruct (looks_like_pdf (top ++ [fn]) w) eqn:Hp; [|by apply IH].
  pose proof (body_keeps (top ++ [fn]) a w HP Hp) as H.
  destruct (body (top ++ [fn]) a w) as [[a'|e] w']; [by apply IH|done].
Qed.

Lemma for_pdfs_keeps : ∀ fuel stack a w,
  P a w →
  match for_pdfs fuel body stack a w with
  | (Ok (Some a'), w') => P a' w'
  | _ => True
  end.
Proof.
  induction fuel as [|fuel IH]; intros [|top stack] a w HP;
    rewrite ?for_pdfs_nil; try done.
  rewrite for_pdfs_step.
  destruct (get (fs w) top) as [[r l data|es]|]; try by apply IH.
  pose proof (for_files_keeps top (file_names es) a w HP) as H.
  destruct (for_files body top (file_names es) a w) as [[a'|e] w'];
    [by apply IH|done].
Qed.
End invariant.

Lemma for_each_app {A} (body : Path → A → M A) l1 : ∀ l2 a w,
  for_each body (l1 ++ l2) a w
  = match for_each body l1 a w with
    | (Ok a', w') => for_each body l2 a' w'
    | (Raise e, w') => (Raise e, w')
    end.
Proof.
  induction l1 as [|p l1 IH]; intros l2 a w; [done|].
  simpl. unfold bind. destruct (body p a w) as [[a'|e] w']; [apply IH|done].
Qed.

Lemma listed_app t1 t2 : listed (t1 ++ t2) = listed t1 ++ listed t2.
Proof. unfold listed. apply flat_map_app. Qed.

(** *** A body that leaves the tree alone

    When no pass through the body changes the tree, as in a dry run, the
    lazy walk yields what [iter_pdfs] lists, and the number of scans it
    takes is fixed by the tree. *)
Section stable.
Context {A : Type} (body : Path → A → M A).
Hypothesis body_stable : ∀ p a w, fs (body p a w).2 = fs w.

Lemma for_each_stable pdfs : ∀ a w, fs (for_each body pdfs a w).2 = fs w.
Proof.
  induction pdfs as [|p pdfs IH]; intros a w; [done|].
  simpl. unfold bind. pose proof (body_stable p a w) as H.
  destruct (body p a w) as [[a'|e] w']; simpl in *; [by rewrite IH|done].
Qed.

Lemma filter_looks_fs l w w' :
  fs w' = fs w →
  List.filter (λ p, looks_like_pdf p w') l
  = List.filter (λ p, looks_like_pdf p w) l.
Proof. intros H. apply List.filter_ext. intros p. by apply looks_like_pdf_fs. Qed.

Lemma for_files_stable top : ∀ fns a w,
  for_files body top fns a w
  = for_each body
      (List.filter (λ p, looks_like_pdf p w) (map (λ fn, top ++ [fn]) fns))
      a w.
Proof.
  induction fns as [|fn fns IH]; intros a w; [done|].
  rewrite for_files_cons. simpl.
  destruct (looks_like_pdf (top ++ [fn]) w) eqn:Hp; [|apply IH].
  simpl. unfold bind. pose proof (body_stable (top ++ [fn]) a w) as Hfs.
  destruct (body (top ++ [fn]) a w) as [[a'|e] w']; [|done]. simpl in Hfs.
  rewrite IH. by rewrite (filter_looks_fs _ w w').
Qed.

Lemma visit_children es top :
  Forall (λ e, visited body e.2) es →
  ∀ ds, ∃ k, ∀ fuel stack a w,
    get (fs w) top = Some (Dir es) →
    for_pdfs (k + fuel) body (map (λ d, top ++ [d]) ds ++ stack) a w
    = match for_each body
              (List.filter (λ p, looks_like_pdf p w)
                 (listed
                    (flat_map
                       (λ d, match assoc d es with
                             | Some (Dir x) =>
                                 os_walk prune_dirnames (top ++ [d]) (Dir x)
                             | _ => []
                             end) ds))) a w with
      | (Ok a', w') => for_pdfs fuel body stack a' w'
      | (Raise e, w') => (Raise e, w')
      end.
Proof.
  intros IH. induction ds as [|d ds [k2 IHds]].
  { exists 0. intros fuel stack a w _. done. }
  destruct (assoc d es) as [ch|] eqn:Ha.
  - apply assoc_In in Ha as Hin.
    rewrite List.Forall_forall in IH.
    destruct (IH _ Hin (top ++ [d])) as [k1 Hk1]. simpl in Hk1.
    exists (k1 + k2). intros fuel stack a w Hget.
    cbn [map app flat_map]. rewrite Ha.
    rewrite <- Nat.add_assoc, Hk1
      by (rewrite get_app, Hget; simpl; by rewrite Ha).
    assert (match ch with
            | Dir x => os_walk prune_dirnames (top ++ [d]) (Dir x)
            | File _ _ _ => []
            end = os_walk prune_dirnames (top ++ [d]) ch) as ->
      by (by destruct ch).
    rewrite listed_app, List.filter_app, for_each_app.
    destruct (for_each body _ a w) as [[a'|e] w'] eqn:Hfe; [|done].
    assert (fs w' = fs w) as Hfs.
    { pose proof (for_each_stable
                    (List.filter (λ p, looks_like_pdf p w)
                       (listed (os_walk prune_dirnames (top ++ [d]) ch)))
                    a w) as H.
      by rewrite Hfe in H. }
    rewrite IHds by (by rewrite Hfs). by rewrite (filter_looks_fs _ w w').
  - exists (S k2). intros fuel stack a w Hget.
    cbn [map app flat_map]. rewrite Ha.
    change (S k2 + fuel) with (S (k2 + fuel)). rewrite for_pdfs_step.
    rewrite get_app, Hget. simpl. rewrite Ha. by apply IHds.
Qed.

Lemma visit_stable n : visited body n.
Proof.
  induction n as [r l data|es IH] using node_ind'; intros top.
  - exists 1. intros fuel stack a w Hget.
    change (1 + fuel) with (S fuel). by rewrite for_pdfs_step, Hget.
  - destruct (visit_children es top IH (prune_dirnames (dir_names es)))
      as [k Hk].
    exists (S k). intros fuel stack a w Hget.
    change (S k + fuel) with (S (k + fuel)).
    rewrite for_pdfs_step, Hget, for_files_stable.
    rewrite os_walk_dir, listed_cons, List.filter_app, for_each_app.
    cbn [fst snd].
    destruct (for_each body _ a w) as [[a'|e] w'] eqn:Hfe; [|done].
    assert (fs w' = fs w) as Hfs.
    { pose proof (for_each_stable
                    (List.filter (λ p, looks_like_pdf p w)
                       (map (λ fn, top ++ [fn]) (file_names es))) a w) as H.
      by rewrite Hfe in H. }
    rewrite Hk by (by rewrite Hfs). by rewrite (filter_looks_fs _ w w').
Qed.

(** From a root that exists, with fuel enough, the lazy walk is the loop
    over the list of [iter_pdfs]. *)
Lemma for_pdfs_stable root n a w :
  get (fs w) root = Some n →
  ∃ k, ∀ fuel, k ≤ fuel →
    for_pdfs fuel body [root] a w
    = match for_each body (candidates root w) a w with
      | (Ok a', w') => (Ok (Some a'), w')
      | (Raise e, w') => (Raise e, w')
      end.
Proof.
  intros Hget. destruct (visit_stable n root) as [k Hk].
  exists k. intros fuel Hle.
  replace fuel with (k + (fuel - k)) by lia.
  rewrite Hk by done. rewrite candidates_eval. unfold walked. rewrite Hget.
  destruct (for_each body _ a w) as [[a'|e] w']; [|done].
  by rewrite for_pdfs_nil.
Qed.
End stable.
(** ** main: the run *)

Lemma print_cases E line w :
  (stdout_error E (console_out w) line = None
   ∧ print E line w
     = (Ok tt, {| fs := fs w; spawned := spawned w;
                  console_out := console_out w ++ [line];
                  console_err := console_err w |}))
  ∨ ∃ e, stdout_error E (console_out w) line = Some e
         ∧ print E line w = (Raise e, w).
Proof.
  unfold print. destruct (stdout_error E (console_out w) line) as [e|]; eauto.
Qed.

Lemma print_err_cases E line w :
  (stderr_error E (console_err w) line = None
   ∧ print_err E line w
     = (Ok tt, {| fs := fs w; spawned := spawned w;
                  console_out := console_out w;
                  console_err := console_err w ++ [line] |}))
  ∨ ∃ e, stderr_error E (console_err w) line = Some e
         ∧ print_err E line w = (Raise e, w).
Proof.
  unfold print_err. destruct (stderr_error E (console_err w) line) as [e|]; eauto.
Qed.

(** The four [print] calls of the summary and the exit status. *)
Lemma summary_cases E (a : Args) c w r :
  r = (print E (String "010" "--- Ergebnis ---");;
       print E ("Gefunden: " +:+ pretty (total c));;
       print E ("Gefixt:   " +:+ pretty (fixed c)
                +:+ (if arg_dry_run a then " (dry-run)" else ""));;
       print E ("Fehler:   " +:+ pretty (failed c));;
       ret (Some (if Nat.eqb (failed c) 0 then 0%Z else 1%Z))) w →
  (r = (Ok (Some (if Nat.eqb (failed c) 0 then 0%Z else 1%Z)),
        {| fs := fs w; spawned := spawned w;
           console_out := console_out w ++ summary_lines (arg_dry_run a) c;
           console_err := console_err w |})
   ∨ ∃ e, r.1 = Raise e ∧ ¬ stdout_reliable E)
  ∧ fs r.2 = fs w ∧ spawned r.2 = spawned w ∧ console_err r.2 = console_err w.
Proof.
  intros Hr. unfold summary_lines.
  unfold bind at 1 in Hr.
  destruct (print_cases E (String "010" "--- Ergebnis ---") w)
    as [[_ H]|(e & He & H)]; rewrite H in Hr; cbv beta iota in Hr;
    [|subst r; split;
      [right; exists e; split; [reflexivity|intros Hrel; by rewrite Hrel in He]
      |done]].
  clear H. set (w1 := {| fs := fs w |}) in Hr.
  unfold bind at 1 in Hr.
  destruct (print_cases E ("Gefunden: " +:+ pretty (total c)) w1)
    as [[_ H]|(e & He & H)]; rewrite H in Hr; cbv beta iota in Hr;
    [|subst r; split;
      [right; exists e; split; [reflexivity|intros Hrel; by rewrite Hrel in He]
      |done]].
  clear H. set (w2 := {| fs := fs w1 |}) in Hr.
  unfold bind at 1 in Hr.
  destruct (print_cases E ("Gefixt:   " +:+ pretty (fixed c)
                           +:+ (if arg_dry_run a then " (dry-run)" else "")) w2)
    as [[_ H]|(e & He & H)]; rewrite H in Hr; cbv beta iota in Hr;
    [|subst r; split;
      [right; exists e; split; [reflexivity|intros Hrel; by rewrite Hrel in He]
      |done]].
  clear H. set (w3 := {| fs := fs w2 |}) in Hr.
  unfold bind at 1 in Hr.
  destruct (print_cases E ("Fehler:   " +:+ pretty (failed c)) w3)
    as [[_ H]|(e & He & H)]; rewrite H in Hr; cbv beta iota in Hr;
    [|subst r; split;
      [right; exists e; split; [reflexivity|intros Hrel; by rewrite Hrel in He]
      |done]].
  subst r. split; [|done]. left. unfold ret. f_equal.
  subst w3 w2 w1. simpl. by rewrite <- !app_assoc.
Qed.

(** [main], case by case. *)
Lemma main_cases E fuel a w root :
  resolve E (arg_root a) = Ok root →
  main E fuel a w
  = match get (fs w) root with
    | Some (Dir _) =>
        match (find_qpdf E (arg_qpdf a) w).1 with
        | Ok qpdf =>
            match for_pdfs fuel (loop_body E qpdf a) [root]
                    {| total := 0; fixed := 0; failed := 0 |} w with
            | (Ok (Some c), w') =>
                (print E (String "010" "--- Ergebnis ---");;
                 print E ("Gefunden: " +:+ pretty (total c));;
                 print E ("Gefixt:   " +:+ pretty (fixed c)
                          +:+ (if arg_dry_run a then " (dry-run)" else ""));;
                 print E ("Fehler:   " +:+ pretty (failed c));;
                 ret (Some (if Nat.eqb (failed c) 0 then 0%Z else 1%Z))) w'
            | (Ok None, w') => (Ok None, w')
            | (Raise e, w') => (Raise e, w')
            end
        | Raise e => (print_err E (str_exn e);; ret (Some 2%Z)) w
        end
    | _ => (print_err E ("Ungültiger Ordner: " +:+ str root);; ret (Some 2%Z)) w
    end.
Proof.
  intros Hres. unfold main. unfold bind at 1. unfold lift. rewrite Hres.
  unfold bind at 1. unfold exists_ at 1. unfold bind at 1.
  destruct (get (fs w) root) as [[r l data|es]|] eqn:Hroot.
  - unfold is_dir_. rewrite Hroot. reflexivity.
  - unfold is_dir_. rewrite Hroot. cbn [is_dir negb].
    unfold bind at 1. unfold try_except. unfold bind at 1.
    pose proof (find_qpdf_world E (arg_qpdf a) w) as Hw.
    destruct (find_qpdf E (arg_qpdf a) w) as [[qpdf|e] w1]; simpl in Hw; subst w1.
    + unfold ret at 1. cbn [fst]. unfold bind at 1.
      destruct (for_pdfs fuel (loop_body E qpdf a) [root]
                  {| total := 0; fixed := 0; failed := 0 |} w)
        as [[[c|]|e] w']; reflexivity.
    + cbn [fst]. unfold bind.
      by destruct (print_err E (str_exn e) w) as [[[]|e'] w'].
  - reflexivity.
Qed.

Lemma tool_found_find E a w qpdf :
  tool_found E a w qpdf → (find_qpdf E (arg_qpdf a) w).1 = Ok qpdf.
Proof.
  intros [(s & -> & Hs & Hloc & ->)|(Hno & Hw & Hq)].
  - rewrite find_qpdf_given by (by destruct s).
    by destruct (locate _ _ _).
  - rewrite find_qpdf_searched by (by destruct Hno as [-> | ->]).
    rewrite Hw. simpl. by destruct qpdf.
Qed.

Lemma tool_missing_find E a w :
  tool_missing E a w → ∃ e, (find_qpdf E (arg_qpdf a) w).1 = Raise e.
Proof.
  intros [(s & -> & Hs & Hloc)|(Hno & Hw)].
  - rewrite find_qpdf_given by (by destruct s). rewrite Hloc. eauto.
  - rewrite find_qpdf_searched by (by destruct Hno as [-> | ->]).
    destruct Hw as [-> | ->]; simpl; eauto.
Qed.

(** *** The loop body and its record *)

Lemma tally_all_snoc l p r : tally_all (l ++ [(p, r)]) = tally (tally_all l) r.2.
Proof. unfold tally_all. by rewrite fold_left_app. Qed.

Lemma loop_log_related E qpdf a p c l w :
  c = tally_all l →
  related eq (λ c l, c = tally_all l)
    (loop_body E qpdf a p c w) (log_body E qpdf a p l w).
Proof.
  intros ->. unfold loop_body, log_body, related, log_line, bind.
  destruct (fix_one_pdf E qpdf p (arg_mode a) (arg_dry_run a) w)
    as [[[ch st]|e] w1]; [|done]. cbn [snd].
  destruct (arg_quiet a); cbn [negb].
  - split; [done|]. simpl. by rewrite tally_all_snoc.
  - destruct (print_cases E (str p +:+ "  ->  " +:+ st) w1)
      as [[_ ->]|(e & _ & ->)]; [|done].
    split; [done|]. simpl. by rewrite tally_all_snoc.
Qed.

Lemma looks_like_pdf_named p w :
  looks_like_pdf p w = true → nonempty (name p) = true.
Proof.
  intros [Hs _]%looks_like_pdf_true.
  apply suffix_nonempty_name. intros H. by rewrite H in Hs.
Qed.

Lemma status_shape E qpdf pdf mode dry w ch st w' :
  fix_one_pdf E qpdf pdf mode dry w = (Ok (ch, st), w') →
  outcome_shape (ch, st).
Proof.
  intros H. apply fix_one_pdf_status in H
    as [(-> & -> & _)|[(-> & -> & _)|(-> & _ & m & ->)]].
  - by left.
  - right. by left.
  - right. right. by exists m.
Qed.

Lemma log_body_keeps E qpdf a w0 p l w :
  run_inv E qpdf a w0 l w →
  looks_like_pdf p w = true →
  match log_body E qpdf a p l w with
  | (Ok l', w') => run_inv E qpdf a w0 l' w'
  | (Raise _, _) => True
  end.
Proof.
  intros (Hshape & Hsp & Hout & Herr & Hdry) Hp.
  apply looks_like_pdf_named in Hp as Hn.
  destruct (fix_one_pdf_returns E qpdf p (arg_mode a) (arg_dry_run a) w
              (or_intror Hn)) as (ch & st & w1 & Hfix).
  assert (spawned w1
          = spawned w
            ++ (if arg_dry_run a then []
                else qpdf_commands qpdf p (tmp_path_of p) (arg_mode a))
          ∧ console_out w1 = console_out w
          ∧ console_err w1 = console_err w
          ∧ (arg_dry_run a = true → w1 = w ∧ (ch, st) = (false, "DRY-RUN")))
    as (Hs1 & Ho1 & He1 & Hd1).
  { destruct (arg_dry_run a).
    - injection Hfix as <- <- <-. by rewrite app_nil_r.
    - pose proof (fix_one_pdf_world E qpdf p (arg_mode a) w Hn) as H.
      rewrite Hfix in H. destruct H as (? & ? & ?). done. }
  apply status_shape in Hfix as Hsh.
  unfold log_body, bind. rewrite Hfix. cbn [snd].
  assert (run_inv E qpdf a w0 (l ++ [(p, (ch, st))])
            (if arg_quiet a then w1
             else {| fs := fs w1; spawned := spawned w1;
                     console_out := console_out w1 ++ [log_line p st];
                     console_err := console_err w1 |})) as Hinv.
  { split; [apply Forall_app; split; [done|by constructor]|].
    split.
    { destruct (arg_quiet a); cbn [spawned]; rewrite Hs1, Hsp;
        destruct (arg_dry_run a); rewrite ?flat_map_app, <- ?app_assoc;
        simpl; by rewrite ?app_nil_r. }
    split.
    { destruct (arg_quiet a); cbn [console_out]; rewrite Ho1, Hout;
        rewrite ?map_app, <- ?app_assoc; done. }
    split.
    { destruct (arg_quiet a); cbn [console_err]; by rewrite He1, Herr. }
    intros Hd. destruct (Hdry Hd) as [Hfs Hall].
    destruct (Hd1 Hd) as [-> Hst]. split.
    - by destruct (arg_quiet a).
    - apply Forall_app. split; [done|]. by constructor. }
  destruct (arg_quiet a); cbn [negb]; [exact Hinv|].
  destruct (print_cases E (log_line p st) w1) as [[_ ->]|(e & _ & ->)];
    [exact Hinv|done].
Qed.

Lemma fold_tally l : ∀ c,
  Forall (λ e : Path * (bool * string), outcome_shape e.2) l →
  fold_left (λ c e, tally c e.2.2) l c
  = {| total := total c + length l;
       fixed := fixed c + count is_ok (map snd l);
       failed := failed c + count is_failure (map snd l) |}.
Proof.
  induction l as [|[p o] l IH]; intros c Hall.
  { simpl. unfold count. simpl. rewrite !Nat.add_0_r. by destruct c. }
  apply Forall_cons in Hall as [Ho Hall]. simpl in Ho.
  cbn [fold_left map length snd]. rewrite IH by done.
  unfold count. cbn [List.filter].
  destruct Ho as [->|[->|[m ->]]]; cbn [snd].
  - rewrite tally_ok. cbn [total fixed failed].
    change (is_ok (true, "OK")) with true.
    change (is_failure (true, "OK")) with false.
    simpl. f_equal; lia.
  - rewrite tally_dry. cbn [total fixed failed].
    change (is_ok (false, "DRY-RUN")) with false.
    change (is_failure (false, "DRY-RUN")) with false.
    simpl. f_equal; lia.
  - rewrite tally_failure. cbn [total fixed failed].
    change (is_ok (false, "FEHLER: " +:+ m)) with false.
    rewrite is_failure_fehler. simpl. f_equal; lia.
Qed.

Lemma tally_all_counters l :
  Forall (λ e : Path * (bool * string), outcome_shape e.2) l →
  tally_all l = counters_of l.
Proof. intros H. unfold tally_all. by rewrite fold_tally. Qed.

(** On a console that takes the lines, or with [--quiet], the loop body
    returns for every candidate. *)
Lemma loop_body_returns E qpdf a p c w :
  arg_quiet a = true ∨ stdout_reliable E →
  looks_like_pdf p w = true →
  ∃ c' w', loop_body E qpdf a p c w = (Ok c', w').
Proof.
  intros Hcon Hp. apply looks_like_pdf_named in Hp.
  destruct (fix_one_pdf_returns E qpdf p (arg_mode a) (arg_dry_run a) w
              (or_intror Hp)) as (ch & st & w1 & Hfix).
  unfold loop_body, bind. rewrite Hfix. cbn [snd].
  rewrite log_step by done. eauto.
Qed.

Section returns.
Context {A : Type} (body : Path → A → M A).
Hypothesis body_returns : ∀ p a w,
  looks_like_pdf p w = true → ∃ a' w', body p a w = (Ok a', w').

Lemma for_files_returns top : ∀ fns a w,
  ∃ a' w', for_files body top fns a w = (Ok a', w').
Proof.
  induction fns as [|fn fns IH]; intros a w; [by eexists _, _|].
  rewrite for_files_cons.
  destruct (looks_like_pdf (top ++ [fn]) w) eqn:Hp; [|apply IH].
  destruct (body_returns _ a w Hp) as (a' & w' & ->). apply IH.
Qed.

(** No pass through the body ends the walk. *)
Lemma for_pdfs_returns : ∀ fuel stack a w,
  ∃ r w', for_pdfs fuel body stack a w = (Ok r, w').
Proof.
  induction fuel as [|fuel IH]; intros [|top stack] a w;
    rewrite ?for_pdfs_nil; try by eexists _, _.
  rewrite for_pdfs_step.
  destruct (get (fs w) top) as [[r l data|es]|]; try apply IH.
  destruct (for_files_returns top (file_names es) a w) as (a' & w' & ->).
  apply IH.
Qed.
End returns.

(** *** The run of the loop and its record *)

(** The loop of [main], run next to the loop that keeps the record: both
    come to the same world, the counters are those of the record, and the
    record and the world are as [run_inv] says.  The loop raises only if
    the standard output refuses a line that is logged. *)
Lemma loop_run E qpdf a root w fuel :
  match for_pdfs fuel (loop_body E qpdf a) [root]
          {| total := 0; fixed := 0; failed := 0 |} w with
  | (Ok (Some c), w') =>
      for_pdfs fuel (log_body E qpdf a) [root] [] w
      = (Ok (Some (run_log fuel E qpdf a root w)), w')
      ∧ c = counters_of (run_log fuel E qpdf a root w)
      ∧ run_inv E qpdf a w (run_log fuel E qpdf a root w) w'
  | (Ok None, w') => True
  | (Raise e, w') => ¬ (arg_quiet a = true ∨ stdout_reliable E)
  end.
Proof.
  pose proof (for_pdfs_related (λ c l, c = tally_all l) eq
                (loop_body E qpdf a) (log_body E qpdf a)) as Hrel.
  specialize (Hrel (λ w1 w2 H, f_equal fs H)).
  specialize (Hrel (λ p c l w1 w2 Hc Hw _,
                      eq_ind w1 (λ w2, related eq (λ c l, c = tally_all l)
                                         (loop_body E qpdf a p c w1)
                                         (log_body E qpdf a p l w2))
                        (loop_log_related E qpdf a p c l w1 Hc) w2 Hw)).
  specialize (Hrel fuel [root] {| total := 0; fixed := 0; failed := 0 |} [] w w
                eq_refl eq_refl).
  pose proof (for_pdfs_keeps (run_inv E qpdf a w) (log_body E qpdf a)
                (log_body_keeps E qpdf a w) fuel [root] [] w) as Hinv.
  unfold run_log.
  destruct (for_pdfs fuel (loop_body E qpdf a) [root] _ w) as [[[c|]|e] w1]
    eqn:Hloop;
    destruct (for_pdfs fuel (log_body E qpdf a) [root] [] w) as [[[l|]|e'] w2];
    destruct Hrel as [Hw Hres]; simpl in Hw, Hres; subst; try done;
    try by inversion Hres.
  - inversion Hres as [? ? Hc|]; subst.
    split; [done|].
    assert (run_inv E qpdf a w l w2) as Hl.
    { apply Hinv. split; [constructor|].
      split; [by destruct (arg_dry_run a); rewrite app_nil_r|].
      split; [by destruct (arg_quiet a); rewrite app_nil_r|].
      split; [done|]. intros _. split; [done|constructor]. }
    split; [|done]. apply tally_all_counters. by destruct Hl.
  - intros Hcon.
    destruct (for_pdfs_returns (loop_body E qpdf a)
                (λ p c w0, loop_body_returns E qpdf a p c w0 Hcon)
                fuel [root] {| total := 0; fixed := 0; failed := 0 |} w)
      as (r & w' & Hret).
    rewrite Hret in Hloop. discriminate.
Qed.

Lemma main_resolve_raises E fuel a w e :
  resolve E (arg_root a) = Raise e → main E fuel a w = (Raise e, w).
Proof. intros H. unfold main, bind, lift. by rewrite H. Qed.

Lemma count_map_dry (l : list (Path * (bool * string))) :
  Forall (λ e, e.2 = (false, "DRY-RUN")) l → count is_failure (map snd l) = 0.
Proof.
  intros H. apply count_failure_dry.
  induction H as [|e l He _ IH]; simpl; by constructor.
Qed.

(** [main] past its two checks: the loop, then the summary. *)
Lemma main_found E fuel a w root es qpdf :
  resolve E (arg_root a) = Ok root →
  get (fs w) root = Some (Dir es) →
  (find_qpdf E (arg_qpdf a) w).1 = Ok qpdf →
  match for_pdfs fuel (loop_body E qpdf a) [root]
          {| total := 0; fixed := 0; failed := 0 |} w with
  | (Ok (Some c), w') =>
      c = counters_of (run_log fuel E qpdf a root w)
      ∧ run_inv E qpdf a w (run_log fuel E qpdf a root w) w'
      ∧ (main E fuel a w
         = (Ok (Some (if Nat.eqb (count is_failure
                                    (map snd (run_log fuel E qpdf a root w))) 0
                      then 0%Z else 1%Z)),
            {| fs := fs w'; spawned := spawned w';
               console_out :=
                 console_out w'
                 ++ summary_lines (arg_dry_run a)
                      (counters_of (run_log fuel E qpdf a root w));
               console_err := console_err w' |})
         ∨ ∃ e, (main E fuel a w).1 = Raise e ∧ ¬ stdout_reliable E)
      ∧ fs (main E fuel a w).2 = fs w'
      ∧ spawned (main E fuel a w).2 = spawned w'
      ∧ console_err (main E fuel a w).2 = console_err w'
  | (Ok None, w') => main E fuel a w = (Ok None, w')
  | (Raise e, w') =>
      main E fuel a w = (Raise e, w')
      ∧ ¬ (arg_quiet a = true ∨ stdout_reliable E)
  end.
Proof.
  intros Hres Hroot Hfind.
  rewrite (main_cases E fuel a w root Hres), Hroot, Hfind.
  pose proof (loop_run E qpdf a root w fuel) as Hrun.
  destruct (for_pdfs fuel (loop_body E qpdf a) [root] _ w) as [[[c|]|e] w'];
    [|done|done].
  destruct Hrun as (_ & Hc & Hinv).
  split; [done|]. split; [done|].
  edestruct (summary_cases E a c w') as (Hsum & Hfs & Hsp & Herr); [reflexivity|].
  split; [|done].
  destruct Hsum as [Hsum|Hsum]; [left|by right].
  rewrite Hsum, Hc. reflexivity.
Qed.

Lemma loop_body_dry_stable E qpdf a :
  arg_dry_run a = true → ∀ p c w, fs (loop_body E qpdf a p c w).2 = fs w.
Proof.
  intros Hd p c w. unfold loop_body, bind. rewrite Hd.
  cbn [fix_one_pdf ret snd].
  destruct (arg_quiet a); cbn [negb]; [done|].
  by destruct (print_cases E (str p +:+ "  ->  " +:+ "DRY-RUN") w)
    as [[_ ->]|(e & _ & ->)].
Qed.

(** A dry run comes to its end, with status 0. *)
Lemma main_dry_run E a w root es qpdf :
  resolve E (arg_root a) = Ok root →
  get (fs w) root = Some (Dir es) →
  (find_qpdf E (arg_qpdf a) w).1 = Ok qpdf →
  arg_dry_run a = true →
  stdout_reliable E →
  ∃ k, ∀ fuel, k ≤ fuel → (main E fuel a w).1 = Ok (Some 0%Z).
Proof.
  intros Hres Hroot Hfind Hd Hrel.
  destruct (for_pdfs_stable (loop_body E qpdf a)
              (loop_body_dry_stable E qpdf a Hd) root (Dir es)
              {| total := 0; fixed := 0; failed := 0 |} w Hroot) as [k Hk].
  exists k. intros fuel Hfuel. specialize (Hk fuel Hfuel).
  pose proof (main_found E fuel a w root es qpdf Hres Hroot Hfind) as Hmain.
  destruct (for_pdfs_returns (loop_body E qpdf a)
              (λ p c w0, loop_body_returns E qpdf a p c w0 (or_intror Hrel))
              fuel [root] {| total := 0; fixed := 0; failed := 0 |} w)
    as (r & w' & Hret).
  rewrite Hret in Hmain, Hk.
  destruct r as [c|].
  - destruct Hmain as (_ & Hinv & [Hm|(e & _ & Hno)] & _); [|done].
    destruct Hinv as (_ & _ & _ & _ & Hdry).
    destruct (Hdry Hd) as [_ Hall].
    rewrite Hm, (count_map_dry _ Hall). reflexivity.
  - by destruct (for_each _ _ _ w) as [[?|?] ?].
Qed.

(** ** The directories of the tree under updates *)

Lemma dirs_at_file r l d q : dirs_at (File r l d) q = None.
Proof. unfold dirs_at. by destruct q. Qed.

Lemma dirs_at_cons es c q :
  dirs_at (Dir es) (c :: q)
  = match assoc c es with Some ch => dirs_at ch q | None => None end.
Proof. unfold dirs_at. simpl. by destruct (assoc c es). Qed.

Lemma dir_names_set_child c r l d es :
  (∀ x, assoc c es ≠ Some (Dir x)) →
  dir_names (set_child c (File r l d) es) = dir_names es.
Proof.
  unfold dir_names. induction es as [|[k n] es IH]; intros Hc; [done|].
  simpl in *. destruct (String.eqb k c) eqn:Hk.
  - simpl. destruct n as [|x]; [done|]. by destruct (Hc x).
  - simpl. destruct (is_dir n); simpl; by rewrite IH.
Qed.

Lemma dir_names_on_child c f es :
  (∀ n, is_dir (f n) = is_dir n) →
  dir_names (on_child c f es) = dir_names es.
Proof.
  intros Hf. unfold dir_names, on_child.
  induction es as [|[k n] es IH]; [done|]. simpl.
  destruct (String.eqb k c); simpl; rewrite ?Hf;
    destruct (is_dir n); simpl; by rewrite IH.
Qed.

Lemma drop_child_absent c es :
  ¬ In c (map fst es) → drop_child c es = es.
Proof.
  unfold drop_child. induction es as [|[k n] es IH]; intros Hc; [done|].
  simpl in *. destruct (String.eqb k c) eqn:Hk.
  - apply String.eqb_eq in Hk. destruct Hc. by left.
  - simpl. rewrite IH; [done|]. intros H. apply Hc. by right.
Qed.

Lemma dir_names_drop_child c r l d es :
  List.NoDup (map fst es) → assoc c es = Some (File r l d) →
  dir_names (drop_child c es) = dir_names es.
Proof.
  intros Hnd Ha. unfold dir_names. f_equal. revert Hnd Ha.
  induction es as [|[k n] es IH]; intros Hnd Ha; [done|].
  simpl in Hnd, Ha. apply List.NoDup_cons_iff in Hnd as [Hk Hnd].
  change (drop_child c ((k, n) :: es))
    with (if negb (String.eqb k c) then (k, n) :: drop_child c es
          else drop_child c es).
  destruct (String.eqb k c) eqn:Hkc; cbn [negb].
  - apply String.eqb_eq in Hkc. subst k. injection Ha as ->. simpl.
    by rewrite drop_child_absent.
  - simpl. destruct (is_dir n); by rewrite IH.
Qed.

Lemma is_dir_put c p v n : is_dir (put (c :: p) v n) = is_dir n.
Proof. destruct n as [|es]; [done|]. by destruct p. Qed.

Lemma is_dir_remove c p n : is_dir (remove (c :: p) n) = is_dir n.
Proof. destruct n as [|es]; [done|]. by destruct p. Qed.

Lemma dirs_at_put p r l d : ∀ n q,
  (∀ x, get n p ≠ Some (Dir x)) →
  dirs_at (put p (File r l d) n) q = dirs_at n q.
Proof.
  induction p as [|c p IH]; intros n q Hp.
  - simpl. destruct n as [r' l' d'|x]; [|by destruct (Hp x)].
    by rewrite !dirs_at_file.
  - destruct n as [r' l' d'|es]; [done|]. simpl in Hp.
    destruct p as [|c2 p].
    + simpl. destruct q as [|c' q].
      * unfold dirs_at. simpl. f_equal. apply dir_names_set_child.
        intros x Hx. rewrite Hx in Hp. by destruct (Hp x).
      * rewrite !dirs_at_cons.
        destruct (decide (c = c')) as [<-|Hne].
        -- rewrite assoc_set_child_eq, dirs_at_file.
           destruct (assoc c es) as [[r' l' d'|x]|]; [|by destruct (Hp x)|done].
           by rewrite dirs_at_file.
        -- by rewrite assoc_set_child_ne.
    + change (put (c :: c2 :: p) (File r l d) (Dir es))
        with (Dir (on_child c (put (c2 :: p) (File r l d)) es)).
      destruct q as [|c' q].
      * unfold dirs_at. simpl. f_equal. apply dir_names_on_child.
        intros n. apply is_dir_put.
      * rewrite !dirs_at_cons.
        destruct (decide (c = c')) as [<-|Hne].
        -- rewrite assoc_on_child_eq.
           destruct (assoc c es) as [ch|]; [|done]. simpl. by apply IH.
        -- by rewrite assoc_on_child_ne.
Qed.

Lemma dirs_at_remove p : ∀ n q r l d,
  well_formed n → get n p = Some (File r l d) →
  dirs_at (remove p n) q = dirs_at n q.
Proof.
  induction p as [|c p IH]; intros n q r l d Hwf Hp; [done|].
  destruct n as [r' l' d'|es]; [done|]. simpl in Hp.
  inversion Hwf as [|es' Hnd Hall]; subst.
  destruct p as [|c2 p].
  - simpl. destruct (assoc c es) as [ch|] eqn:Ha; [|done].
    simpl in Hp. injection Hp as ->.
    destruct q as [|c' q].
    + unfold dirs_at. simpl. f_equal. by eapply dir_names_drop_child.
    + rewrite !dirs_at_cons.
      destruct (decide (c = c')) as [<-|Hne].
      * by rewrite assoc_drop_child_eq, Ha, dirs_at_file.
      * by rewrite assoc_drop_child_ne.
  - change (remove (c :: c2 :: p) (Dir es))
      with (Dir (on_child c (remove (c2 :: p)) es)).
    destruct q as [|c' q].
    + unfold dirs_at. simpl. f_equal. apply dir_names_on_child.
      intros n. apply is_dir_remove.
    + rewrite !dirs_at_cons.
      destruct (decide (c = c')) as [<-|Hne].
      * rewrite assoc_on_child_eq.
        destruct (assoc c es) as [ch|] eqn:Ha; [|done]. simpl.
        apply (IH ch q r l d); [|done].
        rewrite List.Forall_forall in Hall.
        apply (Hall _ (assoc_In _ _ _ Ha)).
      * by rewrite assoc_on_child_ne.
Qed.

Lemma map_fst_on_child c f es : map fst (on_child c f es) = map fst es.
Proof.
  unfold on_child. induction es as [|[k n] es IH]; [done|]. simpl.
  destruct (String.eqb k c); simpl; by rewrite IH.
Qed.

Lemma Forall_on_child (P : node → Prop) c f es :
  (∀ n, In n (map snd es) → P n → P (f n)) →
  Forall (λ e, P e.2) es → Forall (λ e, P e.2) (on_child c f es).
Proof.
  unfold on_child. induction es as [|[k n] es IH]; intros Hf Hall; [done|].
  apply Forall_cons in Hall as [Hn Hall]. simpl.
  constructor.
  - destruct (String.eqb k c); simpl; [|done]. apply Hf; [by left|done].
  - apply IH; [|done]. intros m Hm. apply Hf. by right.
Qed.

Lemma In_set_child_fst x c v es :
  In x (map fst (set_child c v es)) → x = c ∨ In x (map fst es).
Proof.
  induction es as [|[k n] es IH]; simpl.
  - intros [<-|[]]. by left.
  - destruct (String.eqb k c); simpl; [tauto|].
    intros [<-|H]; [tauto|]. destruct (IH H); tauto.
Qed.

Lemma NoDup_set_child c v es :
  List.NoDup (map fst es) → List.NoDup (map fst (set_child c v es)).
Proof.
  induction es as [|[k n] es IH]; simpl; intros Hnd.
  - repeat constructor. by intros [].
  - apply List.NoDup_cons_iff in Hnd as [Hk Hnd].
    destruct (String.eqb k c) eqn:Hkc; simpl.
    + by apply List.NoDup_cons_iff.
    + apply String.eqb_neq in Hkc. apply List.NoDup_cons_iff.
      split; [|by apply IH].
      intros [->|H]%In_set_child_fst; done.
Qed.

Lemma Forall_set_child (P : node → Prop) c v es :
  P v → Forall (λ e, P e.2) es → Forall (λ e, P e.2) (set_child c v es).
Proof.
  intros Hv. induction es as [|[k n] es IH]; intros Hall.
  - by repeat constructor.
  - apply Forall_cons in Hall as [Hn Hall]. simpl.
    destruct (String.eqb k c); constructor; auto.
Qed.

Lemma well_formed_put p v : ∀ n,
  well_formed v → well_formed n → well_formed (put p v n).
Proof.
  induction p as [|c p IH]; intros n Hv Hn; [done|].
  destruct n as [r l d|es]; [done|].
  inversion Hn as [|es' Hnd Hall]; subst.
  destruct p as [|c2 p].
  - simpl. constructor.
    + by apply NoDup_set_child.
    + by apply Forall_set_child.
  - change (put (c :: c2 :: p) v (Dir es))
      with (Dir (on_child c (put (c2 :: p) v) es)).
    constructor.
    + by rewrite map_fst_on_child.
    + apply Forall_on_child; [|done]. intros n _ Hwf. by apply IH.
Qed.

Lemma well_formed_remove p : ∀ n, well_formed n → well_formed (remove p n).
Proof.
  induction p as [|c p IH]; intros n Hn; [done|].
  destruct n as [r l d|es]; [done|].
  inversion Hn as [|es' Hnd Hall]; subst.
  destruct p as [|c2 p].
  - simpl. constructor.
    + by apply NoDup_map_fst_filter.
    + unfold drop_child. rewrite List.Forall_forall in *.
      intros e [He _]%filter_In. by apply Hall.
  - change (remove (c :: c2 :: p) (Dir es))
      with (Dir (on_child c (remove (c2 :: p)) es)).
    constructor.
    + by rewrite map_fst_on_child.
    + apply Forall_on_child; [|done]. intros n _ Hwf. by apply IH.
Qed.

(** Writing a file where no directory is keeps every file there was. *)
Lemma get_put_keeps q v : ∀ p n r l d,
  (∀ x, get n q ≠ Some (Dir x)) →
  get n p = Some (File r l d) →
  get (put q v n) p ≠ None.
Proof.
  induction q as [|c q IH]; intros p n r l d Hq Hp.
  - simpl. destruct n as [r' l' d'|x]; [|by destruct (Hq x)].
    destruct p; [done|done].
  - destruct n as [r' l' d'|es]; [simpl; by rewrite Hp|].
    destruct p as [|c' p]; [done|]. simpl in Hp, Hq.
    destruct q as [|c2 q].
    + simpl. destruct (decide (c = c')) as [<-|Hne].
      * rewrite assoc_set_child_eq.
        destruct (assoc c es) as [[r' l' d'|x]|]; [|by destruct (Hq x)|done].
        by destruct p.
      * rewrite assoc_set_child_ne by done.
        by destruct (assoc c' es) as [ch|]; [rewrite Hp|].
    + change (put (c :: c2 :: q) v (Dir es))
        with (Dir (on_child c (put (c2 :: q) v) es)).
      simpl. destruct (decide (c = c')) as [<-|Hne].
      * rewrite assoc_on_child_eq.
        destruct (assoc c es) as [ch|]; [|done]. simpl. by eapply IH.
      * rewrite assoc_on_child_ne by done.
        by destruct (assoc c' es) as [ch|]; [rewrite Hp|].
Qed.

(** ** A repair keeps the directories *)

Lemma same_dirs_trans a b c : same_dirs a b → same_dirs b c → same_dirs a c.
Proof. intros H1 H2 q. by rewrite H1. Qed.

Lemma same_dirs_file n n' p r l d :
  same_dirs n' n → get n p = Some (File r l d) → get n' p ≠ None →
  ∃ r' l' d', get n' p = Some (File r' l' d').
Proof.
  intros Hs Hp Hp'. specialize (Hs p). unfold dirs_at in Hs. rewrite Hp in Hs.
  destruct (get n' p) as [[r' l' d'|es]|]; [eauto|done|done].
Qed.

Lemma discard_tidy p w :
  well_formed (fs w) →
  well_formed (fs (discard p w)) ∧ same_dirs (fs (discard p w)) (fs w).
Proof.
  intros Hwf. unfold discard.
  destruct (get (fs w) p) as [[r [] d|es]|] eqn:Hg; try done.
  simpl. split; [by apply well_formed_remove|].
  intros q. by eapply dirs_at_remove.
Qed.

Lemma replace_onto_file src dst w w' r l d :
  get (fs w) dst = Some (File r l d) →
  replace src dst w = (Ok tt, w') →
  ∃ r' l' d',
    get (fs w) src = Some (File r' l' d')
    ∧ w' = with_fs w (put dst (File r' l' d') (remove src (fs w))).
Proof.
  intros Hd H. unfold replace in H. rewrite Hd in H.
  destruct (get (fs w) src) as [[r' [] d'|es]|]; simpl in H; try done.
  destruct l; [done|]. injection H as <-. eauto.
Qed.

Lemma run_qpdf_tidy E qpdf pdf mode w r l d :
  keeps_dirs E → keeps_input E qpdf mode →
  well_formed (fs w) → get (fs w) pdf = Some (File r l d) →
  well_formed (fs (run_qpdf E qpdf pdf (tmp_path_of pdf) mode w).2)
  ∧ same_dirs (fs (run_qpdf E qpdf pdf (tmp_path_of pdf) mode w).2) (fs w)
  ∧ ∃ r' l' d',
      get (fs (run_qpdf E qpdf pdf (tmp_path_of pdf) mode w).2) pdf
      = Some (File r' l' d').
Proof.
  intros Hdirs Hinput Hwf Hget. rewrite run_qpdf_eval.
  specialize (Hinput pdf). unfold qpdf_commands in Hinput.
  destruct (qpdf_flag mode) as [flag|];
    [|simpl; split; [done|]; split; [by intros q|eauto]].
  rewrite subprocess_run_eval.
  destruct (Hdirs [qpdf; flag; str pdf; str (tmp_path_of pdf)] (fs w) Hwf)
    as [Hwf' Hs].
  specialize (Hinput _ (fs w) r l d Hwf Hget (or_introl eq_refl)).
  destruct (same_dirs_file _ _ _ _ _ _ Hs Hget Hinput) as (r' & l' & d' & Hg').
  destruct (tool E _ (fs w)) as [[proc|e] n']; simpl in *;
    (split; [done|]; split; [done|eauto]).
Qed.

(** From a tool that keeps the directories and its input, a repair of a
    candidate keeps the tree free of double names and the directories as
    they are. *)
Lemma fix_one_pdf_tidy E qpdf pdf mode dry w n0 :
  keeps_dirs E → keeps_input E qpdf mode →
  looks_like_pdf pdf w = true → tidy n0 w →
  tidy n0 (fix_one_pdf E qpdf pdf mode dry w).2.
Proof.
  intros Hdirs Hinput Hp [Hwf Hsame].
  destruct dry; [done|].
  apply looks_like_pdf_named in Hp as Hn.
  apply looks_like_pdf_true in Hp as (_ & l & data & Hget & _).
  rewrite fix_one_pdf_stages by done. cbv zeta.
  destruct (siblings pdf Hn) as (dir & nm & tn & Hpdf & Htmp & Hne).
  destruct (discard_tidy (tmp_path_of pdf) w Hwf) as [Hwf1 Hs1].
  assert (get (fs (discard (tmp_path_of pdf) w)) pdf = Some (File true l data))
    as Hg1.
  { rewrite Htmp, Hpdf, discard_sibling by done. by rewrite <- Hpdf. }
  destruct (run_qpdf_tidy E qpdf pdf mode _ _ _ _ Hdirs Hinput Hwf1 Hg1)
    as (Hwf2 & Hs2 & r2 & l2 & d2 & Hg2).
  assert (∀ w3, well_formed (fs w3) → same_dirs (fs w3) n0 →
                tidy n0 (discard (tmp_path_of pdf) w3)) as Hdiscard.
  { intros w3 Hwf3 Hs3. destruct (discard_tidy (tmp_path_of pdf) w3 Hwf3).
    split; [done|]. by eapply same_dirs_trans. }
  assert (same_dirs
            (fs (run_qpdf E qpdf pdf (tmp_path_of pdf) mode
                   (discard (tmp_path_of pdf) w)).2) n0) as Hs20.
  { eapply same_dirs_trans; [exact Hs2|]. by eapply same_dirs_trans. }
  destruct (run_qpdf E qpdf pdf (tmp_path_of pdf) mode
              (discard (tmp_path_of pdf) w)) as [[[]|e] w2];
    simpl in Hwf2, Hs20, Hg2; [|by apply Hdiscard].
  destruct (get (fs w2) (tmp_path_of pdf)) as [n|] eqn:Ht; [|by apply Hdiscard].
  destruct (st_size E n <? 10); [by apply Hdiscard|].
  destruct (replace (tmp_path_of pdf) pdf w2) as [[[]|e] w3] eqn:Hrep.
  - destruct (replace_onto_file _ _ _ _ _ _ _ Hg2 Hrep)
      as (r' & l' & d' & Hsrc & ->).
    split; simpl.
    + apply well_formed_put; [constructor|by apply well_formed_remove].
    + intros q. rewrite dirs_at_put.
      * rewrite (dirs_at_remove _ _ _ _ _ _ Hwf2 Hsrc). apply Hs20.
      * intros x. rewrite Htmp, Hpdf, get_remove_sibling by done.
        rewrite <- Hpdf, Hg2. done.
  - apply replace_raises in Hrep as ->. by apply Hdiscard.
Qed.

(** ** The walk comes to an end *)

Section bounded.
Context {A : Type} (body : Path → A → M A) (n0 : node).
Hypothesis body_tidy : ∀ p a w,
  tidy n0 w → looks_like_pdf p w = true → tidy n0 (body p a w).2.

Lemma for_files_tidy top : ∀ fns a w,
  tidy n0 w → tidy n0 (for_files body top fns a w).2.
Proof.
  induction fns as [|fn fns IH]; intros a w Hw; [done|].
  rewrite for_files_cons.
  destruct (looks_like_pdf (top ++ [fn]) w) eqn:Hp; [|by apply IH].
  pose proof (body_tidy _ a w Hw Hp) as Hw'.
  destruct (body (top ++ [fn]) a w) as [[a'|e] w']; [by apply IH|done].
Qed.


Lemma visit_not_dir top :
  dirs_at n0 top = None → visit_ends body n0 1 top.
Proof.
  intros Hd fuel stack a w Hw. right. exists a, w. split; [done|].
  change (1 + fuel) with (S fuel). rewrite for_pdfs_step.
  destruct Hw as [_ Hs]. specialize (Hs top). rewrite Hd in Hs.
  unfold dirs_at in Hs.
  by destruct (get (fs w) top) as [[r l d|es]|].
Qed.

Lemma visit_children_end top ds :
  (∀ d, In d ds → ∃ k, visit_ends body n0 k (top ++ [d])) →
  ∃ k, ∀ fuel stack a w, tidy n0 w →
    (∃ e w', for_pdfs (k + fuel) body
               (map (λ d, top ++ [d]) ds ++ stack) a w = (Raise e, w'))
    ∨ ∃ a' w', tidy n0 w'
               ∧ for_pdfs (k + fuel) body
                   (map (λ d, top ++ [d]) ds ++ stack) a w
                 = for_pdfs fuel body stack a' w'.
Proof.
  induction ds as [|d ds IH]; intros Hall.
  { exists 0. intros fuel stack a w Hw. right. by exists a, w. }
  destruct (Hall d (or_introl eq_refl)) as [k1 Hk1].
  destruct IH as [k2 Hk2]; [intros d' Hd'; apply Hall; by right|].
  exists (k1 + k2). intros fuel stack a w Hw. cbn [map app].
  rewrite <- Nat.add_assoc.
  destruct (Hk1 (k2 + fuel) (map (λ d, top ++ [d]) ds ++ stack) a w Hw)
    as [(e & w' & ->)|(a' & w' & Hw' & ->)]; [left; eauto|].
  apply Hk2, Hw'.
Qed.

Lemma visit_any m : ∀ top, get n0 top = Some m → ∃ k, visit_ends body n0 k top.
Proof.
  induction m as [r l data|es IH] using node_ind'; intros top Hget.
  - exists 1. apply visit_not_dir. unfold dirs_at. by rewrite Hget.
  - destruct (visit_children_end top (prune_dirnames (dir_names es)))
      as [k Hk].
    { intros d _. rewrite List.Forall_forall in IH.
      destruct (assoc d es) as [ch|] eqn:Ha.
      - apply (IH _ (assoc_In _ _ _ Ha)).
        rewrite get_app, Hget. simpl. by rewrite Ha.
      - exists 1. apply visit_not_dir. unfold dirs_at.
        rewrite get_app, Hget. simpl. by rewrite Ha. }
    exists (S k). intros fuel stack a w Hw.
    change (S k + fuel) with (S (k + fuel)). rewrite for_pdfs_step.
    pose proof (proj2 Hw top) as Hs. unfold dirs_at in Hs. rewrite Hget in Hs.
    destruct (get (fs w) top) as [[r l d|es']|]; [done| |done].
    injection Hs as Hs. rewrite Hs.
    pose proof (for_files_tidy top (file_names es') a w Hw) as Hw1.
    destruct (for_files body top (file_names es') a w) as [[a1|e] w1];
      [|left; eauto].
    apply Hk, Hw1.
Qed.

(** From a tidy world the walk comes to its end within a number of
    scans that the directories of the tree fix. *)
Lemma for_pdfs_ends root :
  ∃ k, ∀ fuel a w, k ≤ fuel → tidy n0 w →
    finishes (for_pdfs fuel body [root] a w).
Proof.
  assert (∃ k, visit_ends body n0 k root) as [k Hk].
  { destruct (get n0 root) as [m|] eqn:Hget; [by eapply visit_any|].
    exists 1. apply visit_not_dir. unfold dirs_at. by rewrite Hget. }
  exists k. intros fuel a w Hle Hw.
  replace fuel with (k + (fuel - k)) by lia.
  unfold finishes.
  destruct (Hk (fuel - k) [] a w Hw) as [(e & w' & ->)|(a' & w' & _ & ->)];
    [done|by rewrite for_pdfs_nil].
Qed.
End bounded.

Lemma loop_body_tidy E qpdf a n0 :
  keeps_dirs E → keeps_input E qpdf (arg_mode a) →
  ∀ p c w, tidy n0 w → looks_like_pdf p w = true →
           tidy n0 (loop_body E qpdf a p c w).2.
Proof.
  intros Hdirs Hinput p c w Hw Hp.
  pose proof (fix_one_pdf_tidy E qpdf p (arg_mode a) (arg_dry_run a) w n0
                Hdirs Hinput Hp Hw) as Hfix.
  unfold loop_body, bind.
  destruct (fix_one_pdf E qpdf p (arg_mode a) (arg_dry_run a) w)
    as [[r|e] w1]; [|done]. simpl in Hfix.
  destruct (arg_quiet a); cbn [negb]; [done|].
  by destruct (print_cases E (str p +:+ "  ->  " +:+ r.2) w1)
    as [[_ ->]|(e & _ & ->)].
Qed.

(** With a tool that keeps the directories and its input, on a tree that
    lists no name twice, [main] comes to its end within a number of scans
    that the tree fixes. *)
Lemma main_ends E a w root qpdf :
  resolve E (arg_root a) = Ok root →
  (find_qpdf E (arg_qpdf a) w).1 = Ok qpdf →
  keeps_dirs E → keeps_input E qpdf (arg_mode a) → well_formed (fs w) →
  ∃ k, ∀ fuel, k ≤ fuel → finishes (main E fuel a w).
Proof.
  intros Hres Hfind Hdirs Hinput Hwf.
  destruct (for_pdfs_ends (loop_body E qpdf a) (fs w)
              (loop_body_tidy E qpdf a (fs w) Hdirs Hinput) root) as [k Hk].
  exists k. intros fuel Hle. unfold finishes.
  rewrite (main_cases E fuel a w root Hres), Hfind.
  assert (tidy (fs w) w) as Hw by (split; [done|by intros q]).
  specialize (Hk fuel {| total := 0; fixed := 0; failed := 0 |} w Hle Hw).
  unfold finishes in Hk.
  assert (∀ line, ((print_err E line;; ret (Some 2%Z)) w).1 ≠ Ok None) as Hp.
  { intros line. unfold bind.
    by destruct (print_err_cases E line w) as [[_ ->]|(e & _ & ->)]. }
  destruct (get (fs w) root) as [[r l d|es]|]; [apply Hp| |apply Hp].
  destruct (for_pdfs fuel (loop_body E qpdf a) [root] _ w) as [[[c|]|e] w'];
    [|done|done].
  destruct (summary_cases E a c w' _ eq_refl) as ([->|(e & -> & _)] & _); done.
Qed.

(** The careful tool keeps the directories and its input. *)
Lemma careful_tool_keeps qpdf mode :
  keeps_dirs (env_of careful_tool)
  ∧ keeps_input (env_of careful_tool) qpdf mode.
Proof.
  split.
  - intros cmd n Hwf. simpl. unfold careful_tool.
    destruct cmd as [|c1 [|c2 [|c3 [|out [|c5 rest]]]]]; try (split; [done|by intros q]).
    destruct (get n (Path_of out)) as [[r l d|es]|] eqn:Hg; simpl;
      try (split; [done|by intros q]).
    + split; [apply well_formed_put; [constructor|done]|].
      intros q. apply dirs_at_put. intros x. by rewrite Hg.
    + split; [apply well_formed_put; [constructor|done]|].
      intros q. apply dirs_at_put. intros x. by rewrite Hg.
  - intros pdf cmd n r l d Hwf Hget _. simpl. unfold careful_tool.
    destruct cmd as [|c1 [|c2 [|c3 [|out [|c5 rest]]]]];
      try (simpl; by rewrite Hget).
    destruct (get n (Path_of out)) as [[r' l' d'|es]|] eqn:Hg; simpl;
      try (by rewrite Hget).
    + eapply get_put_keeps; [|done]. intros x. by rewrite Hg.
    + eapply get_put_keeps; [|done]. intros x. by rewrite Hg.
Qed.




(** Runs of the driver on the sample tree: one candidate repaired and one
    refused (status 1), a tool that rejects every file (status 1), a dry run
    (status 0), no tool on the search path (status 2), an explicit tool path
    that does not exist (status 2), a root that is a regular file
    (status 2), and a walk cut short after two scans. *)
Lemma main_samples :
  (main (env_of writing_tool) 3 (sample_args false) sample_world).1
  = Ok (Some 1%Z)
  ∧ (main (env_of rejecting_tool) 3 (sample_args false) sample_world).1
    = Ok (Some 1%Z)
  ∧ (main (env_of writing_tool) 3 (sample_args true) sample_world).1
    = Ok (Some 0%Z)
  ∧ (main no_qpdf_env 3 (sample_args false) sample_world).1 = Ok (Some 2%Z)
  ∧ (main (env_of writing_tool) 3
       {| arg_root := "/docs"; arg_qpdf := Some "/opt/qpdf/bin/qpdf";
          arg_mode := "linearize"; arg_dry_run := false; arg_quiet := true |}
       sample_world).1 = Ok (Some 2%Z)
  ∧ (main (env_of writing_tool) 3
       {| arg_root := "/docs/a.pdf"; arg_qpdf := None;
          arg_mode := "linearize"; arg_dry_run := false; arg_quiet := true |}
       sample_world).1 = Ok (Some 2%Z)
  ∧ (main (env_of writing_tool) 1 (sample_args false) sample_world).1
    = Ok None.
Proof. vm_compute. done. Qed.

(** ** main: further properties *)

(** A run of [main] that ended with a status other than 2 came through the
    loop: the world it ended in and the record of the run. *)
Lemma main_ended E fuel a w root es qpdf code w' :
  resolve E (arg_root a) = Ok root →
  get (fs w) root = Some (Dir es) →
  (find_qpdf E (arg_qpdf a) w).1 = Ok qpdf →
  main E fuel a w = (Ok (Some code), w') →
  ∃ w1,
    run_inv E qpdf a w (run_log fuel E qpdf a root w) w1
    ∧ w' = {| fs := fs w1; spawned := spawned w1;
              console_out :=
                console_out w1
                ++ summary_lines (arg_dry_run a)
                     (counters_of (run_log fuel E qpdf a root w));
              console_err := console_err w1 |}.
Proof.
  intros Hres Hroot Hfind Hmain.
  pose proof (main_found E fuel a w root es qpdf Hres Hroot Hfind) as Hm.
  destruct (for_pdfs fuel (loop_body E qpdf a) [root] _ w) as [[[c|]|e1] w1].
  - destruct Hm as (_ & Hinv & [Hm|(e1 & Hr & _)] & _).
    + exists w1. split; [done|]. rewrite Hm in Hmain. by simplify_eq.
    + by rewrite Hmain in Hr.
  - by rewrite Hm in Hmain.
  - destruct Hm as [Hm _]. by rewrite Hm in Hmain.
Qed.

(** X17.  When the root is a directory and the tool is found, what a run
    of [main] that came to its exit has written to standard output is,
    after what was there, one line per candidate the walk yielded, in the
    order of the walk, made of the path, an arrow and the status of its
    repair (no such lines with [--quiet]), followed by the four summary
    lines with the number of candidates, of repairs and of failures;
    nothing is written to standard error. *)
Theorem main_output E fuel a w root es qpdf code w' :
  resolve E (arg_root a) = Ok root →
  get (fs w) root = Some (Dir es) →
  (find_qpdf E (arg_qpdf a) w).1 = Ok qpdf →
  main E fuel a w = (Ok (Some code), w') →
  console_out w'
  = console_out w
    ++ (if arg_quiet a then []
        else map (λ e, log_line e.1 e.2.2) (run_log fuel E qpdf a root w))
    ++ summary_lines (arg_dry_run a)
         (counters_of (run_log fuel E qpdf a root w))
  ∧ console_err w' = console_err w.
Proof.
  intros Hres Hroot Hfind Hmain.
  destruct (main_ended E fuel a w root es qpdf code w' Hres Hroot Hfind Hmain)
    as (w1 & (_ & _ & Hout & Herr & _) & ->).
  simpl. by rewrite Hout, Herr, <- app_assoc.
Qed.

Lemma main_output_witness :
  console_out (main (env_of writing_tool) 3 (sample_args false) sample_world).2
  = ["/docs/a.pdf  ->  OK";
     "/docs/c.pdf  ->  FEHLER: [Errno 13] Permission denied: '/docs/.c.pdf.qpdf_tmp' -> '/docs/c.pdf'";
     "/docs/sub/D.PDF  ->  OK";
     String "010" "--- Ergebnis ---";
     "Gefunden: 3"; "Gefixt:   2"; "Fehler:   1"].
Proof.
  edestruct (λ es w', main_output (env_of writing_tool) 3 (sample_args false)
                        sample_world ["docs"] es "/usr/bin/qpdf" 1%Z w')
    as [H _].
  - reflexivity.
  - reflexivity.
  - reflexivity.
  - vm_compute. reflexivity.
  - vm_compute. reflexivity.
Defined.

(** X18.  When the root is a directory and the tool is found, a real run
    of [main] that came to its exit has started the tool once for every
    candidate the walk yielded, in the order of the walk, each time with
    the candidate as input and its hidden sibling as output, and has
    started nothing else; with an unknown mode it has started nothing at
    all.  A dry run has started nothing and has left the tree as it was. *)
Theorem main_spawns E fuel a w root es qpdf code w' :
  resolve E (arg_root a) = Ok root →
  get (fs w) root = Some (Dir es) →
  (find_qpdf E (arg_qpdf a) w).1 = Ok qpdf →
  main E fuel a w = (Ok (Some code), w') →
  spawned w'
  = spawned w
    ++ (if arg_dry_run a then []
        else flat_map
               (λ e, qpdf_commands qpdf e.1 (tmp_path_of e.1) (arg_mode a))
               (run_log fuel E qpdf a root w))
  ∧ (arg_dry_run a = true → fs w' = fs w).
Proof.
  intros Hres Hroot Hfind Hmain.
  destruct (main_ended E fuel a w root es qpdf code w' Hres Hroot Hfind Hmain)
    as (w1 & (_ & Hsp & _ & _ & Hdry) & ->).
  simpl. split; [done|]. intros Hd. by destruct (Hdry Hd).
Qed.

Lemma main_spawns_witness :
  spawned (main (env_of writing_tool) 3 (sample_args false) sample_world).2
  = [["/usr/bin/qpdf"; "--linearize"; "/docs/a.pdf"; "/docs/.a.pdf.qpdf_tmp"];
     ["/usr/bin/qpdf"; "--linearize"; "/docs/c.pdf"; "/docs/.c.pdf.qpdf_tmp"];
     ["/usr/bin/qpdf"; "--linearize"; "/docs/sub/D.PDF";
      "/docs/sub/.D.PDF.qpdf_tmp"]].
Proof.
  edestruct (λ es w', main_spawns (env_of writing_tool) 3 (sample_args false)
                        sample_world ["docs"] es "/usr/bin/qpdf" 1%Z w')
    as [H _].
  - reflexivity.
  - reflexivity.
  - reflexivity.
  - vm_compute. reflexivity.
  - vm_compute. reflexivity.
Defined.

(** X19.  When [main] exits with status 2 it has done nothing but write one
    line to standard error: the tree, the list of spawned commands and
    standard output are as before, and the line is either the complaint
    about the root or the text of the exception [find_qpdf] raised. *)
Theorem main_refusal E fuel a w :
  (main E fuel a w).1 = Ok (Some 2%Z) →
  fs (main E fuel a w).2 = fs w
  ∧ spawned (main E fuel a w).2 = spawned w
  ∧ console_out (main E fuel a w).2 = console_out w
  ∧ ∃ line,
      console_err (main E fuel a w).2 = console_err w ++ [line]
      ∧ ((∃ root, resolve E (arg_root a) = Ok root
                  ∧ line = "Ungültiger Ordner: " +:+ str root)
         ∨ ∃ e, (find_qpdf E (arg_qpdf a) w).1 = Raise e ∧ line = str_exn e).
Proof.
  destruct (resolve E (arg_root a)) as [root|e0] eqn:Hres.
  2:{ by rewrite (main_resolve_raises E fuel a w e0 Hres). }
  assert (∀ line,
            ((print_err E line;; ret (Some 2%Z)) w).1 = Ok (Some 2%Z) →
            (print_err E line;; ret (Some 2%Z)) w
            = (Ok (Some 2%Z),
               {| fs := fs w; spawned := spawned w;
                  console_out := console_out w;
                  console_err := console_err w ++ [line] |})) as Hp.
  { intros line. unfold bind.
    by destruct (print_err_cases E line w) as [[_ ->]|(e & _ & ->)]. }
  destruct (get (fs w) root) as [[r l data|es]|] eqn:Hroot.
  1, 3: rewrite (main_cases E fuel a w root Hres), Hroot;
        intros H; rewrite (Hp _ H); simpl; eauto 10.
  destruct (find_qpdf E (arg_qpdf a) w).1 as [qpdf|e1] eqn:Hfind.
  2:{ rewrite (main_cases E fuel a w root Hres), Hroot, Hfind.
      intros H. rewrite (Hp _ H). simpl. eauto 10. }
  pose proof (main_found E fuel a w root es qpdf Hres Hroot Hfind) as Hm.
  destruct (for_pdfs fuel (loop_body E qpdf a) [root] _ w) as [[[c|]|e1] w1].
  - destruct Hm as (_ & _ & [Hm|(e1 & Hr & _)] & _).
    + rewrite Hm. simpl. by case_match.
    + by rewrite Hr.
  - by rewrite Hm.
  - destruct Hm as [Hm _]. by rewrite Hm.
Qed.

Lemma main_refusal_witness :
  console_err (main no_qpdf_env 3 (sample_args false) sample_world).2
  = [qpdf_missing]
  ∧ fs (main no_qpdf_env 3 (sample_args false) sample_world).2 = sample_tree.
Proof.
  destruct (main_refusal no_qpdf_env 3 (sample_args false) sample_world)
    as (Hfs & _ & _ & line & Herr & _).
  - vm_compute. reflexivity.
  - split; [vm_compute; reflexivity|exact Hfs].
Defined.

Lemma loop_body_quiet E qpdf a q p c w1 w2 :
  stdout_reliable E →
  same_system w1 w2 ∧ console_err w1 = console_err w2 →
  related (λ w1 w2, same_system w1 w2 ∧ console_err w1 = console_err w2) eq
    (loop_body E qpdf (with_quiet a q) p c w1) (loop_body E qpdf a p c w2).
Proof.
  intros Hrel [Hsys Herr].
  pose proof (blind_fix_one_pdf E qpdf p (arg_mode a) (arg_dry_run a)) as Hb.
  destruct (blind_respects _ w1 w2 Hb Hsys) as (Hr & Hsys' & _ & He2).
  destruct (blind_console _ w1 Hb) as [_ He1].
  unfold loop_body, related, bind.
  cbn [with_quiet arg_mode arg_dry_run arg_quiet].
  destruct (fix_one_pdf E qpdf p (arg_mode a) (arg_dry_run a) w1)
    as [r1 w1'].
  destruct (fix_one_pdf E qpdf p (arg_mode a) (arg_dry_run a) w2)
    as [r2 w2'].
  simpl in Hr, Hsys', He1, He2. subst r2.
  destruct Hsys' as [Hfs Hsp].
  destruct r1 as [r|e]; [|unfold same_system; simpl; repeat split; congruence].
  destruct (arg_quiet a), q; cbn [negb]; rewrite ?print_reliable by done;
    unfold same_system; simpl; repeat split; congruence.
Qed.

(** X20.  On a standard output that takes every line, [--quiet] changes
    nothing but standard output: with the flag set or cleared, [main] ends
    in the same way, leaves the same tree, has started the same commands
    and has written the same to standard error. *)
Theorem main_quiet E fuel a w q :
  stdout_reliable E →
  (main E fuel (with_quiet a q) w).1 = (main E fuel a w).1
  ∧ fs (main E fuel (with_quiet a q) w).2 = fs (main E fuel a w).2
  ∧ spawned (main E fuel (with_quiet a q) w).2 = spawned (main E fuel a w).2
  ∧ console_err (main E fuel (with_quiet a q) w).2
    = console_err (main E fuel a w).2.
Proof.
  intros Hrel.
  destruct (resolve E (arg_root a)) as [root|e0] eqn:Hres.
  2:{ by rewrite !main_resolve_raises with (e := e0). }
  rewrite (main_cases E fuel a w root Hres).
  rewrite (main_cases E fuel (with_quiet a q) w root Hres).
  cbn [with_quiet arg_root arg_qpdf arg_mode arg_dry_run].
  destruct (get (fs w) root) as [[r l data|es]|]; [done| |done].
  destruct (find_qpdf E (arg_qpdf a) w).1 as [qpdf|e1]; [|done].
  pose proof (for_pdfs_related eq
                (λ w1 w2, same_system w1 w2 ∧ console_err w1 = console_err w2)
                (loop_body E qpdf (with_quiet a q)) (loop_body E qpdf a)
                (λ w1 w2 H, proj1 (proj1 H))
                (λ p c1 c2 w1 w2 Hc Hw _,
                   eq_ind c1 (λ c2, related _ eq
                                      (loop_body E qpdf (with_quiet a q) p c1 w1)
                                      (loop_body E qpdf a p c2 w2))
                     (loop_body_quiet E qpdf a q p c1 w1 w2 Hrel Hw) c2 Hc)
                fuel [root] {| total := 0; fixed := 0; failed := 0 |}
                {| total := 0; fixed := 0; failed := 0 |} w w
                eq_refl (conj (conj eq_refl eq_refl) eq_refl)) as Hsim.
  destruct (for_pdfs fuel (loop_body E qpdf (with_quiet a q)) [root] _ w)
    as [[[c1|]|e1] w1];
    destruct (for_pdfs fuel (loop_body E qpdf a) [root] _ w)
      as [[[c2|]|e2] w2];
    destruct Hsim as [[[Hfs Hsp] Herr] Hres']; simpl in Hfs, Hsp, Herr, Hres';
    try done; try (by inversion Hres'); try (by simplify_eq).
  inversion Hres' as [? ? Hc|]; subst.
  destruct (summary_cases E a c2 w1 _ eq_refl)
    as ([H1|(e & _ & Hno)] & _); [|done].
  destruct (summary_cases E a c2 w2 _ eq_refl)
    as ([H2|(e & _ & Hno)] & _); [|done].
  rewrite H1, H2. simpl. by rewrite Hfs, Hsp, Herr.
Qed.

Lemma main_quiet_witness :
  stdout_reliable (env_of writing_tool)
  ∧ (main (env_of writing_tool) 3 (with_quiet (sample_args false) true)
       sample_world).1 = Ok (Some 1%Z)
  ∧ console_err (main (env_of writing_tool) 3
                   (with_quiet (sample_args false) true) sample_world).2
    = [].
Proof.
  assert (stdout_reliable (env_of writing_tool)) as Hrel by (by intros out line).
  split; [exact Hrel|].
  destruct (main_quiet (env_of writing_tool) 3 (sample_args false) sample_world
              true Hrel) as (H1 & _ & _ & H4).
  rewrite H1, H4. split; vm_compute; reflexivity.
Defined.
